(** * CList: a doubly-linked list with a finger cache and a node pool

    Shallow embedding of [clist.h] (miniclib) and verification of its
    index resolver, mutators and pool against the library's specification.

    Pointers, [size_t] and [unsigned int] values are integers ([Z]); the
    wrap-around of unsigned arithmetic is written out.  Memory is a pair
    of typed stores (list nodes, list objects) with a bump allocator; a
    dereference of a pointer that designates no live object is a [Fault]. *)

From Stdlib Require Import ZArith List Lia.
From stdpp Require Import base tactics option list gmap.

Local Open Scope Z_scope.

(** ** Machine integers and constants *)

(** A pointer is an address; [NULL] is address 0. *)
Abbreviation ptr := Z (only parsing).
Definition NULL : ptr := 0.

Definition SIZE_MOD : Z := 2 ^ 64.
Definition UINT_MOD : Z := 2 ^ 32.

(** Result of an operation on [size_t] operands. *)
Definition wrap (z : Z) : Z := z mod SIZE_MOD.
(** Result of an operation on [unsigned int] operands. *)
Definition uwrap (z : Z) : Z := z mod UINT_MOD.

Definition EXIT_SUCCESS : Z := 0.
Definition EXIT_FAILURE : Z := 1.

Definition CLIST_PAYLOAD_IGNORE : Z := 0.
Definition CLIST_PAYLOAD_FREE : Z := 1.

(** [sizeof(void* )], [sizeof(clist_node_t)] and [sizeof(clist_t)] on an
    LP64 target. *)
Definition sizeof_ptr : Z := 8.
Definition sizeof_node : Z := 16.
Definition sizeof_clist : Z := 72.

(** ** Data model *)

(** A node: the two links of [clist_node_t] and the payload region that
    trails the header in the same block, read as one unsigned integer of
    [type_size] bytes. *)
Record clist_node_t := mk_node {
  next : ptr;
  prev : ptr;
  payload : Z
}.

Record clist_t := mk_list {
  head : ptr;
  tail : ptr;
  rul : ptr;
  pkb : ptr;
  type_size : Z;
  size : Z;
  ruly : Z;
  zskb : Z;
  flags : Z
}.

Definition with_next (v : ptr) (n : clist_node_t) : clist_node_t :=
  mk_node v (prev n) (payload n).
Definition with_prev (v : ptr) (n : clist_node_t) : clist_node_t :=
  mk_node (next n) v (payload n).
Definition with_payload (v : Z) (n : clist_node_t) : clist_node_t :=
  mk_node (next n) (prev n) v.

Definition with_head (v : ptr) (l : clist_t) : clist_t :=
  mk_list v (tail l) (rul l) (pkb l) (type_size l) (size l) (ruly l) (zskb l) (flags l).
Definition with_tail (v : ptr) (l : clist_t) : clist_t :=
  mk_list (head l) v (rul l) (pkb l) (type_size l) (size l) (ruly l) (zskb l) (flags l).
Definition with_rul (v : ptr) (l : clist_t) : clist_t :=
  mk_list (head l) (tail l) v (pkb l) (type_size l) (size l) (ruly l) (zskb l) (flags l).
Definition with_pkb (v : ptr) (l : clist_t) : clist_t :=
  mk_list (head l) (tail l) (rul l) v (type_size l) (size l) (ruly l) (zskb l) (flags l).
Definition with_type_size (v : Z) (l : clist_t) : clist_t :=
  mk_list (head l) (tail l) (rul l) (pkb l) v (size l) (ruly l) (zskb l) (flags l).
Definition with_size (v : Z) (l : clist_t) : clist_t :=
  mk_list (head l) (tail l) (rul l) (pkb l) (type_size l) v (ruly l) (zskb l) (flags l).
Definition with_ruly (v : Z) (l : clist_t) : clist_t :=
  mk_list (head l) (tail l) (rul l) (pkb l) (type_size l) (size l) v (zskb l) (flags l).
Definition with_zskb (v : Z) (l : clist_t) : clist_t :=
  mk_list (head l) (tail l) (rul l) (pkb l) (type_size l) (size l) (ruly l) v (flags l).
Definition with_flags (v : Z) (l : clist_t) : clist_t :=
  mk_list (head l) (tail l) (rul l) (pkb l) (type_size l) (size l) (ruly l) (zskb l) v.

(** What the program does that is visible outside the two stores. *)
Inductive event :=
| EvMalloc (sz : Z) (p : ptr)   (* malloc(sz) returned p; NULL on failure *)
| EvFree (p : ptr)              (* free(p) *)
| EvCall (arg : ptr).           (* a callback was called with arg *)

(** Memory.  [brk] is the next address the allocator hands out and [lim]
    the end of the heap; [raw_node] and [raw_list] give what a block that
    has just been allocated at an address holds (indeterminate in C, any
    value here). *)
Record mem := mk_mem {
  nodes : gmap Z clist_node_t;
  lists : gmap Z clist_t;
  brk : Z;
  lim : Z;
  trace : list event;
  raw_node : ptr -> clist_node_t;
  raw_list : ptr -> clist_t
}.

Definition set_nodes (h : gmap Z clist_node_t) (m : mem) : mem :=
  mk_mem h (lists m) (brk m) (lim m) (trace m) (raw_node m) (raw_list m).
Definition set_lists (s : gmap Z clist_t) (m : mem) : mem :=
  mk_mem (nodes m) s (brk m) (lim m) (trace m) (raw_node m) (raw_list m).
Definition set_brk (b : Z) (m : mem) : mem :=
  mk_mem (nodes m) (lists m) b (lim m) (trace m) (raw_node m) (raw_list m).
Definition log (e : event) (m : mem) : mem :=
  mk_mem (nodes m) (lists m) (brk m) (lim m) (trace m ++ [e]) (raw_node m) (raw_list m).

(** ** The state-and-fault monad *)

Inductive result (A : Type) :=
| Ok (a : A) (m : mem)
| Fault      (* undefined behaviour: a pointer that designates no object was used *)
| Diverge.   (* the loop does not end *)
Arguments Ok {A} a m.
Arguments Fault {A}.
Arguments Diverge {A}.

Definition M (A : Type) : Type := mem -> result A.

Definition ret {A} (a : A) : M A := fun m => Ok a m.
Definition bind {A B} (c : M A) (k : A -> M B) : M B :=
  fun m => match c m with
           | Ok a m' => k a m'
           | Fault => Fault
           | Diverge => Diverge
           end.
Definition fault {A} : M A := fun _ => Fault.

Notation "x <- c ; k" := (bind c (fun x => k))
  (at level 20, c at level 100, k at level 200, only parsing).
Notation "c ;; k" := (bind c (fun _ => k))
  (at level 100, k at level 200, only parsing, right associativity).

(** ** Memory primitives *)

(** [*p] for a node pointer. *)
Definition load_node (p : ptr) : M clist_node_t :=
  fun m => match nodes m !! p with
           | Some n => Ok n m
           | None => Fault
           end.

Definition upd_node (p : ptr) (f : clist_node_t -> clist_node_t) : M unit :=
  fun m => match nodes m !! p with
           | Some n => Ok tt (set_nodes (<[p := f n]> (nodes m)) m)
           | None => Fault
           end.

(** [list->field] and [list->field = v]. *)
Definition rd {A} (list : ptr) (field : clist_t -> A) : M A :=
  fun m => match lists m !! list with
           | Some l => Ok (field l) m
           | None => Fault
           end.

Definition wr (list : ptr) (f : clist_t -> clist_t) : M unit :=
  fun m => match lists m !! list with
           | Some l => Ok tt (set_lists (<[list := f l]> (lists m)) m)
           | None => Fault
           end.

Definition emit (e : event) : M unit := fun m => Ok tt (log e m).

(** [malloc(sz)]: a bump allocator; fails when the heap is exhausted.
    Two blocks never share an address, also for [sz = 0]. *)
Definition malloc (sz : Z) : M ptr :=
  fun m => if brk m + Z.max 1 sz <=? lim m
           then Ok (brk m)
                  (log (EvMalloc sz (brk m)) (set_brk (brk m + Z.max 1 sz) m))
           else Ok NULL (log (EvMalloc sz NULL) m).

(** [malloc] of a block that will be used as a node. *)
Definition malloc_node (sz : Z) : M ptr :=
  p <- malloc sz;
  if p =? NULL then ret NULL
  else fun m => Ok p (set_nodes (<[p := raw_node m p]> (nodes m)) m).

(** [malloc(sizeof(clist_t))]. *)
Definition malloc_list : M ptr :=
  p <- malloc sizeof_clist;
  if p =? NULL then ret NULL
  else fun m => Ok p (set_lists (<[p := raw_list m p]> (lists m)) m).

(** [free(p)] of a node block. *)
Definition free_node (p : ptr) : M unit :=
  fun m => match nodes m !! p with
           | Some _ => Ok tt (log (EvFree p) (set_nodes (delete p (nodes m)) m))
           | None => Fault
           end.

(** [free(p)] of a list object. *)
Definition free_list (p : ptr) : M unit :=
  fun m => match lists m !! p with
           | Some _ => Ok tt (log (EvFree p) (set_lists (delete p (lists m)) m))
           | None => Fault
           end.

(** [free(v)] of a pointer the list stores as an element: the block is
    the caller's, only the call is recorded. *)
Definition free_payload (v : Z) : M unit := emit (EvFree v).

(** [node + 1]: the payload region of a node. *)
Definition payload_ptr (node : ptr) : ptr := node + sizeof_node.

(** The contents of the payload region a pointer returned by [clist_get]
    designates. *)
Definition deref_payload (m : mem) (q : ptr) : option Z :=
  payload <$> (nodes m !! (q - sizeof_node)).

(** ** The library *)

(** [clist_init] *)
Definition clist_init (list : ptr) (type_size0 dynamic : Z) : M Z :=
  if negb (list =? NULL) && (0 <? type_size0)
     && ((dynamic =? CLIST_PAYLOAD_IGNORE) || (dynamic =? CLIST_PAYLOAD_FREE))
     && ((dynamic =? CLIST_PAYLOAD_IGNORE) || (type_size0 =? sizeof_ptr))
  then
    wr list (with_pkb NULL);;
    wr list (with_tail NULL);;
    wr list (with_head NULL);;
    wr list (with_type_size type_size0);;
    wr list (with_zskb 0);;
    wr list (with_size 0);;
    wr list (with_flags (Z.land dynamic 1));;
    ret EXIT_SUCCESS
  else ret EXIT_FAILURE.

(** [clist_new] *)
Definition clist_new (type_size0 dynamic : Z) : M ptr :=
  list <- malloc_list;
  if negb (list =? NULL) then
    ok <- clist_init list type_size0 dynamic;
    if negb (ok =? EXIT_SUCCESS) then free_list list;; ret NULL
    else ret list
  else ret list.

(** [clist_size] *)
Definition clist_size (list : ptr) : M Z :=
  if negb (list =? NULL) then rd list size else ret 0.

(** [clist_empty] *)
Definition clist_empty (list : ptr) : M Z :=
  if negb (list =? NULL) then
    sz <- rd list size;
    if 0 <? sz then ret 0 else ret 1
  else ret 1.

(** [clist_head] *)
Definition clist_head (list : ptr) : M ptr :=
  if negb (list =? NULL) then rd list head else ret NULL.

(** [clist_tail] *)
Definition clist_tail (list : ptr) : M ptr :=
  if negb (list =? NULL) then rd list tail else ret NULL.

(** The two loops of [clist_go]: [while (steps-- > 0U) node = node->next;]
    and the same along [prev]. *)
Fixpoint walk_next (steps : nat) (node : ptr) : M ptr :=
  match steps with
  | O => ret node
  | S k => n <- load_node node; walk_next k (next n)
  end.

Fixpoint walk_prev (steps : nat) (node : ptr) : M ptr :=
  match steps with
  | O => ret node
  | S k => n <- load_node node; walk_prev k (prev n)
  end.

(** The anchors [clist_go] can start from. *)
Inductive anchor := FromHead | FromTail | FromCache.

(** The choice [clist_go] makes when none of its four shortcuts applies:
    the anchor, the number of steps and the direction (0: along [next],
    -1: along [prev]). *)
Definition go_plan (l : clist_t) (idx : Z) : anchor * Z * Z :=
  let len := size l in
  if negb (Z.land (flags l) 2 =? 0) then
    let cidx := ruly l in
    if cidx <=? idx then
      if wrap (idx - cidx) <=? wrap (wrap (len - idx) - 1)
      then (FromCache, wrap (idx - cidx), 0)
      else (FromTail, wrap (wrap (len - idx) - 1), -1)
    else
      if idx <=? wrap (cidx - idx)
      then (FromHead, idx, 0)
      else (FromCache, wrap (cidx - idx), -1)
  else
    if len / 2 <? idx
    then (FromTail, wrap (wrap (len - idx) - 1), -1)
    else (FromHead, idx, 0).

Definition anchor_node (l : clist_t) (a : anchor) : ptr :=
  match a with
  | FromHead => head l
  | FromTail => tail l
  | FromCache => rul l
  end.

(** [clist_go] *)
Definition clist_go (list : ptr) (idx : Z) : M ptr :=
  if negb (list =? NULL) then
    len <- rd list size;
    if idx <? len then
      if idx =? 0 then rd list head
      else if idx =? 1 then
        h <- rd list head; n <- load_node h; ret (next n)
      else if idx =? wrap (len - 1) then rd list tail
      else if idx =? wrap (len - 2) then
        t <- rd list tail; n <- load_node t; ret (prev n)
      else
        l <- rd list id;
        let '(a, steps, direction) := go_plan l idx in
        node <- (if direction =? 0
                 then walk_next (Z.to_nat steps) (anchor_node l a)
                 else walk_prev (Z.to_nat steps) (anchor_node l a));
        wr list (with_rul node);;
        wr list (with_ruly idx);;
        fl <- rd list flags;
        wr list (with_flags (Z.lor fl 2));;
        ret node
    else ret NULL
  else ret NULL.

(** [clist_get] *)
Definition clist_get (list : ptr) (idx : Z) : M ptr :=
  p <- clist_go list idx;
  if negb (p =? NULL) then ret (payload_ptr p) else ret NULL.


(** [memcpy(node + 1, payload, type_size)]: the payload argument is the
    contents of the buffer it points to. *)
Definition memcpy_payload (node : ptr) (v : Z) : M unit :=
  upd_node node (with_payload v).

(** [clist_set]; a NULL [payload] is [None]. *)
Definition clist_set (list : ptr) (idx : Z) (payload0 : option Z) : M unit :=
  match payload0 with
  | Some v =>
      p <- clist_go list idx;
      if negb (p =? NULL) then
        _ts <- rd list type_size;
        memcpy_payload p v
      else ret tt
  | None => ret tt
  end.


(** [vnut_cl_insert_node] *)
Definition vnut_cl_insert_node (list : ptr) (idx : Z) (node : ptr) : M unit :=
  sz <- rd list size;
  next0 <- (if idx <? sz then clist_go list idx else ret NULL);
  prev0 <- (if idx =? 0 then
              wr list (with_head node);; ret NULL
            else
              p <- clist_go list (wrap (idx - 1));
              upd_node p (with_next node);;
              ret p);
  prev1 <- (if negb (next0 =? NULL) then
              n <- load_node next0;
              upd_node next0 (with_prev node);;
              ret (prev n)
            else
              wr list (with_tail node);; ret prev0);
  upd_node node (with_next next0);;
  upd_node node (with_prev prev1);;
  old <- rd list size;
  wr list (with_size (wrap (old + 1)));;
  if (idx <? old) && (0 <? idx) then
    wr list (with_rul node);;
    wr list (with_ruly idx);;
    fl <- rd list flags;
    wr list (with_flags (Z.lor fl 2))
  else
    if idx =? 0 then
      c <- rd list ruly;
      wr list (with_ruly (wrap (c + 1)))
    else ret tt.

(** [clist_insert]; a NULL [payload] is [None]. *)
Definition clist_insert (list : ptr) (idx : Z) (payload0 : option Z) : M Z :=
  if negb (list =? NULL) then
    sz <- rd list size;
    if idx <=? sz then
      zs <- rd list zskb;
      node <- (if 0 <? zs then
                 node <- rd list pkb;
                 n <- load_node node;
                 wr list (with_pkb (next n));;
                 wr list (with_zskb (wrap (zs - 1)));;
                 ret node
               else
                 ts <- rd list type_size;
                 malloc_node (wrap (sizeof_node + ts)));
      if negb (node =? NULL) then
        match payload0 with
        | Some v => memcpy_payload node v
        | None => ret tt
        end;;
        vnut_cl_insert_node list idx node;;
        ret EXIT_SUCCESS
      else ret EXIT_FAILURE
    else ret EXIT_FAILURE
  else ret EXIT_FAILURE.

(** The [for] loop of [clist_erase], [count] iterations from [node]. *)
Fixpoint erase_loop (count : nat) (list : ptr) (node : ptr) : M unit :=
  match count with
  | O => ret tt
  | S k =>
      n <- load_node node;
      let temp := next n in
      fl <- rd list flags;
      (if negb (Z.land fl CLIST_PAYLOAD_FREE =? 0)
       then free_payload (payload n) else ret tt);;
      top <- rd list pkb;
      upd_node node (with_next top);;
      wr list (with_pkb node);;
      zs <- rd list zskb;
      wr list (with_zskb (wrap (zs + 1)));;
      erase_loop k list temp
  end.

(** [clist_erase] *)
Definition clist_erase (list : ptr) (idx count : Z) : M unit :=
  if negb (list =? NULL) then
    sz <- rd list size;
    if (wrap (idx + count) <=? sz) && (0 <? count) then
      node <- clist_go list idx;
      n <- load_node node;
      let prev0 := prev n in
      last <- clist_go list (wrap (wrap (idx + count) - 1));
      ln <- load_node last;
      let next0 := next ln in
      erase_loop (Z.to_nat count) list node;;
      (if negb (prev0 =? NULL) then upd_node prev0 (with_next next0)
       else wr list (with_head next0));;
      (if negb (next0 =? NULL) then upd_node next0 (with_prev prev0)
       else wr list (with_tail prev0));;
      old <- rd list size;
      wr list (with_size (wrap (old - count)));;
      new <- rd list size;
      if (0 <? idx) && (1 <? wrap (new - idx)) then
        wr list (with_rul next0);;
        wr list (with_ruly idx);;
        fl <- rd list flags;
        wr list (with_flags (Z.lor fl 2))
      else
        c <- rd list ruly;
        if idx <=? c then
          fl <- rd list flags;
          wr list (with_flags (Z.land fl 1))
        else ret tt
    else ret tt
  else ret tt.

(** The growing loop of [clist_resize]:
    [for (i = 0U; (ok == EXIT_SUCCESS) && (i < remaining); i++)]. *)
Fixpoint resize_loop (remaining : nat) (list : ptr) (elem : option Z) (ok : Z)
  : M Z :=
  match remaining with
  | O => ret ok
  | S k =>
      if ok =? EXIT_SUCCESS then
        sz <- rd list size;
        ok' <- clist_insert list sz elem;
        resize_loop k list elem ok'
      else ret ok
  end.

(** [clist_resize] *)
Definition clist_resize (list : ptr) (new_size : Z) (elem : option Z) : M Z :=
  if negb (list =? NULL) then
    old_size <- rd list size;
    if negb (new_size =? old_size) then
      if new_size <? old_size then
        clist_erase list new_size (wrap (old_size - new_size));;
        c <- rd list ruly;
        (if new_size <=? c then
           fl <- rd list flags;
           wr list (with_flags (Z.land fl 1))
         else ret tt);;
        ret EXIT_SUCCESS
      else
        resize_loop (Z.to_nat (wrap (new_size - old_size))) list elem EXIT_SUCCESS
    else ret EXIT_SUCCESS
  else ret EXIT_FAILURE.

(** [clist_push_front] *)
Definition clist_push_front (list : ptr) (payload0 : option Z) : M Z :=
  clist_insert list 0 payload0.

(** [clist_push_back] *)
Definition clist_push_back (list : ptr) (payload0 : option Z) : M Z :=
  if negb (list =? NULL) then
    sz <- rd list size;
    clist_insert list sz payload0
  else ret EXIT_FAILURE.

(** [clist_pop_front] *)
Definition clist_pop_front (list : ptr) : M unit := clist_erase list 0 1.

(** [clist_pop_back] *)
Definition clist_pop_back (list : ptr) : M unit :=
  if negb (list =? NULL) then
    sz <- rd list size;
    clist_erase list (wrap (sz - 1)) 1
  else ret tt.

(** [clist_clear] *)
Definition clist_clear (list : ptr) : M unit :=
  if negb (list =? NULL) then
    sz <- rd list size;
    clist_erase list 0 sz
  else ret tt.

(** The loop of [clist_shrink_to_fit].  Every iteration frees a live
    block, so [fuel] = the number of live nodes is never exhausted before
    the walk ends or faults. *)
Fixpoint shrink_loop (fuel : nat) (node : ptr) : M unit :=
  if negb (node =? NULL) then
    match fuel with
    | O => fault
    | S k =>
        n <- load_node node;
        free_node node;;
        shrink_loop k (next n)
    end
  else ret tt.

(** [clist_shrink_to_fit] *)
Definition clist_shrink_to_fit (list : ptr) : M unit :=
  if negb (list =? NULL) then
    node <- rd list pkb;
    (fun m => shrink_loop (base.size (nodes m)) node m);;
    wr list (with_pkb NULL);;
    wr list (with_zskb 0)
  else ret tt.

(** [clist_destroy] *)
Definition clist_destroy (list : ptr) : M unit :=
  clist_clear list;;
  clist_shrink_to_fit list.

(** [clist_delete].  [pList] is [None] when the argument is NULL, else the
    handle stored in the caller's variable; the result is what the
    variable holds afterwards. *)
Definition clist_delete (pList : option ptr) : M (option ptr) :=
  match pList with
  | Some list =>
      if negb (list =? NULL) then
        clist_destroy list;;
        free_list list;;
        ret (Some NULL)
      else ret (Some list)
  | None => ret None
  end.

(** A [clist_foreach_cb_t] is given by what it leaves in the element it
    is called on, a [clist_filter_cb_t] by the [int] it returns for the
    element's contents. *)
Definition clist_foreach_cb_t := Z -> Z.
Definition clist_filter_cb_t := Z -> Z.

(** The loop of [clist_foreach]; it runs out of [fuel] only on a chain
    that does not end. *)
Fixpoint foreach_loop (fuel : nat) (f : clist_foreach_cb_t) (node : ptr)
  : M unit :=
  if negb (node =? NULL) then
    match fuel with
    | O => fun _ => Diverge
    | S k =>
        n <- load_node node;
        emit (EvCall (payload_ptr node));;
        upd_node node (with_payload (f (payload n)));;
        foreach_loop k f (next n)
    end
  else ret tt.

(** [clist_foreach]; a NULL callback is [None]. *)
Definition clist_foreach (list : ptr) (f : option clist_foreach_cb_t) : M unit :=
  match f with
  | Some cb =>
      if negb (list =? NULL) then
        node <- rd list head;
        fun m => foreach_loop (S (base.size (nodes m))) cb node m
      else ret tt
  | None => ret tt
  end.

(** The loop of [clist_filter]:
    [for (i = 0U, idx = len - 1U; i < len; i++, idx--)]; the result is
    [del_idx]. *)
Fixpoint filter_loop (n : nat) (list : ptr) (f : clist_filter_cb_t)
    (i idx del_idx : Z) : M Z :=
  match n with
  | O => ret del_idx
  | S k =>
      p <- clist_go list idx;
      nd <- load_node p;
      emit (EvCall (payload_ptr p));;
      if f (payload nd) =? 0 then
        clist_erase list idx 1;;
        filter_loop k list f (wrap (i + 1)) (wrap (idx - 1)) i
      else
        filter_loop k list f (wrap (i + 1)) (wrap (idx - 1)) del_idx
  end.

(** [clist_filter]; a NULL callback is [None]. *)
Definition clist_filter (list : ptr) (f : option clist_filter_cb_t) : M unit :=
  match f with
  | Some cb =>
      if negb (list =? NULL) then
        len <- rd list size;
        del_idx <- filter_loop (Z.to_nat len) list cb 0 (wrap (len - 1)) len;
        c <- rd list ruly;
        if del_idx <=? c then
          fl <- rd list flags;
          wr list (with_flags (Z.land fl 1))
        else ret tt
      else ret tt
  | None => ret tt
  end.

(** [clist_splice] *)
Definition clist_splice (source : ptr) (idx count : Z) (dest : ptr) (pos : Z)
  : M unit :=
  if negb (source =? NULL) && negb (dest =? NULL) && negb (source =? dest) then
    ssz <- rd source size;
    if wrap (idx + count) <=? ssz then
      dsz <- rd dest size;
      if pos <=? dsz then
        sts <- rd source type_size;
        dts <- rd dest type_size;
        if sts =? dts then
          sfl <- rd source flags;
          dfl <- rd dest flags;
          if (Z.land sfl 1 =? Z.land dfl 1) && (0 <? count) then
            first <- clist_go source idx;
            fn <- load_node first;
            let prev0 := prev fn in
            last <- clist_go source (wrap (wrap (idx + count) - 1));
            ln <- load_node last;
            let next0 := next ln in
            (if idx =? 0 then wr source (with_head next0)
             else upd_node prev0 (with_next next0));;
            (if next0 =? NULL then wr source (with_tail prev0)
             else upd_node next0 (with_prev prev0));;
            ssz' <- rd source size;
            wr source (with_size (wrap (ssz' - count)));;
            sc <- rd source ruly;
            (if idx <=? sc then
               fl <- rd source flags;
               wr source (with_flags (Z.land fl 1))
             else ret tt);;
            prev1 <- (if pos =? 0 then ret NULL
                      else clist_go dest (wrap (pos - 1)));
            dsz' <- rd dest size;
            next1 <- (if pos <? dsz' then clist_go dest pos else ret NULL);
            upd_node first (with_prev prev1);;
            upd_node last (with_next next1);;
            (if negb (prev1 =? NULL) then upd_node prev1 (with_next first)
             else wr dest (with_head first));;
            (if negb (next1 =? NULL) then upd_node next1 (with_prev last)
             else wr dest (with_tail last));;
            dsz'' <- rd dest size;
            wr dest (with_size (wrap (dsz'' + count)));;
            dc <- rd dest ruly;
            if pos <=? dc then
              fl <- rd dest flags;
              wr dest (with_flags (Z.land fl 1))
            else ret tt
          else ret tt
        else ret tt
      else ret tt
    else ret tt
  else ret tt.

(** ** Specification vocabulary *)

(** The value and the final memory of a run, when it has them. *)
Definition res_val {A} (r : result A) : option A :=
  match r with Ok a _ => Some a | _ => None end.
Definition res_mem {A} (r : result A) : option mem :=
  match r with Ok _ m => Some m | _ => None end.

(** *** Configurations *)

(** A configuration [clist_init] and [clist_new] must reject. *)
Definition malformed (type_size0 dynamic : Z) : Prop :=
  type_size0 = 0 \/
  (dynamic <> CLIST_PAYLOAD_IGNORE /\ dynamic <> CLIST_PAYLOAD_FREE) \/
  (dynamic = CLIST_PAYLOAD_FREE /\ type_size0 <> sizeof_ptr).

(** The list object [clist_init] leaves: empty chain, empty pool, cache
    invalid; the two cache fields keep what the block held. *)
Definition fresh_list (old : clist_t) (type_size0 dynamic : Z) : clist_t :=
  mk_list NULL NULL (rul old) NULL type_size0 0 (ruly old) 0 (Z.land dynamic 1).

(** *** The finger cache *)

Definition cache_valid (l : clist_t) : bool := negb (Z.land (flags l) 2 =? 0).

(** The list object after [clist_go] has cached [(node, idx)]. *)
Definition cache_to (node : ptr) (idx : Z) (l : clist_t) : clist_t :=
  with_flags (Z.lor (flags l) 2) (with_ruly idx (with_rul node l)).

(** The cache of the list at [lh] is valid and holds [(node, idx)]. *)
Definition cache_is (m : mem) (lh : ptr) (node : ptr) (idx : Z) : Prop :=
  exists l, lists m !! lh = Some l /\
            cache_valid l = true /\ rul l = node /\ ruly l = idx.

(** The indexes [clist_go] answers without a walk. *)
Definition shortcut (len idx : Z) : bool :=
  (idx =? 0) || (idx =? 1) || (idx =? len - 1) || (idx =? len - 2).

(** The logical index an anchor sits at, and the number of links between
    it and [idx]. *)
Definition anchor_index (l : clist_t) (a : anchor) : Z :=
  match a with
  | FromHead => 0
  | FromTail => size l - 1
  | FromCache => ruly l
  end.

Definition distance (l : clist_t) (a : anchor) (idx : Z) : Z :=
  Z.abs (idx - anchor_index l a).

(** An anchor is a candidate when it is the head, the tail, or the cache
    while the cache is valid. *)
Definition candidate (l : clist_t) (a : anchor) : Prop :=
  a = FromCache -> cache_valid l = true.

(** The plan walks the fewest links any candidate allows. *)
Definition plan_is_fewest (l : clist_t) (idx : Z) : Prop :=
  forall a', candidate l a' -> snd (fst (go_plan l idx)) <= distance l a' idx.

(** The plan does not start from the cache when the head or the tail is
    as near. *)
Definition plan_prefers_ends (l : clist_t) (idx : Z) : Prop :=
  forall a', a' <> FromCache ->
             distance l a' idx = distance l FromCache idx ->
             fst (fst (go_plan l idx)) <> FromCache.

(** *** Chains and pools in memory *)

(** [dlseg h pv ns nx]: the nodes [ns] are linked in this order in both
    directions; [pv] is the [prev] of the first and [nx] the [next] of
    the last. *)
Fixpoint dlseg (h : gmap Z clist_node_t) (pv : ptr) (ns : list ptr) (nx : ptr)
  : Prop :=
  match ns with
  | [] => True
  | p :: ns' =>
      (exists nd, h !! p = Some nd /\ next nd = hd nx ns' /\ prev nd = pv)
      /\ dlseg h p ns' nx
  end.

(** [slseg h ps]: the pooled nodes [ps] are linked by [next] only and the
    last one ends the pool. *)
Fixpoint slseg (h : gmap Z clist_node_t) (ps : list ptr) : Prop :=
  match ps with
  | [] => True
  | p :: ps' =>
      (exists nd, h !! p = Some nd /\ next nd = hd NULL ps') /\ slseg h ps'
  end.

(** [relink h h' ns pv' nx']: from [h] to [h'] the nodes [ns] keep their
    payload and their links, except that the first has [prev] = [x] when
    [pv' = Some x] and the last has [next] = [y] when [nx' = Some y]. *)
Definition relink (h h' : gmap Z clist_node_t) (ns : list ptr)
    (pv' nx' : option ptr) : Prop :=
  forall p, p ∈ ns -> exists nd nd',
    h !! p = Some nd /\ h' !! p = Some nd' /\ payload nd' = payload nd /\
    next nd' = (if decide (p = List.last ns NULL)
                then default (next nd) nx' else next nd) /\
    prev nd' = (if decide (p = hd NULL ns)
                then default (prev nd) pv' else prev nd).

(** The contents of the payload region of a node, and of a run of nodes. *)
Definition pay (h : gmap Z clist_node_t) (p : ptr) : Z :=
  match h !! p with Some nd => payload nd | None => 0 end.

Definition vals (h : gmap Z clist_node_t) (ns : list ptr) : list Z :=
  map (pay h) ns.

(** [rep h l ns ps]: in node store [h] the list object [l] represents the
    chain of nodes [ns] (in logical order) and the pool [ps] (top first). *)
Record rep (h : gmap Z clist_node_t) (l : clist_t) (ns ps : list ptr)
  : Prop := mk_rep {
  rep_head : head l = hd NULL ns;
  rep_tail : tail l = List.last ns NULL;
  rep_size : size l = Z.of_nat (length ns);
  rep_pkb : pkb l = hd NULL ps;
  rep_zskb : zskb l = Z.of_nat (length ps);
  rep_chain : dlseg h NULL ns NULL;
  rep_pool : slseg h ps;
  rep_nodup : NoDup (ns ++ ps);
  rep_range : Forall (fun p => 0 < p < SIZE_MOD) (ns ++ ps);
  rep_cache : cache_valid l = true ->
              1 <= ruly l /\ ns !! Z.to_nat (ruly l) = Some (rul l)
}.

(** The list object [clist_go] leaves. *)
Definition go_list (l : clist_t) (ns : list ptr) (idx : Z) : clist_t :=
  if shortcut (size l) idx then l
  else cache_to (nth (Z.to_nat idx) ns NULL) idx l.

(** The node store after [vnut_cl_insert_node] has linked [n] in between
    [pv] and [nx] (either may be NULL, which designates no node). *)
Definition link_node (n pv nx : ptr) (h : gmap Z clist_node_t)
  : gmap Z clist_node_t :=
  alter (with_prev pv) n
    (alter (with_next nx) n
       (alter (with_prev n) nx (alter (with_next n) pv h))).

(** The list object after [vnut_cl_insert_node] has put [n] at [idx] in
    the chain [ns]. *)
Definition insert_list (l : clist_t) (ns : list ptr) (idx : Z) (n : ptr)
  : clist_t :=
  let len := Z.of_nat (length ns) in
  let l1 := if idx <? len then go_list l ns idx else l in
  let l2 := if idx =? 0 then with_head n l1 else go_list l1 ns (idx - 1) in
  let l3 := if idx <? len then l2 else with_tail n l2 in
  let l4 := with_size (len + 1) l3 in
  if (idx <? len) && (0 <? idx) then cache_to n idx l4
  else if idx =? 0 then with_ruly (wrap (ruly l4 + 1)) l4
  else l4.

(** The node store after the loop of [clist_erase] has pushed the nodes
    [r], in this order, onto the pool whose top was [top]. *)
Fixpoint pool_push (r : list ptr) (top : ptr) (h : gmap Z clist_node_t)
  : gmap Z clist_node_t :=
  match r with
  | [] => h
  | p :: r' => pool_push r' p (alter (with_next top) p h)
  end.

(** The list object after that loop. *)
Fixpoint pool_list (r : list ptr) (l : clist_t) : clist_t :=
  match r with
  | [] => l
  | p :: r' => pool_list r' (with_zskb (wrap (zskb l + 1)) (with_pkb p l))
  end.

(** The calls of [free] that loop makes: one per node, on the element it
    holds, when the list frees its elements. *)
Definition frees (h : gmap Z clist_node_t) (fl : Z) (r : list ptr)
  : list event :=
  if negb (Z.land fl CLIST_PAYLOAD_FREE =? 0)
  then map (fun p => EvFree (pay h p)) r
  else [].

(** The node store once the neighbours [pv] and [nx] of a run have been
    linked to each other (either may be NULL). *)
Definition unlink_run (pv nx : ptr) (h : gmap Z clist_node_t)
  : gmap Z clist_node_t :=
  alter (with_prev pv) nx (alter (with_next nx) pv h).

(** The list object after [clist_erase] has removed [count] nodes from
    [idx] in the chain [ns]. *)
Definition erase_list (l : clist_t) (ns : list ptr) (idx count : Z)
  : clist_t :=
  let len := Z.of_nat (length ns) in
  let r := take (Z.to_nat count) (drop (Z.to_nat idx) ns) in
  let pv := List.last (take (Z.to_nat idx) ns) NULL in
  let nx := hd NULL (drop (Z.to_nat (idx + count)) ns) in
  let l1 := go_list l ns idx in
  let l2 := go_list l1 ns (idx + count - 1) in
  let l3 := pool_list r l2 in
  let l4 := if idx =? 0 then with_head nx l3 else l3 in
  let l5 := if idx + count =? len then with_tail pv l4 else l4 in
  let l6 := with_size (len - count) l5 in
  if (0 <? idx) && (1 <? len - count - idx) then cache_to nx idx l6
  else if idx <=? ruly l6 then with_flags (Z.land (flags l6) 1) l6
  else l6.

(** The node store after [clist_splice] has linked the run from [first]
    to [last] in between [pv] and [nx] (either may be NULL). *)
Definition link_run (first last pv nx : ptr) (h : gmap Z clist_node_t)
  : gmap Z clist_node_t :=
  alter (with_prev last) nx
    (alter (with_next first) pv
       (alter (with_next nx) last (alter (with_prev pv) first h))).

(** The source list object after [clist_splice] has taken [count] nodes
    from [idx] out of the chain [ns]. *)
Definition splice_src_list (l : clist_t) (ns : list ptr) (idx count : Z)
  : clist_t :=
  let len := Z.of_nat (length ns) in
  let pv := List.last (take (Z.to_nat idx) ns) NULL in
  let nx := hd NULL (drop (Z.to_nat (idx + count)) ns) in
  let l1 := go_list l ns idx in
  let l2 := go_list l1 ns (idx + count - 1) in
  let l3 := if idx =? 0 then with_head nx l2 else l2 in
  let l4 := if nx =? NULL then with_tail pv l3 else l3 in
  let l5 := with_size (len - count) l4 in
  if idx <=? ruly l5 then with_flags (Z.land (flags l5) 1) l5 else l5.

(** The destination list object after [clist_splice] has put the run
    from [first] to [last], [count] nodes, at [pos] in the chain [ns]. *)
Definition splice_dst_list (l : clist_t) (ns : list ptr) (pos count : Z)
    (first last : ptr) : clist_t :=
  let len := Z.of_nat (length ns) in
  let pv := List.last (take (Z.to_nat pos) ns) NULL in
  let nx := hd NULL (drop (Z.to_nat pos) ns) in
  let l1 := if pos =? 0 then l else go_list l ns (pos - 1) in
  let l2 := if pos <? len then go_list l1 ns pos else l1 in
  let l3 := if pv =? NULL then with_head first l2 else l2 in
  let l4 := if nx =? NULL then with_tail last l3 else l3 in
  let l5 := with_size (len + count) l4 in
  if pos <=? ruly l5 then with_flags (Z.land (flags l5) 1) l5 else l5.

(** The node store after [memcpy] has written [v] into the payload
    region of node [p]. *)
Definition set_payload (v : Z) (p : ptr) (h : gmap Z clist_node_t)
  : gmap Z clist_node_t := alter (with_payload v) p h.

(** The node store after the loop of [clist_foreach] has called [f] on
    the elements of the nodes [ns], in this order. *)
Fixpoint foreach_nodes (f : Z -> Z) (ns : list ptr) (h : gmap Z clist_node_t)
  : gmap Z clist_node_t :=
  match ns with
  | [] => h
  | p :: r => foreach_nodes f r (set_payload (f (pay h p)) p h)
  end.

(** The node store after the loop of [clist_shrink_to_fit] has released
    the nodes [ps]. *)
Fixpoint release (ps : list ptr) (h : gmap Z clist_node_t)
  : gmap Z clist_node_t :=
  match ps with
  | [] => h
  | p :: r => release r (delete p h)
  end.

(** The block [malloc] hands out for a node of the list object [l], and
    the allocations of [k] such blocks in a row from address [b] on. *)
Definition node_bytes (l : clist_t) : Z := wrap (sizeof_node + type_size l).
Definition node_block (l : clist_t) : Z := Z.max 1 (node_bytes l).
Definition mallocs (l : clist_t) (b : Z) (k : nat) : list event :=
  map (fun j => EvMalloc (node_bytes l) (b + Z.of_nat j * node_block l))
      (seq 0 k).

(** [clist_filter] keeps the node [p] when the callback answers non-zero
    for its element. *)
Definition keeps (f : Z -> Z) (h : gmap Z clist_node_t) (p : ptr) : bool :=
  negb (f (pay h p) =? 0).

(** What one iteration of the loop of [clist_filter] on node [p] shows:
    the call of the callback and, for a node that goes, what its erasure
    frees. *)
Definition filter_events (f : Z -> Z) (h : gmap Z clist_node_t) (fl : Z)
    (p : ptr) : list event :=
  EvCall (payload_ptr p) :: (if keeps f h p then [] else frees h fl [p]).

(** The allocator is sound: live nodes lie below [brk], inside a heap
    that addresses can reach. *)
Record mem_wf (m : mem) : Prop := mk_mem_wf {
  wf_brk : 0 < brk m;
  wf_lim : lim m <= SIZE_MOD;
  wf_nodes : forall p nd, nodes m !! p = Some nd -> 0 < p < brk m
}.

(** The list at handle [lh] is well formed, with chain [ns] and pool
    [ps]. *)
Definition list_inv (m : mem) (lh : ptr) (ns ps : list ptr) : Prop :=
  lh <> NULL /\ exists l, lists m !! lh = Some l /\ rep (nodes m) l ns ps.

(** The ownership mode and element size of a list object. *)
Definition config (l : clist_t) : Z * Z := (type_size l, Z.land (flags l) 1).

(** [lstep lh m ns ps m' ns' ps']: an operation on the list at [lh] took
    memory [m], where the list had chain [ns] and pool [ps], to [m'],
    where it has chain [ns'] and pool [ps'].  Only this list object and
    its own nodes were written, and the only nodes it gained were
    allocated meanwhile. *)
Record lstep (lh : ptr) (m : mem) (ns ps : list ptr)
    (m' : mem) (ns' ps' : list ptr) : Prop := mk_lstep {
  ls_wf : mem_wf m';
  ls_brk : brk m <= brk m';
  ls_lim : lim m' = lim m;
  ls_list : exists l l', lists m !! lh = Some l /\
                         lists m' = <[lh := l']> (lists m) /\
                         rep (nodes m') l' ns' ps' /\ config l' = config l;
  ls_frame : forall q, q ∉ ns ++ ps -> q < brk m ->
                       nodes m' !! q = nodes m !! q;
  ls_fresh : forall q, q ∈ ns' ++ ps' -> q ∈ ns ++ ps \/ brk m <= q
}.

(** The logical contents of the list at handle [lh]. *)
Definition contents (m : mem) (lh : ptr) (vs : list Z) : Prop :=
  exists ns ps, list_inv m lh ns ps /\ vals (nodes m) ns = vs.

(** *** Logical operations on sequences *)

Definition insert_at {A} (i : nat) (x : A) (l : list A) : list A :=
  take i l ++ x :: drop i l.

Definition erase_at {A} (i n : nat) (l : list A) : list A :=
  take i l ++ drop (i + n) l.

Definition run_at {A} (i n : nat) (l : list A) : list A :=
  take n (drop i l).

(** *** Example memories *)

Definition junk_list : clist_t := mk_list 7 7 7 7 7 7 7 7 7.

(** Two list objects (at 100 and 200) with indeterminate contents, no
    node, and a heap from 1000 to 100000. *)
Definition mem0 : mem :=
  mk_mem ∅ {[ 100 := junk_list; 200 := junk_list ]} 1000 100000 []
         (fun _ => mk_node 9 9 9) (fun _ => junk_list).

(** The memory a run ends in ([m] itself if the run has no end). *)
Definition after {A} (c : M A) (m : mem) : mem :=
  match c m with Ok _ m' => m' | _ => m end.

(** [clist_push_back] of each value in turn. *)
Fixpoint push_all (lh : ptr) (vs : list Z) : M unit :=
  match vs with
  | [] => ret tt
  | v :: r => clist_push_back lh (Some v);; push_all lh r
  end.

(** The list at 100 initialised for [int] elements and empty. *)
Definition mem_empty : mem := after (clist_init 100 4 CLIST_PAYLOAD_IGNORE) mem0.

(** The list at 100 holding 0, 1, 2. *)
Definition mem_three : mem := after (push_all 100 [0; 1; 2]) mem_empty.

(** The list at 100 holding 0..9 and an empty list at 200. *)
Definition mem_ten : mem :=
  after (clist_init 200 4 CLIST_PAYLOAD_IGNORE;;
         push_all 100 [0; 1; 2; 3; 4; 5; 6; 7; 8; 9]) mem_empty.

(** [mem_ten] after the elements 2, 3, 4 have been erased: the list at
    100 holds 0, 1, 5, 6, 7, 8, 9 and its pool the three nodes. *)
Definition mem_pool : mem := after (clist_erase 100 2 3) mem_ten.

(** [mem_three] with the heap exhausted. *)
Definition mem_full : mem :=
  mk_mem (nodes mem_three) (lists mem_three) (brk mem_three) (brk mem_three)
         (trace mem_three) (raw_node mem_three) (raw_list mem_three).

(** *** Sequences of insertions *)

(** The calls [clist_insert(list, i, &v)] for the pairs [(i, v)] of
    [ops], in turn, up to the first that fails. *)
Fixpoint insert_all (lh : ptr) (ops : list (Z * Z)) : M Z :=
  match ops with
  | [] => ret EXIT_SUCCESS
  | (i, v) :: r =>
      ok <- clist_insert lh i (Some v);
      if ok =? EXIT_SUCCESS then insert_all lh r else ret ok
  end.

(** What those insertions make of the sequence [vs]. *)
Fixpoint inserted (ops : list (Z * Z)) (vs : list Z) : list Z :=
  match ops with
  | [] => vs
  | (i, v) :: r => inserted r (insert_at (Z.to_nat i) v vs)
  end.

(** Every index is within the sequence at its turn, for a sequence of
    [n] values at the start. *)
Fixpoint in_bounds (ops : list (Z * Z)) (n : Z) : Prop :=
  match ops with
  | [] => True
  | (i, _) :: r => 0 <= i <= n /\ in_bounds r (n + 1)
  end.

(** [mem_ten] after its elements 2, 3, 4 have been moved to the list at
    200: the list at 100 holds 0, 1, 5, 6, 7, 8, 9. *)
Definition mem_moved : mem := after (clist_splice 100 2 3 200 0) mem_ten.

(** * Running the monad *)

Arguments wrap : simpl never.
Arguments SIZE_MOD : simpl never.

Lemma SIZE_MOD_val : SIZE_MOD = 18446744073709551616.
Proof. reflexivity. Qed.

Lemma wrap_small z : 0 <= z < SIZE_MOD -> wrap z = z.
Proof. intros H. unfold wrap. apply Z.mod_small. exact H. Qed.

Lemma wrap_range z : 0 <= wrap z < SIZE_MOD.
Proof. unfold wrap. apply Z.mod_pos_bound. rewrite SIZE_MOD_val. lia. Qed.

Lemma bind_ok {A B} (c : M A) (k : A -> M B) m a m' :
  c m = Ok a m' -> bind c k m = k a m'.
Proof. intros H. unfold bind. rewrite H. reflexivity. Qed.

Lemma bind_ret {A B} (a : A) (k : A -> M B) m : bind (ret a) k m = k a m.
Proof. reflexivity. Qed.

Lemma rd_ok {A} lh (f : clist_t -> A) m l :
  lists m !! lh = Some l -> rd lh f m = Ok (f l) m.
Proof. intros H. unfold rd. rewrite H. reflexivity. Qed.

Lemma wr_ok lh f m l :
  lists m !! lh = Some l ->
  wr lh f m = Ok tt (set_lists (<[lh := f l]> (lists m)) m).
Proof. intros H. unfold wr. rewrite H. reflexivity. Qed.

Lemma load_ok p m nd : nodes m !! p = Some nd -> load_node p m = Ok nd m.
Proof. intros H. unfold load_node. rewrite H. reflexivity. Qed.

Lemma upd_ok p f m nd :
  nodes m !! p = Some nd ->
  upd_node p f m = Ok tt (set_nodes (<[p := f nd]> (nodes m)) m).
Proof. intros H. unfold upd_node. rewrite H. reflexivity. Qed.

Lemma bind_rd {A B} lh (f : clist_t -> A) (k : A -> M B) m l :
  lists m !! lh = Some l -> bind (rd lh f) k m = k (f l) m.
Proof. intros H. apply bind_ok, rd_ok, H. Qed.

Lemma bind_wr {B} lh f (k : unit -> M B) m l :
  lists m !! lh = Some l ->
  bind (wr lh f) k m = k tt (set_lists (<[lh := f l]> (lists m)) m).
Proof. intros H. apply bind_ok, wr_ok, H. Qed.

Lemma bind_load {B} p (k : clist_node_t -> M B) m nd :
  nodes m !! p = Some nd -> bind (load_node p) k m = k nd m.
Proof. intros H. apply bind_ok, load_ok, H. Qed.

Lemma bind_upd {B} p f (k : unit -> M B) m nd :
  nodes m !! p = Some nd ->
  bind (upd_node p f) k m = k tt (set_nodes (<[p := f nd]> (nodes m)) m).
Proof. intros H. apply bind_ok, upd_ok, H. Qed.

Lemma bind_assoc {A B C} (c : M A) (k : A -> M B) (k' : B -> M C) m :
  bind (bind c k) k' m = bind c (fun a => bind (k a) k') m.
Proof. unfold bind. destruct (c m); reflexivity. Qed.

Lemma bind_if {A B} (b : bool) (c1 c2 : M A) (k : A -> M B) m :
  bind (if b then c1 else c2) k m = if b then bind c1 k m else bind c2 k m.
Proof. destruct b; reflexivity. Qed.

(** Lookups in the memory an execution has reached so far. *)
Ltac mem_lookup :=
  simpl;
  first [ eassumption
        | apply lookup_insert_eq
        | rewrite lookup_insert_ne by (first [assumption | congruence | lia]);
          mem_lookup ].

(** One step of an execution. *)
Ltac step :=
  first
    [ rewrite bind_ret
    | erewrite bind_rd by mem_lookup
    | erewrite bind_wr by mem_lookup
    | erewrite bind_load by mem_lookup
    | erewrite bind_upd by mem_lookup
    | erewrite rd_ok by mem_lookup
    | erewrite wr_ok by mem_lookup
    | erewrite load_ok by mem_lookup
    | erewrite upd_ok by mem_lookup ];
  simpl.

Ltac steps := repeat step.

(** * Construction *)

Lemma init_guard lh ts dyn :
  lh <> NULL -> 0 <= ts ->
  (negb (lh =? NULL) && (0 <? ts)
   && ((dyn =? CLIST_PAYLOAD_IGNORE) || (dyn =? CLIST_PAYLOAD_FREE))
   && ((dyn =? CLIST_PAYLOAD_IGNORE) || (ts =? sizeof_ptr)) = false)
  <-> malformed ts dyn.
Proof.
  intros Hl Hts. unfold malformed, CLIST_PAYLOAD_IGNORE, CLIST_PAYLOAD_FREE,
    sizeof_ptr, NULL in *.
  destruct (Z.eqb_spec lh 0); [contradiction|].
  destruct (Z.ltb_spec 0 ts), (Z.eqb_spec dyn 0), (Z.eqb_spec dyn 1),
    (Z.eqb_spec ts 8); simpl; split; intros; try discriminate; try lia.
Qed.

Lemma clist_init_ok lh ts dyn m l :
  lh <> NULL -> 0 <= ts -> lists m !! lh = Some l -> ~ malformed ts dyn ->
  clist_init lh ts dyn m
  = Ok EXIT_SUCCESS (set_lists (<[lh := fresh_list l ts dyn]> (lists m)) m).
Proof.
  intros Hl Hts Hm Hc. unfold clist_init.
  destruct (negb (lh =? NULL) && (0 <? ts)
   && ((dyn =? CLIST_PAYLOAD_IGNORE) || (dyn =? CLIST_PAYLOAD_FREE))
   && ((dyn =? CLIST_PAYLOAD_IGNORE) || (ts =? sizeof_ptr))) eqn:G.
  - destruct m as [h s b lm tr rn rl]. simpl in *.
    steps. rewrite !insert_insert_eq. reflexivity.
  - apply (proj1 (init_guard lh ts dyn Hl Hts)) in G. contradiction.
Qed.

Lemma clist_init_malformed lh ts dyn m :
  lh <> NULL -> 0 <= ts -> malformed ts dyn ->
  clist_init lh ts dyn m = Ok EXIT_FAILURE m.
Proof.
  intros Hl Hts Hc. unfold clist_init.
  apply (proj2 (init_guard lh ts dyn Hl Hts)) in Hc.
  rewrite Hc. reflexivity.
Qed.

Lemma malformed_dec ts dyn : malformed ts dyn \/ ~ malformed ts dyn.
Proof.
  unfold malformed, CLIST_PAYLOAD_IGNORE, CLIST_PAYLOAD_FREE, sizeof_ptr. lia.
Qed.

Lemma malloc_list_ok m :
  0 < brk m -> brk m + sizeof_clist <= lim m ->
  malloc_list m
  = Ok (brk m)
       (set_lists (<[brk m := raw_list m (brk m)]> (lists m))
          (log (EvMalloc sizeof_clist (brk m))
             (set_brk (brk m + sizeof_clist) m))).
Proof.
  intros Hb Hl. unfold malloc_list, malloc, bind.
  change (Z.max 1 sizeof_clist) with sizeof_clist.
  destruct (Z.leb_spec (brk m + sizeof_clist) (lim m)); [| lia].
  destruct (Z.eqb_spec (brk m) NULL) as [E|E]; [unfold NULL in E; lia|].
  reflexivity.
Qed.

Lemma clist_new_ok m ts dyn :
  0 <= ts -> 0 < brk m -> brk m + sizeof_clist <= lim m ->
  ~ malformed ts dyn ->
  exists m', clist_new ts dyn m = Ok (brk m) m' /\
             lists m' !! brk m = Some (fresh_list (raw_list m (brk m)) ts dyn).
Proof.
  intros Hts Hb Hl Hc. unfold clist_new.
  erewrite bind_ok by (apply malloc_list_ok; assumption).
  cbv beta.
  destruct (Z.eqb_spec (brk m) NULL) as [E|E]; [unfold NULL in E; lia|].
  cbn [negb].
  erewrite bind_ok.
  2:{ apply clist_init_ok; [exact E | exact Hts | | exact Hc].
      simpl. apply lookup_insert_eq. }
  simpl. eexists. split; [reflexivity|]. simpl. apply lookup_insert_eq.
Qed.

Lemma clist_new_malformed m ts dyn :
  0 <= ts -> 0 < brk m -> brk m + sizeof_clist <= lim m ->
  malformed ts dyn ->
  exists m', clist_new ts dyn m = Ok NULL m' /\
             lists m' = delete (brk m) (lists m) /\ nodes m' = nodes m.
Proof.
  intros Hts Hb Hl Hc. unfold clist_new.
  erewrite bind_ok by (apply malloc_list_ok; assumption).
  cbv beta.
  destruct (Z.eqb_spec (brk m) NULL) as [E|E]; [unfold NULL in E; lia|].
  cbn [negb].
  erewrite bind_ok by (apply clist_init_malformed; assumption).
  simpl. unfold bind, free_list. simpl. rewrite lookup_insert_eq.
  eexists. split; [reflexivity|]. simpl. split; [|reflexivity].
  apply delete_insert_eq.
Qed.

(** * Chains *)

Section Chains.
Implicit Types (h : gmap Z clist_node_t) (ns ps : list ptr) (p pv nx : ptr).

Lemma last_cons {A} (x : A) (l : list A) (d : A) :
  List.last (x :: l) d = List.last l x.
Proof.
  revert x d. induction l as [|y l IH]; intros x d; [reflexivity|].
  change (List.last (x :: y :: l) d) with (List.last (y :: l) d).
  rewrite (IH y d), (IH y x). reflexivity.
Qed.

Lemma last_nth {A} (l : list A) (d : A) :
  List.last l d = nth (length l - 1) l d.
Proof.
  induction l as [|x l IH]; [reflexivity|].
  destruct l as [|y l]; [reflexivity|].
  change (List.last (x :: y :: l) d) with (List.last (y :: l) d).
  rewrite IH. simpl. rewrite Nat.sub_0_r. reflexivity.
Qed.

Lemma hd_nth {A} (l : list A) (d : A) : hd d l = nth 0 l d.
Proof. destruct l; reflexivity. Qed.

Lemma hd_app {A} (a b : list A) (d : A) : hd d (a ++ b) = hd (hd d b) a.
Proof. destruct a; reflexivity. Qed.

Lemma last_app {A} (a b : list A) (d : A) :
  List.last (a ++ b) d = List.last b (List.last a d).
Proof.
  revert d. induction a as [|x a IH]; intros d; [reflexivity|].
  rewrite <- app_comm_cons, !last_cons. apply IH.
Qed.

Lemma nth_lookup_Some {A} (l : list A) (i : nat) (d : A) :
  (i < length l)%nat -> l !! i = Some (nth i l d).
Proof.
  revert i. induction l as [|x l IH]; intros [|i] H; simpl in *;
    try lia; [reflexivity|]. apply IH. lia.
Qed.

Lemma lookup_nth {A} (l : list A) (i : nat) (x d : A) :
  l !! i = Some x -> nth i l d = x.
Proof.
  revert i. induction l as [|y l IH]; intros [|i] H; simpl in *;
    try discriminate; [congruence|]. apply IH, H.
Qed.

Lemma last_elem {A} (x : A) (l : list A) (d : A) :
  List.last (x :: l) d ∈ x :: l.
Proof.
  rewrite last_nth. apply list_elem_of_In, nth_In. simpl. lia.
Qed.

Lemma dlseg_app h pv a b nx :
  dlseg h pv (a ++ b) nx
  <-> dlseg h pv a (hd nx b) /\ dlseg h (List.last a pv) b nx.
Proof.
  revert pv. induction a as [|p a IH]; intros pv.
  - simpl. tauto.
  - rewrite <- app_comm_cons, last_cons. cbn [dlseg].
    rewrite IH, hd_app. tauto.
Qed.

Lemma dlseg_lookup h pv ns nx (i : nat) p :
  dlseg h pv ns nx -> ns !! i = Some p ->
  exists nd, h !! p = Some nd /\ next nd = nth (S i) ns nx /\
             prev nd = match i with O => pv | S j => nth j ns NULL end.
Proof.
  revert pv i. induction ns as [|q ns IH]; intros pv i H Hi.
  - discriminate.
  - destruct H as [(nd & Hq & Hn & Hp) H]. destruct i as [|i].
    + injection Hi as <-. exists nd. rewrite Hn, hd_nth. auto.
    + destruct (IH q i H Hi) as (nd' & Hq' & Hn' & Hp').
      exists nd'. split; [exact Hq'|]. split; [exact Hn'|].
      rewrite Hp'. destruct i; reflexivity.
Qed.

Lemma dlseg_ext h h' pv ns nx :
  (forall p, p ∈ ns -> h' !! p = h !! p) ->
  dlseg h pv ns nx -> dlseg h' pv ns nx.
Proof.
  revert pv. induction ns as [|q ns IH]; intros pv E H; [exact I|].
  destruct H as [(nd & Hq & Hn & Hp) H]. split.
  - exists nd. rewrite E by (left). auto.
  - apply IH; [|exact H]. intros p Hin. apply E. right. exact Hin.
Qed.

(** The links of a segment after its nodes have been rewritten: the
    first may have a new [prev], the last a new [next], nothing else. *)
Lemma dlseg_relink h h' pv pv' ns nx nx' :
  NoDup ns -> dlseg h pv ns nx ->
  (forall p, p ∈ ns -> exists nd nd',
      h !! p = Some nd /\ h' !! p = Some nd' /\
      next nd' = (if decide (p = List.last ns NULL) then nx' else next nd) /\
      prev nd' = (if decide (p = hd NULL ns) then pv' else prev nd)) ->
  dlseg h' pv' ns nx'.
Proof.
  revert pv pv'. induction ns as [|q ns IH]; intros pv pv' ND H E; [exact I|].
  destruct H as [(nd & Hq & Hn & Hp) H].
  apply NoDup_cons in ND as [Hq' ND]. split.
  - destruct (E q) as (nd1 & nd' & H1 & H2 & H3 & H4); [left|].
    rewrite Hq in H1. injection H1 as <-. exists nd'.
    split; [exact H2|]. simpl in H4. rewrite decide_True in H4 by reflexivity.
    split; [|exact H4]. rewrite H3, last_cons.
    destruct ns as [|r ns].
    + simpl. rewrite decide_True by reflexivity. reflexivity.
    + rewrite decide_False; [exact Hn|]. intros Heq. apply Hq'.
      pose proof (last_elem r ns q) as Hl. rewrite <- Heq in Hl. exact Hl.
  - apply (IH q q ND H). intros p Hin.
    destruct (E p) as (nd1 & nd' & H1 & H2 & H3 & H4); [right; exact Hin|].
    exists nd1, nd'. split; [exact H1|]. split; [exact H2|].
    rewrite last_cons in H3. split.
    + rewrite H3. destruct ns as [|r ns]; [inversion Hin|].
      rewrite !last_cons. reflexivity.
    + rewrite H4. simpl. rewrite decide_False by (intros ->; contradiction).
      destruct (decide (p = hd NULL ns)) as [->|]; [|reflexivity].
      destruct ns as [|r ns]; [inversion Hin|]. simpl in *.
      destruct H as [(nd2 & G1 & G2 & G3) _]. congruence.
Qed.

Lemma slseg_ext h h' ps :
  (forall p, p ∈ ps -> h' !! p = h !! p) -> slseg h ps -> slseg h' ps.
Proof.
  induction ps as [|q ps IH]; intros E H; [exact I|].
  destruct H as [(nd & Hq & Hn) H]. split.
  - exists nd. rewrite E by (left). auto.
  - apply IH; [|exact H]. intros p Hin. apply E. right. exact Hin.
Qed.

Lemma dlseg_dom h pv ns nx p :
  dlseg h pv ns nx -> p ∈ ns -> exists nd, h !! p = Some nd.
Proof.
  intros H Hin. apply list_elem_of_lookup in Hin as [i Hi].
  destruct (dlseg_lookup _ _ _ _ _ _ H Hi) as (nd & Hnd & _). eauto.
Qed.

Lemma slseg_dom h ps p : slseg h ps -> p ∈ ps -> exists nd, h !! p = Some nd.
Proof.
  induction ps as [|q ps IH]; intros H Hin; [inversion Hin|].
  destruct H as [(nd & Hq & _) H].
  apply elem_of_cons in Hin as [->|Hin]; eauto.
Qed.

Lemma vals_ext h h' ns :
  (forall p, p ∈ ns -> pay h' p = pay h p) -> vals h' ns = vals h ns.
Proof.
  intros E. unfold vals. apply map_ext_in. intros p Hin.
  apply E, list_elem_of_In, Hin.
Qed.
End Chains.

(** * Walks *)

Lemma walk_next_spec m pv ns nx (k i : nat) :
  dlseg (nodes m) pv ns nx -> (i + k < length ns)%nat ->
  walk_next k (nth i ns NULL) m = Ok (nth (i + k) ns NULL) m.
Proof.
  intros H. revert i. induction k as [|k IH]; intros i Hlen; simpl.
  - rewrite Nat.add_0_r. reflexivity.
  - destruct (dlseg_lookup _ _ _ _ i (nth i ns NULL) H) as (nd & Hnd & Hn & _).
    { apply nth_lookup_Some. lia. }
    erewrite bind_load by exact Hnd.
    rewrite Hn, (nth_indep ns nx NULL) by lia.
    rewrite IH by lia. f_equal. f_equal. lia.
Qed.

Lemma walk_prev_spec m pv ns nx (k i : nat) :
  dlseg (nodes m) pv ns nx -> (k <= i < length ns)%nat ->
  walk_prev k (nth i ns NULL) m = Ok (nth (i - k) ns NULL) m.
Proof.
  intros H. revert i. induction k as [|k IH]; intros i Hlen; simpl.
  - rewrite Nat.sub_0_r. reflexivity.
  - destruct (dlseg_lookup _ _ _ _ i (nth i ns NULL) H) as (nd & Hnd & _ & Hp).
    { apply nth_lookup_Some. lia. }
    erewrite bind_load by exact Hnd.
    destruct i as [|i]; [lia|]. rewrite Hp.
    rewrite IH by lia. f_equal.
Qed.

(** * The resolver *)

Lemma go_plan_props (l : clist_t) (idx : Z) :
  size l < SIZE_MOD -> 2 <= idx < size l - 2 ->
  (cache_valid l = true -> 1 <= ruly l < size l) ->
  let a := fst (fst (go_plan l idx)) in
  let steps := snd (fst (go_plan l idx)) in
  let direction := snd (go_plan l idx) in
  candidate l a /\
  steps = distance l a idx /\
  (direction = 0 \/ direction = -1) /\
  idx = anchor_index l a + (if direction =? 0 then steps else - steps) /\
  (cache_valid l = true ->
   plan_is_fewest l idx /\
   (a = FromCache -> distance l FromCache idx < distance l FromHead idx) /\
   (a = FromTail -> distance l FromTail idx < distance l FromCache idx)) /\
  (cache_valid l = false ->
   (a = FromHead <-> idx <= size l / 2) /\
   (a = FromTail <-> size l / 2 < idx) /\
   (2 * idx <> size l -> plan_is_fewest l idx)).
Proof.
  intros Hsz Hidx Hc. cbv zeta.
  unfold plan_is_fewest, candidate, go_plan. fold (cache_valid l).
  rewrite SIZE_MOD_val in Hsz.
  destruct (cache_valid l) eqn:V.
  - specialize (Hc eq_refl).
    destruct (Z.leb_spec (ruly l) idx).
    + rewrite !(wrap_small (idx - ruly l)) by (rewrite SIZE_MOD_val; lia).
      rewrite !(wrap_small (size l - idx)) by (rewrite SIZE_MOD_val; lia).
      rewrite !(wrap_small (size l - idx - 1)) by (rewrite SIZE_MOD_val; lia).
      destruct (Z.leb_spec (idx - ruly l) (size l - idx - 1)); simpl;
        unfold distance; simpl;
        (repeat split; try discriminate; try congruence; try lia;
         try (intros [| |] _; simpl; lia)).
    + rewrite !(wrap_small (ruly l - idx)) by (rewrite SIZE_MOD_val; lia).
      destruct (Z.leb_spec idx (ruly l - idx)); simpl;
        unfold distance; simpl;
        (repeat split; try discriminate; try congruence; try lia;
         try (intros [| |] _; simpl; lia)).
  - clear Hc.
    rewrite !(wrap_small (size l - idx)) by (rewrite SIZE_MOD_val; lia).
    rewrite !(wrap_small (size l - idx - 1)) by (rewrite SIZE_MOD_val; lia).
    destruct (Z.ltb_spec (size l / 2) idx); simpl;
      unfold distance; simpl;
      (repeat split; try discriminate; try congruence; try lia;
       try (intros ? [| |] ?; simpl; try discriminate;
            Z.div_mod_to_equations; lia)).
Qed.


Lemma nodup_bounded_length (l : list Z) (b : Z) :
  0 < b -> NoDup l -> Forall (fun p => 0 < p < b) l ->
  Z.of_nat (length l) < b.
Proof.
  intros Hb ND Hr.
  assert (Hs : l ⊆+ seqZ 1 (b - 1)).
  { apply NoDup_submseteq; [exact ND|]. intros x Hx.
    rewrite Forall_forall in Hr. apply Hr in Hx.
    apply elem_of_seqZ. lia. }
  apply submseteq_length in Hs. rewrite length_seqZ in Hs. lia.
Qed.

Lemma rep_length_bound h l ns ps :
  rep h l ns ps -> Z.of_nat (length ns) + Z.of_nat (length ps) < SIZE_MOD.
Proof.
  intros R. pose proof (nodup_bounded_length (ns ++ ps) SIZE_MOD) as H.
  rewrite length_app in H. rewrite Nat2Z.inj_add in H. apply H.
  - reflexivity.
  - apply R.
  - apply R.
Qed.

Lemma rep_nonnull h l ns ps p : rep h l ns ps -> p ∈ ns ++ ps -> p <> NULL.
Proof.
  intros R Hin. pose proof (rep_range _ _ _ _ R) as Hr.
  rewrite Forall_forall in Hr. apply Hr in Hin. unfold NULL. lia.
Qed.

Lemma shortcut_false len idx :
  shortcut len idx = false ->
  idx <> 0 /\ idx <> 1 /\ idx <> len - 1 /\ idx <> len - 2.
Proof.
  unfold shortcut. intros H.
  destruct (Z.eqb_spec idx 0), (Z.eqb_spec idx 1), (Z.eqb_spec idx (len - 1)),
    (Z.eqb_spec idx (len - 2)); try discriminate. auto.
Qed.

Lemma cache_valid_cache_to p i l : cache_valid (cache_to p i l) = true.
Proof.
  unfold cache_valid, cache_to. simpl.
  replace (Z.land (Z.lor (flags l) 2) 2) with 2; [reflexivity|].
  symmetry. apply Z.bits_inj'. intros n Hn.
  rewrite Z.land_spec, Z.lor_spec.
  destruct (Z.testbit (flags l) n), (Z.testbit 2 n); reflexivity.
Qed.

(** Caching a pair that is right keeps the representation. *)
Lemma rep_cache_to h l ns ps p (i : Z) :
  rep h l ns ps -> 1 <= i -> ns !! Z.to_nat i = Some p ->
  rep h (cache_to p i l) ns ps.
Proof.
  intros R Hi Hp. destruct R. constructor; simpl; auto.
Qed.

(** [clist_go] on a well-formed list: the node at [idx], with the cache
    moved there unless a shortcut answered. *)
Lemma clist_go_spec m lh l ns ps idx :
  lh <> NULL -> lists m !! lh = Some l -> rep (nodes m) l ns ps ->
  0 <= idx < Z.of_nat (length ns) ->
  clist_go lh idx m
  = Ok (nth (Z.to_nat idx) ns NULL)
       (if shortcut (size l) idx then m
        else set_lists
               (<[lh := cache_to (nth (Z.to_nat idx) ns NULL) idx l]> (lists m))
               m).
Proof.
  intros Hlh Hl R Hidx.
  pose proof (rep_length_bound _ _ _ _ R) as Hb.
  pose proof (rep_size _ _ _ _ R) as Hsz.
  pose proof (rep_chain _ _ _ _ R) as Hch.
  unfold clist_go.
  destruct (Z.eqb_spec lh NULL) as [|_]; [contradiction|]. cbn [negb].
  erewrite bind_rd by exact Hl. rewrite Hsz.
  destruct (Z.ltb_spec idx (Z.of_nat (length ns))) as [_|]; [|lia].
  unfold shortcut.
  destruct (Z.eqb_spec idx 0) as [->|H0].
  { simpl. erewrite rd_ok by exact Hl. rewrite (rep_head _ _ _ _ R), hd_nth.
    reflexivity. }
  destruct (Z.eqb_spec idx 1) as [->|H1].
  { simpl. erewrite bind_rd by exact Hl.
    destruct (dlseg_lookup _ _ _ _ 0%nat (head l) Hch) as (nd & Hnd & Hn & _).
    { rewrite (rep_head _ _ _ _ R), hd_nth. apply nth_lookup_Some. lia. }
    erewrite bind_load by exact Hnd. rewrite Hn. reflexivity. }
  rewrite (wrap_small (Z.of_nat (length ns) - 1)) by lia.
  destruct (Z.eqb_spec idx (Z.of_nat (length ns) - 1)) as [->|H2].
  { simpl. erewrite rd_ok by exact Hl. rewrite (rep_tail _ _ _ _ R), last_nth.
    do 2 f_equal. lia. }
  rewrite (wrap_small (Z.of_nat (length ns) - 2)) by lia.
  destruct (Z.eqb_spec idx (Z.of_nat (length ns) - 2)) as [->|H3].
  { simpl. erewrite bind_rd by exact Hl.
    destruct (dlseg_lookup _ _ _ _ (length ns - 1)%nat (tail l) Hch)
      as (nd & Hnd & _ & Hp).
    { rewrite (rep_tail _ _ _ _ R), last_nth. apply nth_lookup_Some. lia. }
    erewrite bind_load by exact Hnd. rewrite Hp.
    destruct (length ns - 1)%nat as [|j] eqn:E; [lia|].
    do 2 f_equal. lia. }
  simpl. erewrite bind_rd by exact Hl. unfold id.
  assert (Hc : cache_valid l = true -> 1 <= ruly l < size l).
  { intros V. destruct (rep_cache _ _ _ _ R V) as [Hr Hlk].
    apply lookup_lt_Some in Hlk. lia. }
  pose proof (go_plan_props l idx) as P. cbv zeta in P.
  destruct P as (Hcand & Hst & Hdir & Htgt & _); [lia | lia | exact Hc |].
  destruct (go_plan l idx) as [[a steps] dir]. simpl in Hcand, Hst, Hdir, Htgt.
  assert (Ha : anchor_node l a = nth (Z.to_nat (anchor_index l a)) ns NULL
               /\ 0 <= anchor_index l a < Z.of_nat (length ns)).
  { destruct a; simpl.
    - rewrite (rep_head _ _ _ _ R), hd_nth. split; [reflexivity | lia].
    - rewrite (rep_tail _ _ _ _ R), last_nth. split; [f_equal; lia | lia].
    - destruct (rep_cache _ _ _ _ R (Hcand eq_refl)) as [Hr Hlk].
      split; [symmetry; apply lookup_nth, Hlk|].
      apply lookup_lt_Some in Hlk. lia. }
  destruct Ha as [Ha Hai]. rewrite Ha.
  assert (Hs0 : 0 <= steps) by (rewrite Hst; unfold distance; lia).
  assert (Hw : (if dir =? 0
                then walk_next (Z.to_nat steps)
                       (nth (Z.to_nat (anchor_index l a)) ns NULL)
                else walk_prev (Z.to_nat steps)
                       (nth (Z.to_nat (anchor_index l a)) ns NULL)) m
               = Ok (nth (Z.to_nat idx) ns NULL) m).
  { destruct Hdir as [-> | ->]; simpl in *.
    - erewrite walk_next_spec by (first [exact Hch | lia]).
      do 2 f_equal. lia.
    - erewrite walk_prev_spec by (first [exact Hch | lia]).
      do 2 f_equal. lia. }
  erewrite bind_ok by exact Hw.
  destruct m as [h s b lm tr rn rl]. simpl in *.
  steps. rewrite !insert_insert_eq. reflexivity.
Qed.

Lemma clist_go_out m lh l idx :
  lh <> NULL -> lists m !! lh = Some l -> size l <= idx ->
  clist_go lh idx m = Ok NULL m.
Proof.
  intros Hlh Hl Hidx. unfold clist_go.
  destruct (Z.eqb_spec lh NULL) as [|_]; [contradiction|]. cbn [negb].
  erewrite bind_rd by exact Hl.
  destruct (Z.ltb_spec idx (size l)); [lia|]. reflexivity.
Qed.

(** * Rewriting the links of a segment *)

Section Relink.
Implicit Types (h : gmap Z clist_node_t) (ns ps a b r : list ptr).
Implicit Types (p k x : ptr) (o : option ptr).

Lemma dlseg_last_next h pv ns nx p nd :
  dlseg h pv ns nx -> p ∈ ns -> p = List.last ns NULL ->
  h !! p = Some nd -> next nd = nx.
Proof.
  intros H Hin Hp Hnd.
  assert (Hlen : (0 < length ns)%nat).
  { destruct ns; [inversion Hin | simpl; lia]. }
  destruct (dlseg_lookup h pv ns nx (length ns - 1) p H) as (nd' & H1 & H2 & _).
  { rewrite Hp, last_nth. apply nth_lookup_Some. lia. }
  rewrite Hnd in H1. injection H1 as <-. rewrite H2.
  apply nth_overflow. lia.
Qed.

Lemma dlseg_first_prev h pv ns nx p nd :
  dlseg h pv ns nx -> p ∈ ns -> p = hd NULL ns ->
  h !! p = Some nd -> prev nd = pv.
Proof.
  intros H Hin Hp Hnd. destruct ns as [|q ns]; [inversion Hin|].
  simpl in Hp. subst q. destruct H as [(nd' & H1 & _ & H3) _]. congruence.
Qed.

Lemma dlseg_relinked h h' pv ns nx o1 o2 :
  NoDup ns -> dlseg h pv ns nx -> relink h h' ns o1 o2 ->
  dlseg h' (default pv o1) ns (default nx o2).
Proof.
  intros ND H R. apply (dlseg_relink h h' pv _ ns nx _ ND H).
  intros p Hin. destruct (R p Hin) as (nd & nd' & H1 & H2 & _ & H3 & H4).
  exists nd, nd'. split; [exact H1|]. split; [exact H2|]. split.
  - rewrite H3. destruct (decide (p = List.last ns NULL)) as [E|]; [|reflexivity].
    destruct o2; [reflexivity|]. simpl.
    eapply dlseg_last_next; eauto.
  - rewrite H4. destruct (decide (p = hd NULL ns)) as [E|]; [|reflexivity].
    destruct o1; [reflexivity|]. simpl.
    eapply dlseg_first_prev; eauto.
Qed.

Lemma relink_refl h ns :
  (forall p, p ∈ ns -> is_Some (h !! p)) -> relink h h ns None None.
Proof.
  intros D p Hin. destruct (D p Hin) as [nd Hnd]. exists nd, nd.
  repeat split; auto; case_decide; reflexivity.
Qed.

Lemma relink_alter_other h h' ns o1 o2 f k :
  k ∉ ns -> relink h h' ns o1 o2 -> relink h (alter f k h') ns o1 o2.
Proof.
  intros Hk R p Hin. destruct (R p Hin) as (nd & nd' & H1 & H2 & H3).
  exists nd, nd'. split; [exact H1|]. split; [|exact H3].
  rewrite lookup_alter_ne; [exact H2|]. intros ->. contradiction.
Qed.

Lemma relink_insert_other h h' ns o1 o2 v k :
  k ∉ ns -> relink h h' ns o1 o2 -> relink h (<[k := v]> h') ns o1 o2.
Proof.
  intros Hk R p Hin. destruct (R p Hin) as (nd & nd' & H1 & H2 & H3).
  exists nd, nd'. split; [exact H1|]. split; [|exact H3].
  rewrite lookup_insert_ne; [exact H2|]. intros ->. contradiction.
Qed.

Lemma relink_delete_other h h' ns o1 o2 k :
  k ∉ ns -> relink h h' ns o1 o2 -> relink h (delete k h') ns o1 o2.
Proof.
  intros Hk R p Hin. destruct (R p Hin) as (nd & nd' & H1 & H2 & H3).
  exists nd, nd'. split; [exact H1|]. split; [|exact H3].
  rewrite lookup_delete_ne; [exact H2|]. intros ->. contradiction.
Qed.

Lemma relink_alter_next h h' ns o1 o2 k x :
  k = List.last ns NULL -> relink h h' ns o1 o2 ->
  relink h (alter (with_next x) k h') ns o1 (Some x).
Proof.
  intros Hk R p Hin.
  destruct (R p Hin) as (nd & nd' & H1 & H2 & H3 & H4 & H5).
  destruct (decide (p = k)) as [->|Hne].
  - exists nd, (with_next x nd'). split; [exact H1|].
    rewrite lookup_alter_eq, H2. split; [reflexivity|]. simpl.
    split; [exact H3|]. split; [|exact H5].
    rewrite decide_True by exact Hk. reflexivity.
  - exists nd, nd'. split; [exact H1|].
    rewrite lookup_alter_ne by congruence. split; [exact H2|].
    split; [exact H3|]. split; [|exact H5].
    rewrite H4. rewrite !decide_False by congruence. reflexivity.
Qed.

Lemma relink_alter_prev h h' ns o1 o2 k x :
  k = hd NULL ns -> relink h h' ns o1 o2 ->
  relink h (alter (with_prev x) k h') ns (Some x) o2.
Proof.
  intros Hk R p Hin.
  destruct (R p Hin) as (nd & nd' & H1 & H2 & H3 & H4 & H5).
  destruct (decide (p = k)) as [->|Hne].
  - exists nd, (with_prev x nd'). split; [exact H1|].
    rewrite lookup_alter_eq, H2. split; [reflexivity|]. simpl.
    split; [exact H3|]. split; [exact H4|].
    rewrite decide_True by exact Hk. reflexivity.
  - exists nd, nd'. split; [exact H1|].
    rewrite lookup_alter_ne by congruence. split; [exact H2|].
    split; [exact H3|]. split; [exact H4|].
    rewrite H5. rewrite !decide_False by congruence. reflexivity.
Qed.

Lemma relink_vals h h' ns o1 o2 :
  relink h h' ns o1 o2 -> vals h' ns = vals h ns.
Proof.
  intros R. apply vals_ext. intros p Hin.
  destruct (R p Hin) as (nd & nd' & H1 & H2 & H3 & _).
  unfold pay. rewrite H1, H2. exact H3.
Qed.

Lemma relink_dom h h' ns o1 o2 p :
  relink h h' ns o1 o2 -> p ∈ ns -> is_Some (h' !! p).
Proof.
  intros R Hin. destruct (R p Hin) as (nd & nd' & _ & H2 & _). eauto.
Qed.

Lemma slseg_relinked h h' ps :
  relink h h' ps None None -> slseg h ps -> slseg h' ps.
Proof.
  induction ps as [|q ps IH]; intros R H; [exact I|].
  destruct H as [(nd & Hq & Hn) H]. split.
  - destruct (R q) as (nd1 & nd' & H1 & H2 & _ & H3 & _); [left|].
    exists nd'. split; [exact H2|]. rewrite H3.
    assert (nd1 = nd) by congruence. subst nd1.
    case_decide; simpl; exact Hn.
  - apply IH; [|exact H]. intros p Hin.
    destruct (R p) as (nd1 & nd' & H1 & H2 & H3 & H4 & H5); [right; exact Hin|].
    exists nd1, nd'. repeat split; auto.
    + rewrite H4. repeat case_decide; reflexivity.
    + rewrite H5. repeat case_decide; reflexivity.
Qed.

(** A run [r] linked in between [a] and [b]. *)
Lemma dlseg_link h h' a r b pvr nxr :
  NoDup (a ++ r ++ b) -> r <> [] ->
  dlseg h NULL (a ++ b) NULL -> dlseg h pvr r nxr ->
  relink h h' a None (Some (hd NULL r)) ->
  relink h h' r (Some (List.last a NULL)) (Some (hd NULL b)) ->
  relink h h' b (Some (List.last r NULL)) None ->
  dlseg h' NULL (a ++ r ++ b) NULL.
Proof.
  intros ND Hr H Hrun Ra Rr Rb.
  apply NoDup_app in ND as (NDa & _ & ND).
  apply NoDup_app in ND as (NDr & _ & NDb).
  apply dlseg_app in H as [Ha Hb].
  apply dlseg_app. split.
  - rewrite hd_app.
    replace (hd (hd NULL b) r) with (hd NULL r)
      by (destruct r; [congruence | reflexivity]).
    exact (dlseg_relinked _ _ _ _ _ _ _ NDa Ha Ra).
  - apply dlseg_app. split.
    + exact (dlseg_relinked _ _ _ _ _ _ _ NDr Hrun Rr).
    + replace (List.last r (List.last a NULL)) with (List.last r NULL)
        by (destruct r; [congruence | rewrite !last_cons; reflexivity]).
      exact (dlseg_relinked _ _ _ _ _ _ _ NDb Hb Rb).
Qed.

(** A run [r] taken out from between [a] and [b]. *)
Lemma dlseg_unlink h h' a r b :
  NoDup (a ++ r ++ b) ->
  dlseg h NULL (a ++ r ++ b) NULL ->
  relink h h' a None (Some (hd NULL b)) ->
  relink h h' b (Some (List.last a NULL)) None ->
  dlseg h' NULL (a ++ b) NULL.
Proof.
  intros ND H Ra Rb.
  apply NoDup_app in ND as (NDa & _ & ND).
  apply NoDup_app in ND as (NDr & _ & NDb).
  apply dlseg_app in H as [Ha H]. apply dlseg_app in H as [_ Hb].
  apply dlseg_app. split.
  - exact (dlseg_relinked _ _ _ _ _ _ _ NDa Ha Ra).
  - exact (dlseg_relinked _ _ _ _ _ _ _ NDb Hb Rb).
Qed.
End Relink.

(** * More on running the monad *)

Arguments clist_go : simpl never.
Arguments clist_erase : simpl never.
Arguments clist_insert : simpl never.
Arguments vnut_cl_insert_node : simpl never.
Arguments go_list : simpl never.
Arguments cache_to : simpl never.

Lemma insert_is_alter {A} (h : gmap Z A) p f x :
  h !! p = Some x -> <[p := f x]> h = alter f p h.
Proof.
  intros H. apply map_eq. intros q. rewrite lookup_insert, lookup_alter.
  case_decide; [subst; rewrite H|]; reflexivity.
Qed.

Lemma alter_absent {A} (h : gmap Z A) p f : h !! p = None -> alter f p h = h.
Proof.
  intros H. apply map_eq. intros q. rewrite lookup_alter.
  case_decide; [subst; rewrite H|]; reflexivity.
Qed.

Lemma upd_alter p f m :
  is_Some (nodes m !! p) ->
  upd_node p f m = Ok tt (set_nodes (alter f p (nodes m)) m).
Proof.
  intros [nd H]. rewrite (upd_ok p f m nd H), (insert_is_alter _ _ _ _ H).
  reflexivity.
Qed.

Lemma bind_upd_alter {B} p f (k : unit -> M B) m :
  is_Some (nodes m !! p) ->
  bind (upd_node p f) k m = k tt (set_nodes (alter f p (nodes m)) m).
Proof. intros H. apply bind_ok, upd_alter, H. Qed.

Lemma set_lists_id m lh l :
  lists m !! lh = Some l -> set_lists (<[lh := l]> (lists m)) m = m.
Proof.
  intros H. destruct m; unfold set_lists; simpl in *. f_equal.
  apply insert_id, H.
Qed.

(** Fields the cache update of [clist_go] leaves alone. *)
Lemma go_list_fields l ns idx :
  head (go_list l ns idx) = head l /\ tail (go_list l ns idx) = tail l /\
  pkb (go_list l ns idx) = pkb l /\
  type_size (go_list l ns idx) = type_size l /\
  size (go_list l ns idx) = size l /\ zskb (go_list l ns idx) = zskb l /\
  Z.land (flags (go_list l ns idx)) 1 = Z.land (flags l) 1.
Proof.
  unfold go_list, cache_to. destruct (shortcut (size l) idx); simpl;
    repeat split; try reflexivity.
  rewrite Z.land_lor_distr_l. change (Z.land 2 1) with 0. apply Z.lor_0_r.
Qed.

Lemma size_go_list l ns idx : size (go_list l ns idx) = size l.
Proof. apply go_list_fields. Qed.
Lemma head_go_list l ns idx : head (go_list l ns idx) = head l.
Proof. apply go_list_fields. Qed.
Lemma tail_go_list l ns idx : tail (go_list l ns idx) = tail l.
Proof. apply go_list_fields. Qed.
Lemma pkb_go_list l ns idx : pkb (go_list l ns idx) = pkb l.
Proof. apply go_list_fields. Qed.
Lemma zskb_go_list l ns idx : zskb (go_list l ns idx) = zskb l.
Proof. apply go_list_fields. Qed.
Lemma type_size_go_list l ns idx : type_size (go_list l ns idx) = type_size l.
Proof. apply go_list_fields. Qed.
Lemma own_go_list l ns idx :
  Z.land (flags (go_list l ns idx)) 1 = Z.land (flags l) 1.
Proof. apply go_list_fields. Qed.

Create Rewrite HintDb golist.
Hint Rewrite size_go_list head_go_list tail_go_list pkb_go_list zskb_go_list
  type_size_go_list own_go_list : golist.

Lemma rep_go_list h l ns ps idx :
  rep h l ns ps -> 0 <= idx < Z.of_nat (length ns) ->
  rep h (go_list l ns idx) ns ps.
Proof.
  intros R Hidx. unfold go_list.
  destruct (shortcut (size l) idx) eqn:S; [exact R|].
  apply shortcut_false in S. apply rep_cache_to; [exact R | lia |].
  apply nth_lookup_Some. lia.
Qed.

Lemma clist_go_ok m lh l ns ps idx :
  lh <> NULL -> lists m !! lh = Some l -> rep (nodes m) l ns ps ->
  0 <= idx < Z.of_nat (length ns) ->
  clist_go lh idx m
  = Ok (nth (Z.to_nat idx) ns NULL)
       (set_lists (<[lh := go_list l ns idx]> (lists m)) m).
Proof.
  intros Hlh Hl R Hidx. rewrite (clist_go_spec m lh l ns ps idx) by assumption.
  unfold go_list. destruct (shortcut (size l) idx); [|reflexivity].
  rewrite set_lists_id by exact Hl. reflexivity.
Qed.

Lemma hd_drop {A} (l : list A) (i : nat) (d : A) : hd d (drop i l) = nth i l d.
Proof.
  revert i. induction l as [|x l IH]; intros [|i]; simpl; auto.
Qed.

Lemma last_take {A} (l : list A) (i : nat) (d : A) :
  (i <= length l)%nat ->
  List.last (take i l) d = match i with O => d | S j => nth j l d end.
Proof.
  intros Hi. destruct i as [|j]; [reflexivity|].
  rewrite last_nth, length_take_le by exact Hi.
  replace (S j - 1)%nat with j by lia.
  apply lookup_nth. rewrite lookup_take_lt by lia.
  apply nth_lookup_Some. lia.
Qed.

Lemma null_absent m : mem_wf m -> nodes m !! NULL = None.
Proof.
  intros W. destruct (nodes m !! NULL) as [nd|] eqn:E; [|reflexivity].
  apply (wf_nodes m W) in E. unfold NULL in E. lia.
Qed.

(** * Insertion *)

Ltac dom_tac :=
  simpl; rewrite ?lookup_alter_is_Some; first [assumption | eauto].

Ltac ne_tac := first [assumption | congruence | lia].

Ltac mem_lookup ::=
  simpl;
  first [ eassumption
        | apply lookup_insert_eq
        | rewrite lookup_insert_ne by ne_tac; mem_lookup
        | rewrite lookup_alter_ne by ne_tac; mem_lookup ].

Ltac step ::=
  first
    [ rewrite bind_assoc
    | rewrite bind_ret
    | erewrite bind_rd by mem_lookup
    | erewrite bind_wr by mem_lookup
    | erewrite bind_load by mem_lookup
    | erewrite bind_upd_alter by dom_tac
    | erewrite rd_ok by mem_lookup
    | erewrite wr_ok by mem_lookup
    | erewrite load_ok by mem_lookup
    | erewrite upd_alter by dom_tac ];
  unfold set_lists, set_nodes, set_brk, log; simpl.

Lemma go_list_0 l ns : go_list l ns 0 = l.
Proof. reflexivity. Qed.

Lemma go_list_last l ns :
  size l = Z.of_nat (length ns) -> go_list l ns (Z.of_nat (length ns) - 1) = l.
Proof.
  intros H. unfold go_list, shortcut. rewrite H, Z.eqb_refl.
  rewrite orb_true_r. reflexivity.
Qed.

Lemma rep_nth h l ns ps (i : nat) :
  rep h l ns ps -> (i < length ns)%nat ->
  nth i ns NULL <> NULL /\ nth i ns NULL ∈ ns.
Proof.
  intros R Hi.
  assert (Hin : nth i ns NULL ∈ ns) by (apply list_elem_of_In, nth_In, Hi).
  split; [|exact Hin]. apply (rep_nonnull _ _ _ _ _ R).
  apply elem_of_app. left. exact Hin.
Qed.

Lemma insert_node_run m lh l ns ps idx n :
  mem_wf m -> lh <> NULL -> lists m !! lh = Some l ->
  rep (nodes m) l ns ps -> 0 <= idx <= Z.of_nat (length ns) ->
  n ∉ ns -> is_Some (nodes m !! n) ->
  Z.of_nat (length ns) + 1 < SIZE_MOD ->
  vnut_cl_insert_node lh idx n m
  = Ok tt (set_lists (<[lh := insert_list l ns idx n]> (lists m))
             (set_nodes
                (link_node n (List.last (take (Z.to_nat idx) ns) NULL)
                   (hd NULL (drop (Z.to_nat idx) ns)) (nodes m)) m)).
Proof.
  intros W Hlh Hl R Hidx Hn Hdn Hb.
  pose proof (null_absent m W) as Hnull.
  pose proof (rep_size _ _ _ _ R) as Hsz.
  pose proof (rep_chain _ _ _ _ R) as Hch.
  unfold vnut_cl_insert_node, insert_list, link_node.
  erewrite bind_rd by exact Hl. rewrite Hsz.
  rewrite hd_drop, last_take by lia.
  destruct (Z.ltb_spec idx (Z.of_nat (length ns))) as [Hlt|Hge];
    destruct (Z.eqb_spec idx 0) as [->|H0].
  - (* at the head of a list that is not empty *)
    erewrite bind_ok by (apply (clist_go_ok m lh l ns ps); auto; lia).
    rewrite go_list_0. change (Z.to_nat 0) with 0%nat.
    destruct (rep_nth _ _ _ _ 0%nat R) as [Hnz Hin]; [lia|].
    destruct (dlseg_lookup _ _ _ _ 0%nat _ Hch (nth_lookup_Some ns 0 NULL ltac:(lia)))
      as (nd & Hnd & _ & Hp).
    destruct m as [h s b lm tr rn rl]. simpl in *.
    steps.
    destruct (Z.eqb_spec (nth 0 ns NULL) NULL) as [|_]; [contradiction|].
    simpl. steps. rewrite Hsz.
    destruct (Z.ltb_spec 0 (Z.of_nat (length ns))) as [_|]; [|lia].
    simpl. steps. rewrite !insert_insert_eq.
    rewrite (alter_absent h NULL) by exact Hnull.
    rewrite Hp, ?Hsz.
    rewrite (wrap_small (Z.of_nat (length ns) + 1)) by lia.
    reflexivity.
  - (* inside the list *)
    assert (Hi1 : 0 <= idx - 1 < Z.of_nat (length ns)) by lia.
    rewrite (wrap_small (idx - 1)) by lia.
    erewrite bind_ok by (apply (clist_go_ok m lh l ns ps); auto; lia).
    destruct (rep_nth _ _ _ _ (Z.to_nat idx) R) as [Hnz Hin]; [lia|].
    destruct (rep_nth _ _ _ _ (Z.to_nat (idx - 1)) R) as [Hpz Hpin]; [lia|].
    destruct (dlseg_lookup _ _ _ _ (Z.to_nat idx) _ Hch
                (nth_lookup_Some ns (Z.to_nat idx) NULL ltac:(lia)))
      as (nd & Hnd & _ & Hp).
    destruct (Z.to_nat idx) as [|j] eqn:Ej; [lia|].
    replace (Z.to_nat (idx - 1)) with j in * by lia.
    assert (Hne : nth j ns NULL <> nth (S j) ns NULL).
    { intros E. pose proof (rep_nodup _ _ _ _ R) as ND.
      apply NoDup_app in ND as [ND _].
      pose proof (NoDup_lookup ns j (S j) _ ND
                    (nth_lookup_Some ns j NULL ltac:(lia))) as Hk.
      rewrite E in Hk. specialize (Hk (nth_lookup_Some ns (S j) NULL ltac:(lia))).
      lia. }
    destruct m as [h s b lm tr rn rl]. simpl in *.
    rewrite bind_assoc.
    erewrite bind_ok.
    2:{ apply (clist_go_ok _ lh (go_list l ns idx) ns ps); simpl;
          [exact Hlh | apply lookup_insert_eq
          | apply rep_go_list; [exact R | lia] | lia]. }
    replace (Z.to_nat (idx - 1)) with j in * by lia.
    assert (Hpd : is_Some (h !! nth j ns NULL))
      by (eapply dlseg_dom; [exact Hch | exact Hpin]).
    unfold set_lists; simpl.
    steps.
    destruct (Z.eqb_spec (nth (S j) ns NULL) NULL) as [|_]; [contradiction|].
    simpl. steps. autorewrite with golist. rewrite Hsz.
    destruct (Z.ltb_spec idx (Z.of_nat (length ns))) as [_|]; [|lia].
    destruct (Z.ltb_spec 0 idx) as [_|]; [|lia].
    simpl. steps. rewrite !insert_insert_eq. autorewrite with golist.
    rewrite Hp, ?Hsz.
    rewrite (wrap_small (Z.of_nat (length ns) + 1)) by lia.
    unfold cache_to. simpl. autorewrite with golist. rewrite ?Hsz.
    reflexivity.
  - (* into the empty list *)
    assert (Hlen : length ns = 0%nat) by lia.
    destruct ns; [|discriminate]. clear Hlen.
    destruct m as [h s b lm tr rn rl]. simpl in *.
    steps. rewrite Hsz. simpl. steps. rewrite !insert_insert_eq.
    rewrite !(alter_absent h NULL) by exact Hnull.
    rewrite (wrap_small (Z.of_nat 0 + 1)) by (rewrite SIZE_MOD_val; lia).
    reflexivity.
  - (* at the tail *)
    assert (idx = Z.of_nat (length ns)) as -> by lia.
    assert (Hi1 : 0 <= Z.of_nat (length ns) - 1 < Z.of_nat (length ns)) by lia.
    rewrite (wrap_small (Z.of_nat (length ns) - 1)) by lia.
    rewrite nth_overflow by lia.
    destruct (rep_nth _ _ _ _ (Z.to_nat (Z.of_nat (length ns) - 1)) R)
      as [Hpz Hpin]; [lia|].
    destruct (Z.to_nat (Z.of_nat (length ns))) as [|j] eqn:Ej; [lia|].
    replace (Z.to_nat (Z.of_nat (length ns) - 1)) with j in * by lia.
    assert (Hpd : is_Some (nodes m !! nth j ns NULL))
      by (eapply dlseg_dom; [exact Hch | exact Hpin]).
    destruct m as [h s b lm tr rn rl]. simpl in *.
    steps.
    erewrite bind_ok.
    2:{ apply (clist_go_ok _ lh l ns ps); simpl;
          [exact Hlh | exact Hl | exact R | lia]. }
    rewrite go_list_last by exact Hsz.
    replace (Z.to_nat (Z.of_nat (length ns) - 1)) with j in * by lia.
    unfold set_lists; simpl.
    steps. rewrite Hsz.
    destruct (Z.ltb_spec (Z.of_nat (length ns)) (Z.of_nat (length ns)));
      [lia|].
    simpl.
    destruct (Z.eqb_spec (Z.of_nat (length ns)) 0); [lia|].
    simpl. rewrite !insert_insert_eq.
    rewrite (alter_absent _ NULL)
      by (rewrite ?lookup_alter_ne by ne_tac; exact Hnull).
    rewrite (wrap_small (Z.of_nat (length ns) + 1)) by lia.
    reflexivity.
Qed.

Lemma pay_alter_next h k x q : pay (alter (with_next x) k h) q = pay h q.
Proof.
  unfold pay. rewrite lookup_alter. case_decide; [subst|reflexivity].
  destruct (h !! q); reflexivity.
Qed.

Lemma pay_alter_prev h k x q : pay (alter (with_prev x) k h) q = pay h q.
Proof.
  unfold pay. rewrite lookup_alter. case_decide; [subst|reflexivity].
  destruct (h !! q); reflexivity.
Qed.

Lemma pay_link_node h n pv nx q : pay (link_node n pv nx h) q = pay h q.
Proof.
  unfold link_node.
  rewrite pay_alter_prev, pay_alter_next, pay_alter_prev, pay_alter_next.
  reflexivity.
Qed.

Lemma link_node_frame h n pv nx q :
  q <> n -> q <> pv -> q <> nx -> link_node n pv nx h !! q = h !! q.
Proof.
  intros H1 H2 H3. unfold link_node.
  rewrite !lookup_alter_ne by congruence. reflexivity.
Qed.

Lemma link_node_dom h n pv nx q :
  is_Some (link_node n pv nx h !! q) <-> is_Some (h !! q).
Proof. unfold link_node. rewrite !lookup_alter_is_Some. reflexivity. Qed.

Lemma insert_at_perm {A} (i : nat) (x : A) (l : list A) :
  insert_at i x l ≡ₚ x :: l.
Proof.
  unfold insert_at. rewrite <- Permutation_middle, take_drop. reflexivity.
Qed.

Lemma insert_at_length {A} (i : nat) (x : A) (l : list A) :
  length (insert_at i x l) = S (length l).
Proof. rewrite insert_at_perm. reflexivity. Qed.

(** The ends of a chain cut at [i]. *)
Lemma cut_ends h l ns ps (i : nat) :
  rep h l ns ps -> (i <= length ns)%nat ->
  (List.last (take i ns) NULL = NULL \/ List.last (take i ns) NULL ∈ take i ns)
  /\ (hd NULL (drop i ns) = NULL \/ hd NULL (drop i ns) ∈ drop i ns).
Proof.
  intros R Hi. split.
  - destruct (take i ns) as [|x a]; [left; reflexivity|].
    right. apply last_elem.
  - destruct (drop i ns) as [|x b]; [left; reflexivity|].
    right. left.
Qed.

Lemma insert_node_rep h l ns ps idx n :
  rep h l ns ps -> 0 <= idx <= Z.of_nat (length ns) ->
  n ∉ ns ++ ps -> 0 < n < SIZE_MOD -> is_Some (h !! n) ->
  rep (link_node n (List.last (take (Z.to_nat idx) ns) NULL)
         (hd NULL (drop (Z.to_nat idx) ns)) h)
      (insert_list l ns idx n) (insert_at (Z.to_nat idx) n ns) ps.
Proof.
  intros R Hidx Hn Hr [ndn Hdn]. unfold insert_at.
  remember (Z.to_nat idx) as i eqn:Ei.
  assert (Hab : ns = take i ns ++ drop i ns) by (symmetry; apply take_drop).
  assert (Hla : length (take i ns) = i) by (apply length_take_le; lia).
  assert (Hlb : length (drop i ns) = (length ns - i)%nat) by apply length_drop.
  remember (take i ns) as a eqn:Ea. remember (drop i ns) as b eqn:Eb.
  pose proof (rep_nodup _ _ _ _ R) as ND.
  pose proof (rep_range _ _ _ _ R) as RG.
  pose proof (rep_chain _ _ _ _ R) as Hch.
  pose proof (rep_size _ _ _ _ R) as Hsz.
  assert (NDn : NoDup (a ++ [n] ++ b)).
  { apply NoDup_app in ND as [ND _]. change (NoDup (a ++ n :: b)).
    rewrite <- Permutation_middle. apply NoDup_cons. rewrite <- Hab.
    split; [|exact ND].
    intros Hin. apply Hn, elem_of_app. left. exact Hin. }
  assert (Hna : n ∉ a).
  { intros Hin. apply Hn. rewrite Hab, !elem_of_app. auto. }
  assert (Hnb : n ∉ b).
  { intros Hin. apply Hn. rewrite Hab, !elem_of_app. auto. }
  assert (Hnp : n ∉ ps).
  { intros Hin. apply Hn. rewrite !elem_of_app. auto. }
  assert (Hz : forall q, q ∈ ns ++ ps -> q <> NULL)
    by (intros q; apply (rep_nonnull _ _ _ _ _ R)).
  assert (Hnn : n <> NULL) by (unfold NULL; lia).
  set (pv := List.last a NULL). set (nx := hd NULL b).
  assert (Hpv : pv = NULL \/ pv ∈ a).
  { unfold pv. destruct a as [|x a']; [left; reflexivity|]. right.
    apply last_elem. }
  assert (Hnx : nx = NULL \/ nx ∈ b).
  { unfold nx. destruct b as [|x b']; [left; reflexivity|]. right. left. }
  assert (Hpvb : pv ∉ b).
  { intros Hin. destruct Hpv as [E|Hpa].
    - apply (Hz pv); [|exact E]. rewrite Hab, !elem_of_app. auto.
    - rewrite Hab in ND. apply NoDup_app in ND as [ND _].
      apply NoDup_app in ND as (_ & D & _). exact (D pv Hpa Hin). }
  assert (Hnxa : nx ∉ a).
  { intros Hin. destruct Hnx as [E|Hxb].
    - apply (Hz nx); [|exact E]. rewrite Hab, !elem_of_app. auto.
    - rewrite Hab in ND. apply NoDup_app in ND as [ND _].
      apply NoDup_app in ND as (_ & D & _). exact (D nx Hin Hxb). }
  assert (Hpvp : pv ∉ ps).
  { intros Hin. destruct Hpv as [E|Hpa].
    - apply (Hz pv); [|exact E]. rewrite !elem_of_app. auto.
    - apply NoDup_app in ND as (_ & D & _). apply (D pv); [|exact Hin].
      rewrite Hab, elem_of_app. auto. }
  assert (Hnxp : nx ∉ ps).
  { intros Hin. destruct Hnx as [E|Hxb].
    - apply (Hz nx); [|exact E]. rewrite !elem_of_app. auto.
    - apply NoDup_app in ND as (_ & D & _). apply (D nx); [|exact Hin].
      rewrite Hab, elem_of_app. auto. }
  assert (Hpvn : pv <> n) by (intros ->; destruct Hpv; auto).
  assert (Hnxn : nx <> n) by (intros ->; destruct Hnx; auto).
  assert (Hda : forall p, p ∈ a -> is_Some (h !! p)).
  { intros p Hin. apply (dlseg_dom _ _ _ _ _ Hch). rewrite Hab, elem_of_app.
    auto. }
  assert (Hdb : forall p, p ∈ b -> is_Some (h !! p)).
  { intros p Hin. apply (dlseg_dom _ _ _ _ _ Hch). rewrite Hab, elem_of_app.
    auto. }
  assert (Hdp : forall p, p ∈ ps -> is_Some (h !! p)).
  { intros p Hin. apply (slseg_dom _ _ _ (rep_pool _ _ _ _ R) Hin). }
  assert (Hhd : hd NULL (a ++ n :: b) = if idx =? 0 then n else head l).
  { rewrite hd_app. simpl.
    destruct (Z.eqb_spec idx 0) as [E|E].
    - destruct a; [reflexivity | simpl in Hla; lia].
    - rewrite (rep_head _ _ _ _ R), Hab, hd_app.
      destruct a; [simpl in Hla; lia | reflexivity]. }
  assert (Htl : List.last (a ++ n :: b) NULL
                = if idx <? Z.of_nat (length ns) then tail l else n).
  { rewrite last_app, last_cons.
    destruct (Z.ltb_spec idx (Z.of_nat (length ns))) as [E|E].
    - rewrite (rep_tail _ _ _ _ R), Hab, last_app.
      destruct b; [simpl in Hlb; lia | rewrite !last_cons; reflexivity].
    - destruct b; [reflexivity | simpl in Hlb; lia]. }
  assert (Hfields :
    head (insert_list l ns idx n) = (if idx =? 0 then n else head l) /\
    tail (insert_list l ns idx n)
    = (if idx <? Z.of_nat (length ns) then tail l else n) /\
    size (insert_list l ns idx n) = Z.of_nat (length ns) + 1 /\
    pkb (insert_list l ns idx n) = pkb l /\
    zskb (insert_list l ns idx n) = zskb l).
  { unfold insert_list.
    destruct (Z.ltb_spec idx (Z.of_nat (length ns)));
      destruct (Z.eqb_spec idx 0); destruct (Z.ltb_spec 0 idx); try lia;
      simpl; unfold cache_to; simpl; autorewrite with golist; simpl;
      autorewrite with golist; auto. }
  destruct Hfields as (F1 & F2 & F3 & F4 & F5).
  constructor.
  - rewrite Hhd. exact F1.
  - rewrite Htl. exact F2.
  - rewrite length_app. simpl. rewrite Nat.add_succ_r, <- length_app, <- Hab.
    rewrite F3. lia.
  - rewrite F4. apply R.
  - rewrite F5. apply R.
  - (* the chain *)
    change (n :: b) with ([n] ++ b).
    rewrite Hab in Hch.
    apply (dlseg_link h _ a [n] b (prev ndn) (next ndn) NDn);
      [discriminate | exact Hch | | | |]; unfold link_node; fold pv nx.
    + simpl. split; [eauto | exact I].
    + apply relink_alter_other; [exact Hna|].
      apply relink_alter_other; [exact Hna|].
      apply relink_alter_other; [exact Hnxa|].
      eapply relink_alter_next; [reflexivity|].
      apply relink_refl, Hda.
    + eapply relink_alter_prev; [reflexivity|].
      eapply relink_alter_next; [reflexivity|].
      apply relink_alter_other; [rewrite list_elem_of_singleton; exact Hnxn|].
      apply relink_alter_other; [rewrite list_elem_of_singleton; exact Hpvn|].
      apply relink_refl. intros p Hp. apply list_elem_of_singleton in Hp as ->.
      eauto.
    + apply relink_alter_other; [exact Hnb|].
      apply relink_alter_other; [exact Hnb|].
      eapply relink_alter_prev; [reflexivity|].
      apply relink_alter_other; [exact Hpvb|].
      apply relink_refl, Hdb.
  - (* the pool *)
    apply (slseg_relinked h); [|apply R]. unfold link_node. fold pv nx.
    apply relink_alter_other; [exact Hnp|].
    apply relink_alter_other; [exact Hnp|].
    apply relink_alter_other; [exact Hnxp|].
    apply relink_alter_other; [exact Hpvp|].
    apply relink_refl, Hdp.
  - rewrite <- Permutation_middle. simpl. apply NoDup_cons. rewrite <- Hab.
    split; assumption.
  - rewrite <- Permutation_middle. simpl. apply Forall_cons. rewrite <- Hab.
    split; assumption.
  - (* the cache *)
    unfold insert_list.
    destruct (Z.ltb_spec idx (Z.of_nat (length ns))) as [Hlt|Hge];
      destruct (Z.eqb_spec idx 0) as [E0|E0]; simpl.
    + subst idx. rewrite go_list_0. unfold cache_valid. simpl.
      intros V. destruct (rep_cache _ _ _ _ R V) as [Hc1 Hc2].
      assert (ruly l < Z.of_nat (length ns))
        by (apply lookup_lt_Some in Hc2; lia).
      pose proof (rep_length_bound _ _ _ _ R).
      rewrite wrap_small by lia. split; [lia|].
      destruct a; [|simpl in Hla; lia]. simpl in Hab.
      replace (Z.to_nat (ruly l + 1)) with (S (Z.to_nat (ruly l))) by lia.
      simpl. rewrite <- Hab. exact Hc2.
    + destruct (Z.ltb_spec 0 idx); [|lia]. simpl. intros _.
      unfold cache_to. simpl. split; [lia|].
      rewrite lookup_app_r by lia.
      rewrite Hla, <- Ei, Nat.sub_diag. reflexivity.
    + subst idx. unfold cache_valid. simpl.
      intros V. destruct (rep_cache _ _ _ _ R V) as [Hc1 Hc2].
      apply lookup_lt_Some in Hc2. lia.
    + assert (idx = Z.of_nat (length ns)) as E by lia.
      replace (idx - 1) with (Z.of_nat (length ns) - 1) by lia.
      rewrite go_list_last by exact Hsz. unfold cache_valid. simpl.
      intros V. destruct (rep_cache _ _ _ _ R V) as [Hc1 Hc2].
      split; [exact Hc1|].
      destruct b; [|simpl in Hlb; lia]. rewrite app_nil_r in Hab.
      rewrite <- Hab. apply lookup_app_l_Some. exact Hc2.
Qed.

(** The representation only reads the list's own nodes. *)
Lemma rep_ext h h' l ns ps :
  (forall q, q ∈ ns ++ ps -> h' !! q = h !! q) ->
  rep h l ns ps -> rep h' l ns ps.
Proof.
  intros E R. destruct R. constructor; auto.
  - apply (dlseg_ext h); [|assumption]. intros q Hq. apply E, elem_of_app. auto.
  - apply (slseg_ext h); [|assumption]. intros q Hq. apply E, elem_of_app. auto.
Qed.

Lemma elem_of_take_drop_l {A} (i : nat) (l : list A) (q : A) :
  q ∈ take i l -> q ∈ l.
Proof.
  intros H. rewrite <- (take_drop i l). apply elem_of_app. auto.
Qed.

Lemma elem_of_take_drop_r {A} (i : nat) (l : list A) (q : A) :
  q ∈ drop i l -> q ∈ l.
Proof.
  intros H. rewrite <- (take_drop i l). apply elem_of_app. auto.
Qed.

Lemma vals_insert_at h h' (i : nat) n ns :
  (forall q, q ∈ ns -> pay h' q = pay h q) ->
  vals h' (insert_at i n ns) = insert_at i (pay h' n) (vals h ns).
Proof.
  intros E. unfold vals, insert_at. rewrite map_app. simpl.
  rewrite firstn_map, skipn_map. f_equal; [|f_equal].
  - apply map_ext_in. intros q Hq. apply E.
    eapply elem_of_take_drop_l, list_elem_of_In, Hq.
  - apply map_ext_in. intros q Hq. apply E.
    eapply elem_of_take_drop_r, list_elem_of_In, Hq.
Qed.

(** The list object once the top of the pool has been taken. *)
Lemma pool_pop h l ns p ps :
  rep h l ns (p :: ps) ->
  rep h (with_zskb (Z.of_nat (length ps)) (with_pkb (hd NULL ps) l)) ns ps /\
  (exists nd, h !! p = Some nd /\ next nd = hd NULL ps) /\
  (p ∉ ns ++ ps) /\ 0 < p < SIZE_MOD.
Proof.
  intros R. pose proof (rep_nodup _ _ _ _ R) as ND.
  pose proof (rep_range _ _ _ _ R) as RG.
  assert (Hperm : ns ++ p :: ps ≡ₚ p :: ns ++ ps)
    by (symmetry; apply Permutation_middle).
  rewrite Hperm in ND, RG. apply NoDup_cons in ND as [Hp ND].
  apply Forall_cons in RG as [Hr RG].
  destruct (rep_pool _ _ _ _ R) as [Hnd Hpool].
  split; [|auto]. destruct R. constructor; simpl; auto.
Qed.

Lemma insert_at_fresh {A} (i : nat) (x : A) (l k : list A) (q : A) :
  q ∈ insert_at i x l ++ k -> q = x \/ q ∈ l ++ k.
Proof.
  rewrite !elem_of_app, insert_at_perm, elem_of_cons. tauto.
Qed.

(** [clist_insert] with the node in hand: payload, then linking. *)
Lemma insert_tail_run m lh l ns ps idx v n :
  mem_wf m -> lh <> NULL -> lists m !! lh = Some l ->
  rep (nodes m) l ns ps -> 0 <= idx <= Z.of_nat (length ns) ->
  n ∉ ns ++ ps -> 0 < n < SIZE_MOD -> is_Some (nodes m !! n) ->
  exists h' l',
    bind (match v with
          | Some x => memcpy_payload n x
          | None => ret tt
          end)
      (fun _ => bind (vnut_cl_insert_node lh idx n)
                  (fun _ => ret EXIT_SUCCESS)) m
    = Ok EXIT_SUCCESS (set_lists (<[lh := l']> (lists m)) (set_nodes h' m)) /\
    rep h' l' (insert_at (Z.to_nat idx) n ns) ps /\
    config l' = config l /\
    (forall q, q ∉ ns ++ ps -> q <> n -> h' !! q = nodes m !! q) /\
    (forall q, is_Some (h' !! q) <-> is_Some (nodes m !! q)) /\
    (forall q, q <> n -> pay h' q = pay (nodes m) q) /\
    pay h' n = match v with Some x => x | None => pay (nodes m) n end.
Proof.
  intros W Hlh Hl R Hidx Hn Hr Hdn.
  pose (hB := match v with
              | Some x => alter (with_payload x) n (nodes m)
              | None => nodes m
              end).
  assert (HB : bind (match v with
                     | Some x => memcpy_payload n x
                     | None => ret tt
                     end)
                 (fun _ => bind (vnut_cl_insert_node lh idx n)
                             (fun _ => ret EXIT_SUCCESS)) m
               = bind (vnut_cl_insert_node lh idx n)
                   (fun _ => ret EXIT_SUCCESS) (set_nodes hB m)).
  { unfold hB. destruct v as [x|].
    - unfold memcpy_payload. rewrite bind_upd_alter by exact Hdn. reflexivity.
    - rewrite bind_ret. destruct m; reflexivity. }
  assert (HdB : forall q, is_Some (hB !! q) <-> is_Some (nodes m !! q)).
  { intros q. unfold hB. destruct v; [|reflexivity].
    apply lookup_alter_is_Some. }
  assert (HfB : forall q, q <> n -> hB !! q = nodes m !! q).
  { intros q Hq. unfold hB. destruct v; [|reflexivity].
    apply lookup_alter_ne. congruence. }
  assert (RB : rep hB l ns ps).
  { apply (rep_ext (nodes m)); [|exact R]. intros q Hq. apply HfB.
    intros ->. contradiction. }
  assert (WB : mem_wf (set_nodes hB m)).
  { destruct W as [W1 W2 W3]. constructor; simpl; auto.
    intros p nd Hp. assert (Hs : is_Some (nodes m !! p)) by (apply HdB; eauto).
    destruct Hs as [nd' Hs]. eapply W3, Hs. }
  assert (Hna : n ∉ ns) by (intros Hin; apply Hn, elem_of_app; auto).
  pose proof (rep_length_bound _ _ _ _ R) as Hb.
  assert (Hb1 : Z.of_nat (length ns) + 1 < SIZE_MOD).
  { pose proof (nodup_bounded_length (n :: ns ++ ps) SIZE_MOD) as Hx.
    simpl length in Hx. rewrite length_app in Hx.
    assert (Z.of_nat (S (length ns + length ps)) < SIZE_MOD).
    { apply Hx; [reflexivity | |].
      - apply NoDup_cons. split; [exact Hn | apply R].
      - apply Forall_cons. split; [exact Hr | apply R]. }
    lia. }
  rewrite HB.
  erewrite bind_ok.
  2:{ apply (insert_node_run _ lh l ns ps idx n WB Hlh); simpl; auto.
      apply HdB, Hdn. }
  simpl.
  eexists _, _. split.
  { destruct m; unfold set_lists, set_nodes; simpl. reflexivity. }
  split.
  { apply insert_node_rep; auto. apply HdB, Hdn. }
  assert (Hcut := cut_ends hB l ns ps (Z.to_nat idx) RB ltac:(lia)).
  destruct Hcut as [Hpv Hnx].
  assert (Hnull : hB !! NULL = None).
  { destruct (hB !! NULL) eqn:E; [|reflexivity].
    assert (Hs : is_Some (nodes m !! NULL)) by (apply HdB; eauto).
    rewrite (null_absent m W) in Hs. destruct Hs; discriminate. }
  split.
  { unfold insert_list, config.
    destruct (Z.ltb_spec idx (Z.of_nat (length ns)));
      destruct (Z.eqb_spec idx 0); destruct (Z.ltb_spec 0 idx); try lia;
      simpl; unfold cache_to; simpl; autorewrite with golist; simpl;
      autorewrite with golist; try reflexivity.
    rewrite Z.land_lor_distr_l. change (Z.land 2 1) with 0.
    rewrite Z.lor_0_r. autorewrite with golist. reflexivity. }
  split.
  { intros q Hq Hqn.
    destruct (decide (q = NULL)) as [->|Hqz].
    { rewrite (null_absent m W).
      destruct (link_node _ _ _ hB !! NULL) eqn:E; [|reflexivity].
      assert (Hs : is_Some (hB !! NULL))
        by (eapply (proj1 (link_node_dom _ _ _ _ _)); eauto).
      rewrite Hnull in Hs. destruct Hs; discriminate. }
    rewrite link_node_frame; [apply HfB, Hqn | exact Hqn | |].
    - intros ->. destruct Hpv as [E|Hin]; [contradiction|].
      apply Hq, elem_of_app. left. eapply elem_of_take_drop_l, Hin.
    - intros ->. destruct Hnx as [E|Hin]; [contradiction|].
      apply Hq, elem_of_app. left. eapply elem_of_take_drop_r, Hin. }
  split.
  { intros q. rewrite link_node_dom. apply HdB. }
  split.
  { intros q Hq. rewrite pay_link_node. unfold pay. rewrite HfB by exact Hq.
    reflexivity. }
  rewrite pay_link_node. unfold hB, pay. destruct v as [x|]; [|reflexivity].
  rewrite lookup_alter_eq. destruct Hdn as [nd ->]. reflexivity.
Qed.

Lemma mem_wf_same_dom m m' :
  mem_wf m -> brk m <= brk m' -> lim m' = lim m ->
  (forall q, is_Some (nodes m' !! q) -> is_Some (nodes m !! q)) ->
  mem_wf m'.
Proof.
  intros [W1 W2 W3] Hb Hl Hd. constructor; [lia | lia |].
  intros p nd Hp. destruct (Hd p) as [nd' Hnd']; [eauto|].
  apply W3 in Hnd'. lia.
Qed.

(** [clist_insert] when the pool has a node. *)
Lemma clist_insert_pool m lh l ns p ps idx v :
  mem_wf m -> lh <> NULL -> lists m !! lh = Some l ->
  rep (nodes m) l ns (p :: ps) -> 0 <= idx <= Z.of_nat (length ns) ->
  exists m',
    clist_insert lh idx v m = Ok EXIT_SUCCESS m' /\
    lstep lh m ns (p :: ps) m' (insert_at (Z.to_nat idx) p ns) ps /\
    vals (nodes m') (insert_at (Z.to_nat idx) p ns)
    = insert_at (Z.to_nat idx)
        (match v with Some x => x | None => pay (nodes m) p end)
        (vals (nodes m) ns) /\
    trace m' = trace m /\ brk m' = brk m.
Proof.
  intros W Hlh Hl R Hidx.
  destruct (pool_pop _ _ _ _ _ R) as (RA & (nd & Hnd & Hnx) & Hp & Hr).
  pose proof (rep_length_bound _ _ _ _ R) as Hb. simpl length in Hb.
  unfold clist_insert.
  destruct (Z.eqb_spec lh NULL) as [|_]; [contradiction|]. cbn [negb].
  erewrite bind_rd by exact Hl. rewrite (rep_size _ _ _ _ R).
  destruct (Z.leb_spec idx (Z.of_nat (length ns))) as [_|]; [|lia].
  erewrite bind_rd by exact Hl. rewrite (rep_zskb _ _ _ _ R). simpl length.
  destruct (Z.ltb_spec 0 (Z.of_nat (S (length ps)))) as [_|]; [|lia].
  rewrite bind_assoc. erewrite bind_rd by exact Hl.
  rewrite (rep_pkb _ _ _ _ R). simpl hd.
  rewrite bind_assoc. erewrite bind_load by exact Hnd.
  rewrite bind_assoc. erewrite bind_wr by exact Hl.
  rewrite bind_assoc. erewrite bind_wr by (simpl; apply lookup_insert_eq).
  rewrite bind_ret. rewrite Hnx.
  rewrite (wrap_small (Z.of_nat (S (length ps)) - 1)) by lia.
  replace (Z.of_nat (S (length ps)) - 1) with (Z.of_nat (length ps)) by lia.
  destruct (Z.eqb_spec p NULL) as [E|_]; [unfold NULL in E; lia|]. cbn [negb].
  set (lA := with_zskb (Z.of_nat (length ps)) (with_pkb (hd NULL ps) l)) in *.
  set (mA := set_lists _ (set_lists _ m)).
  assert (HlA : lists mA !! lh = Some lA)
    by (unfold mA; simpl; apply lookup_insert_eq).
  assert (WA : mem_wf mA) by (destruct W; constructor; assumption).
  destruct (insert_tail_run mA lh lA ns ps idx v p WA Hlh HlA RA Hidx Hp Hr)
    as (h' & l' & Hrun & R' & Hcfg & Hfr & Hdom & Hpay & Hpayn).
  { simpl. eauto. }
  rewrite Hrun. eexists. split; [reflexivity|]. split; [|split].
  - constructor; simpl.
    + apply (mem_wf_same_dom m); simpl; auto; try lia.
      intros q. apply Hdom.
    + lia.
    + reflexivity.
    + exists l, l'. split; [exact Hl|]. split.
      * rewrite !insert_insert_eq. reflexivity.
      * split; [exact R'|]. rewrite Hcfg. reflexivity.
    + intros q Hq _. apply Hfr.
      * intros Hin. apply Hq. rewrite elem_of_app in *.
        rewrite elem_of_cons. tauto.
      * intros ->. apply Hq. rewrite elem_of_app, elem_of_cons. auto.
    + intros q Hq. left. apply insert_at_fresh in Hq.
      rewrite elem_of_app in *. rewrite elem_of_cons. tauto.
  - simpl. rewrite (vals_insert_at (nodes m)).
    + rewrite Hpayn. reflexivity.
    + intros q Hq. apply Hpay. intros ->. apply Hp, elem_of_app. auto.
  - simpl. auto.
Qed.

Lemma malloc_node_ok sz m :
  mem_wf m -> brk m + Z.max 1 sz <= lim m ->
  malloc_node sz m
  = Ok (brk m)
       (set_nodes (<[brk m := raw_node m (brk m)]> (nodes m))
          (log (EvMalloc sz (brk m)) (set_brk (brk m + Z.max 1 sz) m))).
Proof.
  intros W Hl. unfold malloc_node, malloc, bind.
  destruct (Z.leb_spec (brk m + Z.max 1 sz) (lim m)); [|lia].
  pose proof (wf_brk m W).
  destruct (Z.eqb_spec (brk m) NULL) as [E|E]; [unfold NULL in E; lia|].
  reflexivity.
Qed.

Lemma malloc_node_fail sz m :
  lim m < brk m + Z.max 1 sz ->
  malloc_node sz m = Ok NULL (log (EvMalloc sz NULL) m).
Proof.
  intros Hl. unfold malloc_node, malloc, bind.
  destruct (Z.leb_spec (brk m + Z.max 1 sz) (lim m)); [lia|].
  reflexivity.
Qed.

(** [clist_insert] when the pool is empty and the allocator has room. *)
Lemma clist_insert_malloc m lh l ns idx v :
  mem_wf m -> lh <> NULL -> lists m !! lh = Some l ->
  rep (nodes m) l ns [] -> 0 <= idx <= Z.of_nat (length ns) ->
  brk m + Z.max 1 (wrap (sizeof_node + type_size l)) <= lim m ->
  exists m',
    clist_insert lh idx v m = Ok EXIT_SUCCESS m' /\
    lstep lh m ns [] m' (insert_at (Z.to_nat idx) (brk m) ns) [] /\
    vals (nodes m') (insert_at (Z.to_nat idx) (brk m) ns)
    = insert_at (Z.to_nat idx)
        (match v with Some x => x | None => payload (raw_node m (brk m)) end)
        (vals (nodes m) ns) /\
    trace m' = trace m ++ [EvMalloc (wrap (sizeof_node + type_size l)) (brk m)] /\
    brk m' = brk m + Z.max 1 (wrap (sizeof_node + type_size l)).
Proof.
  intros W Hlh Hl R Hidx Hroom.
  set (sz := wrap (sizeof_node + type_size l)) in *.
  unfold clist_insert.
  destruct (Z.eqb_spec lh NULL) as [|_]; [contradiction|]. cbn [negb].
  erewrite bind_rd by exact Hl. rewrite (rep_size _ _ _ _ R).
  destruct (Z.leb_spec idx (Z.of_nat (length ns))) as [_|]; [|lia].
  erewrite bind_rd by exact Hl. rewrite (rep_zskb _ _ _ _ R). simpl length.
  change (0 <? Z.of_nat 0) with false. cbv iota.
  rewrite bind_assoc. erewrite bind_rd by exact Hl. fold sz.
  erewrite bind_ok by (apply malloc_node_ok; assumption).
  pose proof (wf_brk m W) as Hb0. pose proof (wf_lim m W) as Hlim.
  destruct (Z.eqb_spec (brk m) NULL) as [E|_]; [unfold NULL in E; lia|].
  cbn [negb].
  set (mA := set_nodes _ (log _ (set_brk _ m))).
  assert (HlA : lists mA !! lh = Some l) by exact Hl.
  assert (Hfresh : forall q, is_Some (nodes m !! q) -> q <> brk m).
  { intros q [nd Hq] ->. apply (wf_nodes m W) in Hq. lia. }
  assert (Hn : brk m ∉ ns ++ []).
  { rewrite app_nil_r. intros Hin.
    destruct (dlseg_dom _ _ _ _ _ (rep_chain _ _ _ _ R) Hin) as [nd Hnd].
    apply (Hfresh (brk m)); eauto. }
  assert (WA : mem_wf mA).
  { destruct W as [W1 W2 W3]. constructor; simpl; [lia | lia |].
    intros p nd Hp. apply lookup_insert_Some in Hp as [[<- _]|[_ Hp]].
    - lia.
    - apply W3 in Hp. lia. }
  assert (RA : rep (nodes mA) l ns []).
  { apply (rep_ext (nodes m)); [|exact R]. intros q Hq. simpl.
    apply lookup_insert_ne. intros <-. contradiction. }
  destruct (insert_tail_run mA lh l ns [] idx v (brk m) WA Hlh HlA RA Hidx Hn)
    as (h' & l' & Hrun & R' & Hcfg & Hfr & Hdom & Hpay & Hpayn).
  { lia. }
  { simpl. rewrite lookup_insert_eq. eauto. }
  rewrite Hrun. eexists. split; [reflexivity|]. split; [|split].
  - constructor; simpl.
    + destruct WA as [W1 W2 W3]. constructor; simpl in *; auto.
      intros p nd Hp. assert (Hs : is_Some (h' !! p)) by eauto.
      apply Hdom in Hs as [nd' Hs]. eapply W3, Hs.
    + lia.
    + reflexivity.
    + exists l, l'. split; [exact Hl|]. split; [reflexivity|].
      split; [exact R'|exact Hcfg].
    + intros q Hq Hlt. rewrite Hfr; [|exact Hq | lia]. simpl.
      apply lookup_insert_ne. lia.
    + intros q Hq. apply insert_at_fresh in Hq as [->|Hq]; [right; lia|].
      left. exact Hq.
  - simpl. rewrite (vals_insert_at (nodes m)).
    + rewrite Hpayn. destruct v; [reflexivity|]. unfold pay. simpl.
      rewrite lookup_insert_eq. reflexivity.
    + intros q Hq. rewrite Hpay.
      * unfold pay. simpl. rewrite lookup_insert_ne; [reflexivity|].
        intros <-. apply Hn, elem_of_app. auto.
      * intros ->. apply Hn, elem_of_app. auto.
  - simpl. auto.
Qed.

(** [clist_insert] when the pool is empty and the allocator is out of
    room: the failure is reported and the list is untouched. *)
Lemma clist_insert_nomem m lh l ns idx v :
  lh <> NULL -> lists m !! lh = Some l ->
  rep (nodes m) l ns [] -> 0 <= idx <= Z.of_nat (length ns) ->
  lim m < brk m + Z.max 1 (wrap (sizeof_node + type_size l)) ->
  clist_insert lh idx v m
  = Ok EXIT_FAILURE (log (EvMalloc (wrap (sizeof_node + type_size l)) NULL) m).
Proof.
  intros Hlh Hl R Hidx Hroom.
  unfold clist_insert.
  destruct (Z.eqb_spec lh NULL) as [|_]; [contradiction|]. cbn [negb].
  erewrite bind_rd by exact Hl. rewrite (rep_size _ _ _ _ R).
  destruct (Z.leb_spec idx (Z.of_nat (length ns))) as [_|]; [|lia].
  erewrite bind_rd by exact Hl. rewrite (rep_zskb _ _ _ _ R). simpl length.
  change (0 <? Z.of_nat 0) with false. cbv iota.
  rewrite bind_assoc. erewrite bind_rd by exact Hl.
  erewrite bind_ok by (apply malloc_node_fail; assumption).
  reflexivity.
Qed.

(** [clist_insert] past the end: a failure, nothing done. *)
Lemma clist_insert_oob m lh l idx v :
  lh <> NULL -> lists m !! lh = Some l -> size l < idx ->
  clist_insert lh idx v m = Ok EXIT_FAILURE m.
Proof.
  intros Hlh Hl Hidx. unfold clist_insert.
  destruct (Z.eqb_spec lh NULL) as [|_]; [contradiction|]. cbn [negb].
  erewrite bind_rd by exact Hl.
  destruct (Z.leb_spec idx (size l)); [lia|]. reflexivity.
Qed.

(** * Erasure *)

Arguments pool_push : simpl nomatch.
Arguments pool_list : simpl nomatch.

Lemma pool_push_frame r top h q :
  q ∉ r -> pool_push r top h !! q = h !! q.
Proof.
  revert top h. induction r as [|p r IH]; intros top h Hq; [reflexivity|].
  simpl. rewrite IH by (intros Hin; apply Hq; right; exact Hin).
  apply lookup_alter_ne. intros ->. apply Hq. left.
Qed.

Lemma pool_push_dom r top h q :
  is_Some (pool_push r top h !! q) <-> is_Some (h !! q).
Proof.
  revert top h. induction r as [|p r IH]; intros top h; [reflexivity|].
  simpl. rewrite IH. apply lookup_alter_is_Some.
Qed.

Lemma pool_push_pay r top h q : pay (pool_push r top h) q = pay h q.
Proof.
  revert top h. induction r as [|p r IH]; intros top h; [reflexivity|].
  simpl. rewrite IH. apply pay_alter_next.
Qed.

Lemma pool_push_slseg r : forall ps h,
  slseg h ps -> NoDup (r ++ ps) -> (forall p, p ∈ r -> is_Some (h !! p)) ->
  slseg (pool_push r (hd NULL ps) h) (rev r ++ ps).
Proof.
  induction r as [|p r IH]; intros ps h Hp ND Hd; [exact Hp|].
  simpl. rewrite <- app_assoc. simpl.
  apply NoDup_cons in ND as [Hn ND].
  apply (IH (p :: ps)).
  - split.
    + destruct (Hd p) as [nd Hnd]; [left|].
      exists (with_next (hd NULL ps) nd).
      rewrite lookup_alter_eq, Hnd. auto.
    + apply (slseg_ext h); [|exact Hp]. intros q Hq.
      apply lookup_alter_ne. intros ->. apply Hn, elem_of_app. auto.
  - rewrite <- Permutation_middle. apply NoDup_cons. auto.
  - intros q Hq. rewrite lookup_alter_is_Some. apply Hd. right. exact Hq.
Qed.

Lemma pool_list_fields r : forall l,
  head (pool_list r l) = head l /\ tail (pool_list r l) = tail l /\
  rul (pool_list r l) = rul l /\ ruly (pool_list r l) = ruly l /\
  type_size (pool_list r l) = type_size l /\ size (pool_list r l) = size l /\
  flags (pool_list r l) = flags l /\
  pkb (pool_list r l) = List.last r (pkb l).
Proof.
  induction r as [|p r IH]; intros l; [simpl; tauto|].
  simpl pool_list. destruct (IH (with_zskb (wrap (zskb l + 1)) (with_pkb p l)))
    as (H1 & H2 & H3 & H4 & H5 & H6 & H7 & H8).
  rewrite H1, H2, H3, H4, H5, H6, H7, H8, last_cons. simpl. tauto.
Qed.

Lemma pool_list_zskb r : forall l,
  0 <= zskb l -> zskb l + Z.of_nat (length r) < SIZE_MOD ->
  zskb (pool_list r l) = zskb l + Z.of_nat (length r).
Proof.
  induction r as [|p r IH]; intros l H0 Hb; [simpl; lia|].
  simpl pool_list. simpl length in *. rewrite IH; simpl.
  - rewrite wrap_small by lia. lia.
  - rewrite wrap_small by lia. lia.
  - rewrite wrap_small by lia. lia.
Qed.

Lemma frees_cons h fl p r :
  frees h fl (p :: r)
  = (if negb (Z.land fl CLIST_PAYLOAD_FREE =? 0)
     then [EvFree (pay h p)] else []) ++ frees h fl r.
Proof. unfold frees. destruct (negb _); reflexivity. Qed.

Lemma frees_ext h h' fl r :
  (forall q, pay h' q = pay h q) -> frees h' fl r = frees h fl r.
Proof.
  intros E. unfold frees. destruct (negb _); [|reflexivity].
  apply map_ext. intros q. rewrite E. reflexivity.
Qed.

(** The loop of [clist_erase] over the run [r]. *)
Lemma erase_loop_run lh r : forall m l pvr nxr,
  lists m !! lh = Some l -> dlseg (nodes m) pvr r nxr -> NoDup r ->
  exists m',
    erase_loop (length r) lh (hd nxr r) m = Ok tt m' /\
    nodes m' = pool_push r (pkb l) (nodes m) /\
    lists m' = <[lh := pool_list r l]> (lists m) /\
    brk m' = brk m /\ lim m' = lim m /\
    raw_node m' = raw_node m /\ raw_list m' = raw_list m /\
    trace m' = trace m ++ frees (nodes m) (flags l) r.
Proof.
  induction r as [|p r IH]; intros m l pvr nxr Hl Hch ND.
  - exists m. simpl. rewrite insert_id by exact Hl.
    unfold frees. destruct (negb _); rewrite app_nil_r; auto 10.
  - destruct Hch as [(nd & Hnd & Hnx & _) Hch].
    apply NoDup_cons in ND as [Hp ND].
    simpl erase_loop. simpl hd.
    erewrite bind_load by exact Hnd.
    erewrite bind_rd by exact Hl.
    set (fr := negb (Z.land (flags l) CLIST_PAYLOAD_FREE =? 0)).
    set (tr' := if fr then [EvFree (payload nd)] else []).
    set (m0 := mk_mem (nodes m) (lists m) (brk m) (lim m) (trace m ++ tr')
                 (raw_node m) (raw_list m)).
    assert (Hfp : (if fr then free_payload (payload nd) else ret tt) m
                  = Ok tt m0).
    { unfold m0, tr', free_payload, emit, log, ret. destruct fr.
      - reflexivity.
      - rewrite app_nil_r. destruct m; reflexivity. }
    erewrite bind_ok by exact Hfp.
    assert (Hl0 : lists m0 !! lh = Some l) by exact Hl.
    erewrite bind_rd by exact Hl0.
    erewrite bind_upd_alter by (simpl; eauto).
    erewrite bind_wr by (simpl; exact Hl).
    erewrite bind_rd by (simpl; apply lookup_insert_eq).
    erewrite bind_wr by (simpl; apply lookup_insert_eq).
    simpl. rewrite insert_insert_eq.
    match goal with |- context [erase_loop _ _ _ ?mm] => set (m1 := mm) end.
    destruct (IH m1 (with_zskb (wrap (zskb l + 1)) (with_pkb p l)) p nxr)
      as (m' & Hrun & H1 & H2 & H3 & H4 & H5 & H6 & H7).
    { simpl. apply lookup_insert_eq. }
    { simpl. apply (dlseg_ext (nodes m)); [|exact Hch]. intros q Hq.
      apply lookup_alter_ne. intros ->. contradiction. }
    { exact ND. }
    rewrite Hnx. exists m'. split; [exact Hrun|].
    rewrite H1, H2, H3, H4, H5, H6, H7. simpl.
    rewrite insert_insert_eq. repeat split; auto.
    rewrite frees_cons, <- app_assoc. f_equal. f_equal.
    + unfold tr', fr, pay. rewrite Hnd. reflexivity.
    + apply frees_ext. intros q. apply pay_alter_next.
Qed.

Lemma pool_list_size r l : size (pool_list r l) = size l.
Proof. apply pool_list_fields. Qed.
Lemma pool_list_head r l : head (pool_list r l) = head l.
Proof. apply pool_list_fields. Qed.
Lemma pool_list_tail r l : tail (pool_list r l) = tail l.
Proof. apply pool_list_fields. Qed.
Lemma pool_list_rul r l : rul (pool_list r l) = rul l.
Proof. apply pool_list_fields. Qed.
Lemma pool_list_ruly r l : ruly (pool_list r l) = ruly l.
Proof. apply pool_list_fields. Qed.
Lemma pool_list_flags r l : flags (pool_list r l) = flags l.
Proof. apply pool_list_fields. Qed.
Lemma pool_list_type_size r l : type_size (pool_list r l) = type_size l.
Proof. apply pool_list_fields. Qed.

Hint Rewrite pool_list_size pool_list_head pool_list_tail pool_list_rul
  pool_list_ruly pool_list_flags pool_list_type_size : golist.

(** A chain cut in three: before the run, the run, after it. *)
Lemma cut3 {A} (i c : nat) (l : list A) :
  l = take i l ++ take c (drop i l) ++ drop (i + c) l.
Proof.
  rewrite <- (take_drop i l) at 1. f_equal.
  rewrite <- (take_drop c (drop i l)) at 1. f_equal.
  rewrite drop_drop. reflexivity.
Qed.

Lemma lookup_alter_null (h : gmap Z clist_node_t) f k :
  h !! NULL = None -> alter f k h !! NULL = None.
Proof.
  intros H. rewrite lookup_alter. case_decide; [subst; rewrite H|]; auto.
Qed.

Lemma frees_own h fl fl' r :
  Z.land fl' 1 = Z.land fl 1 -> frees h fl' r = frees h fl r.
Proof. intros E. unfold frees, CLIST_PAYLOAD_FREE. rewrite E. reflexivity. Qed.

Ltac erase_finish :=
  match goal with
  | H1 : nodes ?m3 = pool_push _ _ _, H2 : lists ?m3 = _, H3 : brk ?m3 = _,
    H4 : lim ?m3 = _, H5 : raw_node ?m3 = _, H6 : raw_list ?m3 = _,
    H7 : trace ?m3 = _, Hn : pool_push _ _ _ !! NULL = None |- _ =>
      eexists; split; [reflexivity|]; simpl;
      rewrite ?H1, ?H2, ?H3, ?H4, ?H5, ?H6, ?H7, ?insert_insert_eq;
      unfold cache_to; simpl; autorewrite with golist;
      rewrite ?(alter_absent _ NULL)
        by (repeat apply lookup_alter_null; exact Hn);
      repeat split; reflexivity
  end.

Ltac erase_tail :=
  match goal with
  | l2 := go_list _ _ _ |- _ => subst l2
  end;
  autorewrite with golist;
  match goal with
  | Hsz : size ?l = Z.of_nat (length ?ns) |- _ =>
      rewrite ?Hsz;
      match goal with
      | |- context [wrap (Z.of_nat (length ns) - ?count)] =>
          rewrite !(wrap_small (Z.of_nat (length ns) - count)) by lia;
          match goal with
          | |- context [wrap (Z.of_nat (length ns) - count - ?idx)] =>
              rewrite !(wrap_small (Z.of_nat (length ns) - count - idx)) by lia;
              destruct ((0 <? idx) && (1 <? Z.of_nat (length ns) - count - idx));
              [ steps; erase_finish
              | steps; autorewrite with golist;
                match goal with
                | |- context [idx <=? ?c] =>
                    destruct (idx <=? c); [steps; erase_finish | erase_finish]
                end ]
          end
      end
  end.

Lemma clist_erase_run m lh l ns ps idx count :
  mem_wf m -> lh <> NULL -> lists m !! lh = Some l ->
  rep (nodes m) l ns ps ->
  0 <= idx -> 0 < count -> idx + count <= Z.of_nat (length ns) ->
  exists m',
    clist_erase lh idx count m = Ok tt m' /\
    nodes m'
    = unlink_run (List.last (take (Z.to_nat idx) ns) NULL)
        (hd NULL (drop (Z.to_nat (idx + count)) ns))
        (pool_push (take (Z.to_nat count) (drop (Z.to_nat idx) ns)) (pkb l)
           (nodes m)) /\
    lists m' = <[lh := erase_list l ns idx count]> (lists m) /\
    brk m' = brk m /\ lim m' = lim m /\
    raw_node m' = raw_node m /\ raw_list m' = raw_list m /\
    trace m'
    = trace m ++ frees (nodes m) (flags l)
                   (take (Z.to_nat count) (drop (Z.to_nat idx) ns)).
Proof.
  intros W Hlh Hl R Hidx Hcount Hlen.
  pose proof (null_absent m W) as Hnull.
  pose proof (rep_size _ _ _ _ R) as Hsz.
  pose proof (rep_chain _ _ _ _ R) as Hch.
  pose proof (rep_length_bound _ _ _ _ R) as Hb.
  pose proof (rep_nodup _ _ _ _ R) as ND. apply NoDup_app in ND as [ND _].
  unfold clist_erase, erase_list.
  replace (Z.to_nat (idx + count)) with (Z.to_nat idx + Z.to_nat count)%nat
    by lia.
  remember (Z.to_nat idx) as i eqn:Ei. remember (Z.to_nat count) as c eqn:Ec.
  pose proof (cut3 i c ns) as Hcut.
  assert (Hla : length (take i ns) = i) by (apply length_take_le; lia).
  assert (Hlr : length (take c (drop i ns)) = c).
  { rewrite length_take_le; [reflexivity|]. rewrite length_drop. lia. }
  assert (Hlb : length (drop (i + c) ns) = (length ns - (i + c))%nat)
    by apply length_drop.
  assert (Hhr : hd NULL (take c (drop i ns)) = nth i ns NULL).
  { destruct c as [|c']; [lia|]. rewrite <- hd_drop.
    destruct (drop i ns); reflexivity. }
  assert (Hlastr : List.last (take c (drop i ns)) NULL
                   = nth (i + c - 1) ns NULL).
  { rewrite last_take by (rewrite length_drop; lia).
    destruct c as [|c']; [lia|].
    replace (i + S c' - 1)%nat with (i + c')%nat by lia.
    apply lookup_nth. rewrite lookup_drop. apply nth_lookup_Some.
    lia. }
  remember (take i ns) as a eqn:Ea.
  remember (take c (drop i ns)) as r eqn:Er.
  remember (drop (i + c) ns) as b eqn:Eb.
  rewrite Hcut in Hch, ND.
  apply dlseg_app in Hch as [Hcha Hch]. apply dlseg_app in Hch as [Hchr Hchb].
  assert (NDr : NoDup r).
  { apply NoDup_app in ND as (_ & _ & ND). apply NoDup_app in ND. tauto. }
  (* the guard *)
  destruct (Z.eqb_spec lh NULL) as [|_]; [contradiction|]. cbn [negb].
  erewrite bind_rd by exact Hl. rewrite Hsz.
  rewrite (wrap_small (idx + count)) by lia.
  destruct (Z.leb_spec (idx + count) (Z.of_nat (length ns))) as [_|]; [|lia].
  destruct (Z.ltb_spec 0 count) as [_|]; [|lia]. cbn [andb].
  (* the two ends of the run *)
  erewrite bind_ok by (apply (clist_go_ok m lh l ns ps); auto; lia).
  rewrite <- Ei.
  destruct (dlseg_lookup _ _ _ _ i (nth i ns NULL) (rep_chain _ _ _ _ R))
    as (nd & Hnd & _ & Hpv).
  { apply nth_lookup_Some. lia. }
  erewrite bind_load by exact Hnd.
  rewrite (wrap_small (idx + count - 1)) by lia.
  erewrite bind_ok.
  2:{ apply (clist_go_ok _ lh (go_list l ns idx) ns ps); simpl;
        [exact Hlh | apply lookup_insert_eq
        | apply rep_go_list; [exact R | lia] | lia]. }
  replace (Z.to_nat (idx + count - 1)) with (i + c - 1)%nat by lia.
  destruct (dlseg_lookup _ _ _ _ (i + c - 1)%nat (nth (i + c - 1) ns NULL)
              (rep_chain _ _ _ _ R)) as (ndl & Hndl & Hnx & _).
  { apply nth_lookup_Some. lia. }
  erewrite bind_load by exact Hndl.
  (* the loop *)
  set (l2 := go_list (go_list l ns idx) ns (idx + count - 1)).
  set (m2 := set_lists _ (set_lists _ m)).
  destruct (erase_loop_run lh r m2 l2 (List.last a NULL) (hd NULL b))
    as (m3 & Hrun & H1 & H2 & H3 & H4 & H5 & H6 & H7).
  { simpl. apply lookup_insert_eq. }
  { exact Hchr. }
  { exact NDr. }
  assert (Hhr' : hd (hd NULL b) r = nth i ns NULL).
  { rewrite <- Hhr. destruct r; [simpl in Hlr; lia | reflexivity]. }
  rewrite Hhr', Hlr in Hrun.
  replace (Z.to_nat count) with c by lia.
  erewrite bind_ok by exact Hrun.
  simpl in H1, H2, H3, H4, H5, H6, H7. rewrite insert_insert_eq in H2.
  unfold l2 in H1, H7. autorewrite with golist in H1.
  rewrite (frees_own _ (flags l)) in H7 by (autorewrite with golist; reflexivity).
  assert (Epv : prev nd = List.last a NULL).
  { rewrite Hpv, Ea, last_take by lia. reflexivity. }
  assert (Enx : next ndl = hd NULL b).
  { rewrite Hnx, Eb, hd_drop. f_equal. lia. }
  rewrite Epv, Enx. clear Hpv Hnx Epv Enx.
  assert (Hl3 : lists m3 !! lh = Some (pool_list r l2))
    by (rewrite H2; apply lookup_insert_eq).
  assert (Hd3 : forall q, is_Some (nodes m !! q) -> is_Some (nodes m3 !! q)).
  { intros q Hq. rewrite H1. apply pool_push_dom. exact Hq. }
  assert (Hnull3 : pool_push r (pkb l) (nodes m) !! NULL = None).
  { destruct (pool_push r (pkb l) (nodes m) !! NULL) eqn:E; [|reflexivity].
    assert (Hs : is_Some (nodes m !! NULL)).
    { apply (pool_push_dom r (pkb l)). eauto. }
    rewrite Hnull in Hs. destruct Hs; discriminate. }
  assert (Hpvz : idx <> 0 -> List.last a NULL <> NULL
                             /\ is_Some (nodes m3 !! List.last a NULL)).
  { intros Hi. rewrite Ea, last_take by lia.
    destruct i as [|j]; [lia|].
    destruct (rep_nth _ _ _ _ j R) as [Hz Hin]; [lia|]. split; [exact Hz|].
    apply Hd3. eapply dlseg_dom; [apply R | exact Hin]. }
  assert (Hpv0 : idx = 0 -> List.last a NULL = NULL).
  { intros Hi. rewrite Ea, last_take by lia.
    destruct i as [|j]; [reflexivity | lia]. }
  assert (Hnxz : idx + count <> Z.of_nat (length ns) ->
                 hd NULL b <> NULL /\ is_Some (nodes m3 !! hd NULL b)).
  { intros Hi. rewrite Eb, hd_drop.
    destruct (rep_nth _ _ _ _ (i + c)%nat R) as [Hz Hin]; [lia|].
    split; [exact Hz|].
    apply Hd3. eapply dlseg_dom; [apply R | exact Hin]. }
  assert (Hnx0 : idx + count = Z.of_nat (length ns) -> hd NULL b = NULL).
  { intros Hi. rewrite Eb, hd_drop. apply nth_overflow. lia. }
  unfold unlink_run.
  destruct (Z.eqb_spec idx 0) as [E0|E0];
    destruct (Z.eqb_spec (idx + count) (Z.of_nat (length ns))) as [E1|E1].
  - rewrite (Hpv0 E0), (Hnx0 E1). simpl.
    steps. erase_tail.
  - rewrite (Hpv0 E0). destruct (Hnxz E1) as [Hz Hs].
    destruct (Z.eqb_spec (hd NULL b) NULL) as [|_]; [contradiction|].
    simpl. steps. erase_tail.
  - rewrite (Hnx0 E1). destruct (Hpvz E0) as [Hz Hs].
    destruct (Z.eqb_spec (List.last a NULL) NULL) as [|_]; [contradiction|].
    simpl. steps. erase_tail.
  - destruct (Hnxz E1) as [Hz Hs]. destruct (Hpvz E0) as [Hz' Hs'].
    destruct (Z.eqb_spec (hd NULL b) NULL) as [|_]; [contradiction|].
    destruct (Z.eqb_spec (List.last a NULL) NULL) as [|_]; [contradiction|].
    simpl. steps. erase_tail.
Qed.

Lemma relink_same h h' ns :
  (forall p, p ∈ ns -> is_Some (h !! p) /\ h' !! p = h !! p) ->
  relink h h' ns None None.
Proof.
  intros E p Hin. destruct (E p Hin) as [[nd Hnd] Heq].
  exists nd, nd. rewrite Heq. repeat split; auto; case_decide; reflexivity.
Qed.

Lemma elem_of_rev {A} (x : A) (l : list A) : x ∈ rev l <-> x ∈ l.
Proof. rewrite !list_elem_of_In. symmetry. apply in_rev. Qed.

Lemma hd_rev_app {A} (r : list A) (ps : list A) (d : A) :
  hd d (rev r ++ ps) = List.last r (hd d ps).
Proof.
  revert ps. induction r as [|x r IH]; intros ps; [reflexivity|].
  simpl rev. rewrite <- app_assoc, IH, last_cons. reflexivity.
Qed.

Lemma cache_valid_cleared f l :
  cache_valid (with_flags (Z.land f 1) l) = false.
Proof.
  unfold cache_valid. simpl. rewrite <- Z.land_assoc.
  change (Z.land 1 2) with 0. rewrite Z.land_0_r. reflexivity.
Qed.

Lemma pay_unlink_run pv nx h q : pay (unlink_run pv nx h) q = pay h q.
Proof. unfold unlink_run. rewrite pay_alter_prev, pay_alter_next. reflexivity. Qed.

Lemma erase_rep h l ns ps idx count :
  rep h l ns ps -> h !! NULL = None ->
  0 <= idx -> 0 < count -> idx + count <= Z.of_nat (length ns) ->
  rep (unlink_run (List.last (take (Z.to_nat idx) ns) NULL)
         (hd NULL (drop (Z.to_nat (idx + count)) ns))
         (pool_push (take (Z.to_nat count) (drop (Z.to_nat idx) ns)) (pkb l) h))
      (erase_list l ns idx count)
      (erase_at (Z.to_nat idx) (Z.to_nat count) ns)
      (rev (take (Z.to_nat count) (drop (Z.to_nat idx) ns)) ++ ps).
Proof.
  intros R Hnull Hidx Hcount Hlen.
  pose proof (rep_size _ _ _ _ R) as Hsz.
  pose proof (rep_chain _ _ _ _ R) as Hch.
  pose proof (rep_length_bound _ _ _ _ R) as Hb.
  pose proof (rep_nodup _ _ _ _ R) as ND.
  pose proof (rep_range _ _ _ _ R) as RG.
  assert (R2 : rep h (go_list (go_list l ns idx) ns (idx + count - 1)) ns ps).
  { apply rep_go_list; [|lia]. apply rep_go_list; [exact R | lia]. }
  unfold erase_list, erase_at.
  replace (Z.to_nat (idx + count)) with (Z.to_nat idx + Z.to_nat count)%nat
    by lia.
  remember (Z.to_nat idx) as i eqn:Ei. remember (Z.to_nat count) as c eqn:Ec.
  pose proof (cut3 i c ns) as Hcut.
  assert (Hla : length (take i ns) = i) by (apply length_take_le; lia).
  assert (Hlr : length (take c (drop i ns)) = c).
  { rewrite length_take_le; [reflexivity|]. rewrite length_drop. lia. }
  assert (Hlb : length (drop (i + c) ns) = (length ns - (i + c))%nat)
    by apply length_drop.
  set (l2 := go_list (go_list l ns idx) ns (idx + count - 1)) in *.
  remember (take i ns) as a eqn:Ea.
  remember (take c (drop i ns)) as r eqn:Er.
  remember (drop (i + c) ns) as b eqn:Eb.
  match goal with |- rep _ ?L _ _ => set (lE := L) end.
  assert (Hz : forall q, q ∈ ns ++ ps -> q <> NULL)
    by (intros q; apply (rep_nonnull _ _ _ _ _ R)).
  assert (Hperm : (a ++ b) ++ rev r ++ ps ≡ₚ ns ++ ps).
  { rewrite Hcut. rewrite <- (Permutation_rev r).
    rewrite <- !app_assoc. apply Permutation_app_head.
    apply Permutation_app_swap_app. }
  assert (NDa : NoDup (a ++ r ++ b)).
  { apply NoDup_app in ND as [ND _]. rewrite <- Hcut. exact ND. }
  pose proof NDa as NDa'.
  apply NoDup_app in NDa' as (_ & Dar & NDrb).
  apply NoDup_app in NDrb as (NDr & Drb & _).
  set (pv := List.last a NULL). set (nx := hd NULL b).
  assert (Hpv : pv = NULL \/ pv ∈ a).
  { unfold pv. destruct a as [|x a']; [left; reflexivity|]. right.
    apply last_elem. }
  assert (Hnx : nx = NULL \/ nx ∈ b).
  { unfold nx. destruct b as [|x b']; [left; reflexivity|]. right. left. }
  assert (Hina : forall q, q ∈ a -> q ∈ ns ++ ps).
  { intros q Hq. rewrite Hcut, !elem_of_app. auto. }
  assert (Hinr : forall q, q ∈ r -> q ∈ ns ++ ps).
  { intros q Hq. rewrite Hcut, !elem_of_app. auto. }
  assert (Hinb : forall q, q ∈ b -> q ∈ ns ++ ps).
  { intros q Hq. rewrite Hcut, !elem_of_app. auto. }
  assert (Hinp : forall q, q ∈ ps -> q ∈ ns ++ ps).
  { intros q Hq. rewrite !elem_of_app. auto. }
  assert (Dab : forall q, q ∈ a -> q ∉ b).
  { intros q Hq Hq'. apply (Dar q Hq). rewrite elem_of_app. auto. }
  assert (Dar' : forall q, q ∈ a -> q ∉ r).
  { intros q Hq Hq'. apply (Dar q Hq). rewrite elem_of_app. auto. }
  assert (Dp : forall q, q ∈ ns -> q ∉ ps).
  { apply NoDup_app in ND as (_ & D & _). exact D. }
  assert (Hpv_out : (pv ∉ r) /\ (pv ∉ b) /\ (pv ∉ ps)).
  { destruct Hpv as [E|Hin].
    - repeat split; intros Hq; rewrite E in Hq;
        [apply Hinr in Hq | apply Hinb in Hq | apply Hinp in Hq];
        exact (Hz _ Hq eq_refl).
    - split; [exact (Dar' _ Hin)|]. split; [exact (Dab _ Hin)|].
      apply Dp. rewrite Hcut, elem_of_app. auto. }
  assert (Hnx_out : (nx ∉ a) /\ (nx ∉ r) /\ (nx ∉ ps)).
  { destruct Hnx as [E|Hin].
    - repeat split; intros Hq; rewrite E in Hq;
        [apply Hina in Hq | apply Hinr in Hq | apply Hinp in Hq];
        exact (Hz _ Hq eq_refl).
    - split; [intros Hq; exact (Dab _ Hq Hin)|].
      split; [intros Hq; exact (Drb _ Hq Hin)|].
      apply Dp. rewrite Hcut, !elem_of_app. auto. }
  destruct Hpv_out as (Hpvr & Hpvb & Hpvp).
  destruct Hnx_out as (Hnxa & Hnxr & Hnxp).
  assert (Hdom : forall q, q ∈ ns -> is_Some (h !! q))
    by (intros q; apply (dlseg_dom _ _ _ _ _ Hch)).
  assert (Hfields :
    head lE = (if idx =? 0 then nx else head l) /\
    tail lE = (if idx + count =? Z.of_nat (length ns) then pv else tail l) /\
    size lE = Z.of_nat (length ns) - count /\
    pkb lE = List.last r (pkb l) /\
    zskb lE = zskb l + Z.of_nat (length r)).
  { unfold lE. fold pv nx.
    assert (Hzs : zskb (pool_list r l2) = zskb l + Z.of_nat (length r)).
    { rewrite pool_list_zskb; unfold l2; autorewrite with golist;
        rewrite ?(rep_zskb _ _ _ _ R); lia. }
    assert (Hpk : pkb (pool_list r l2) = List.last r (pkb l)).
    { destruct (pool_list_fields r l2) as (_ & _ & _ & _ & _ & _ & _ & ->).
      unfold l2. autorewrite with golist. reflexivity. }
    destruct (Z.eqb_spec idx 0);
      destruct (Z.eqb_spec (idx + count) (Z.of_nat (length ns)));
      destruct ((0 <? idx) && (1 <? Z.of_nat (length ns) - count - idx));
      simpl; unfold cache_to; simpl;
      try match goal with |- context [idx <=? ?x] => destruct (idx <=? x) end;
      simpl; autorewrite with golist; rewrite ?Hzs, ?Hpk;
      unfold l2; autorewrite with golist; auto. }
  destruct Hfields as (F1 & F2 & F3 & F4 & F5).
  constructor.
  - rewrite F1, hd_app. destruct (Z.eqb_spec idx 0) as [E|E].
    + destruct a; [reflexivity | simpl in Hla; lia].
    + rewrite (rep_head _ _ _ _ R), Hcut, hd_app.
      destruct a; [simpl in Hla; lia | reflexivity].
  - rewrite F2, last_app.
    destruct (Z.eqb_spec (idx + count) (Z.of_nat (length ns))) as [E|E].
    + destruct b; [reflexivity | simpl in Hlb; lia].
    + rewrite (rep_tail _ _ _ _ R), Hcut, !last_app.
      destruct b; [simpl in Hlb; lia | rewrite !last_cons; reflexivity].
  - rewrite F3, length_app. lia.
  - rewrite F4, hd_rev_app, (rep_pkb _ _ _ _ R). reflexivity.
  - rewrite F5, length_app, length_rev, (rep_zskb _ _ _ _ R). lia.
  - (* the chain *)
    rewrite Hcut in Hch.
    apply (dlseg_unlink h _ a r b NDa Hch); unfold unlink_run; fold pv nx.
    + apply relink_alter_other; [exact Hnxa|].
      eapply relink_alter_next; [reflexivity|].
      apply relink_same. intros p Hp. split.
      * apply Hdom. rewrite Hcut, elem_of_app. auto.
      * apply pool_push_frame, Dar', Hp.
    + eapply relink_alter_prev; [reflexivity|].
      apply relink_alter_other; [exact Hpvb|].
      apply relink_same. intros p Hp. split.
      * apply Hdom. rewrite Hcut, !elem_of_app. auto.
      * apply pool_push_frame. intros Hq. exact (Drb _ Hq Hp).
  - (* the pool *)
    apply (slseg_ext (pool_push r (pkb l) h)).
    + intros q Hq. unfold unlink_run.
      assert (Hq' : q ∈ r \/ q ∈ ps).
      { apply elem_of_app in Hq as [Hq|Hq]; [left; apply elem_of_rev|right];
          exact Hq. }
      rewrite !lookup_alter_ne; [reflexivity | |].
      * intros E. rewrite <- E in Hq'. tauto.
      * intros E. rewrite <- E in Hq'. tauto.
    + rewrite (rep_pkb _ _ _ _ R). apply pool_push_slseg.
      * apply R.
      * apply NoDup_app. split; [exact NDr|]. split.
        -- intros q Hq. apply Dp. rewrite Hcut, !elem_of_app. auto.
        -- apply NoDup_app in ND. tauto.
      * intros q Hq. apply Hdom. rewrite Hcut, !elem_of_app. auto.
  - rewrite Hperm. exact ND.
  - rewrite Hperm. exact RG.
  - (* the cache *)
    assert (Hcache : forall l5,
      ruly l5 = ruly l2 -> rul l5 = rul l2 -> flags l5 = flags l2 ->
      let l6 := with_size (Z.of_nat (length ns) - count) l5 in
      let lF := if (0 <? idx) && (1 <? Z.of_nat (length ns) - count - idx)
                then cache_to nx idx l6
                else if idx <=? ruly l6
                     then with_flags (Z.land (flags l6) 1) l6 else l6 in
      cache_valid lF = true ->
      1 <= ruly lF /\ (a ++ b) !! Z.to_nat (ruly lF) = Some (rul lF)).
    { intros l5 G1 G2 G3. cbv zeta.
      destruct (Z.ltb_spec 0 idx) as [Hi0|Hi0];
        destruct (Z.ltb_spec 1 (Z.of_nat (length ns) - count - idx))
          as [Hi1|Hi1]; simpl.
      2,3,4:
        rewrite G1; destruct (Z.leb_spec idx (ruly l2)) as [Hc|Hc];
        [ intros V; rewrite cache_valid_cleared in V; discriminate
        | unfold cache_valid; simpl; rewrite G1, G2, G3;
          intros V; destruct (rep_cache _ _ _ _ R2 V) as [V1 V2];
          split; [exact V1|];
          apply lookup_app_l_Some; rewrite Ea, lookup_take_lt by lia;
          exact V2 ].
      intros _. unfold cache_to. simpl. split; [lia|].
      rewrite lookup_app_r by lia. rewrite Hla, <- Ei, Nat.sub_diag.
      unfold nx. destruct b; [simpl in Hlb; lia | reflexivity]. }
    unfold lE. fold pv nx.
    destruct (idx =? 0); destruct (idx + count =? Z.of_nat (length ns));
      apply Hcache; simpl; autorewrite with golist; reflexivity.
Qed.

Lemma erase_list_config l ns idx count :
  config (erase_list l ns idx count) = config l.
Proof.
  unfold erase_list, config.
  destruct (idx =? 0); destruct (idx + count =? Z.of_nat (length ns));
    destruct ((0 <? idx) && (1 <? Z.of_nat (length ns) - count - idx));
    simpl; unfold cache_to; simpl;
    try match goal with |- context [idx <=? ?x] => destruct (idx <=? x) end;
    simpl; autorewrite with golist;
    rewrite ?Z.land_lor_distr_l, <- ?Z.land_assoc;
    change (Z.land 2 1) with 0; change (Z.land 1 1) with 1;
    rewrite ?Z.lor_0_r; autorewrite with golist; reflexivity.
Qed.

Lemma vals_erase_at h h' (i c : nat) ns :
  (forall q, pay h' q = pay h q) ->
  vals h' (erase_at i c ns) = erase_at i c (vals h ns).
Proof.
  intros E. unfold vals, erase_at. rewrite map_app, firstn_map, skipn_map.
  f_equal; apply map_ext; exact E.
Qed.

(** [clist_erase] of a run that lies inside the list. *)
Lemma clist_erase_spec m lh l ns ps idx count :
  mem_wf m -> lh <> NULL -> lists m !! lh = Some l ->
  rep (nodes m) l ns ps ->
  0 <= idx -> 0 < count -> idx + count <= Z.of_nat (length ns) ->
  exists m',
    clist_erase lh idx count m = Ok tt m' /\
    lstep lh m ns ps m' (erase_at (Z.to_nat idx) (Z.to_nat count) ns)
      (rev (run_at (Z.to_nat idx) (Z.to_nat count) ns) ++ ps) /\
    (forall q, pay (nodes m') q = pay (nodes m) q) /\
    trace m' = trace m ++ frees (nodes m) (flags l)
                            (run_at (Z.to_nat idx) (Z.to_nat count) ns) /\
    brk m' = brk m.
Proof.
  intros W Hlh Hl R Hidx Hcount Hlen.
  destruct (clist_erase_run m lh l ns ps idx count W Hlh Hl R Hidx Hcount Hlen)
    as (m' & Hrun & H1 & H2 & H3 & H4 & H5 & H6 & H7).
  pose proof (erase_rep (nodes m) l ns ps idx count R (null_absent m W)
                Hidx Hcount Hlen) as R'.
  rewrite <- H1 in R'.
  assert (Hdom : forall q, is_Some (nodes m' !! q) <-> is_Some (nodes m !! q)).
  { intros q. rewrite H1. unfold unlink_run.
    rewrite !lookup_alter_is_Some. apply pool_push_dom. }
  exists m'. split; [exact Hrun|]. unfold run_at. split; [|split; [|split]].
  - constructor.
    + apply (mem_wf_same_dom m); auto; try lia. intros q. apply Hdom.
    + lia.
    + exact H4.
    + exists l, (erase_list l ns idx count). split; [exact Hl|].
      split; [exact H2|]. split; [exact R'|]. apply erase_list_config.
    + intros q Hq _.
      destruct (nodes m' !! q) as [nd|] eqn:E.
      * (* a live node outside the list is not touched *)
        assert (Hqz : q <> NULL).
        { intros ->. assert (Hs : is_Some (nodes m !! NULL))
            by (apply Hdom; eauto).
          rewrite (null_absent m W) in Hs. destruct Hs; discriminate. }
        rewrite <- E, H1. unfold unlink_run.
        destruct (cut_ends (nodes m) l ns ps (Z.to_nat idx) R ltac:(lia))
          as [Hpv _].
        destruct (cut_ends (nodes m) l ns ps (Z.to_nat (idx + count)) R
                    ltac:(lia)) as [_ Hnx].
        rewrite !lookup_alter_ne.
        -- apply pool_push_frame. intros Hin. apply Hq, elem_of_app. left.
           eapply elem_of_take_drop_r, elem_of_take_drop_l, Hin.
        -- intros Ek. destruct Hpv as [Hpv|Hpv]; [congruence|].
           apply Hq, elem_of_app. left. rewrite <- Ek.
           eapply elem_of_take_drop_l, Hpv.
        -- intros Ek. destruct Hnx as [Hnx|Hnx]; [congruence|].
           apply Hq, elem_of_app. left. rewrite <- Ek.
           eapply elem_of_take_drop_r, Hnx.
      * destruct (nodes m !! q) eqn:E'; [|reflexivity].
        assert (Hs : is_Some (nodes m' !! q)) by (apply Hdom; eauto).
        rewrite E in Hs. destruct Hs; discriminate.
    + intros q Hq. left.
      rewrite (cut3 (Z.to_nat idx) (Z.to_nat count) ns).
      unfold erase_at in Hq. rewrite !elem_of_app in *.
      rewrite elem_of_rev in Hq. tauto.
  - intros q. rewrite H1, pay_unlink_run. apply pool_push_pay.
  - exact H7.
  - exact H3.
Qed.

(** [clist_erase] when the guard fails: nothing is done. *)
Lemma clist_erase_noop m lh l idx count :
  lh <> NULL -> lists m !! lh = Some l ->
  count <= 0 \/ size l < wrap (idx + count) ->
  clist_erase lh idx count m = Ok tt m.
Proof.
  intros Hlh Hl Hg. unfold clist_erase.
  destruct (Z.eqb_spec lh NULL) as [|_]; [contradiction|]. cbn [negb].
  erewrite bind_rd by exact Hl.
  destruct (Z.leb_spec (wrap (idx + count)) (size l));
    destruct (Z.ltb_spec 0 count); try reflexivity. lia.
Qed.

(** * Element access *)

Lemma payload_ptr_back p : payload_ptr p - sizeof_node = p.
Proof. unfold payload_ptr. lia. Qed.

Lemma deref_payload_ptr m p :
  deref_payload m (payload_ptr p) = payload <$> (nodes m !! p).
Proof. unfold deref_payload. rewrite payload_ptr_back. reflexivity. Qed.

Lemma nth_vals h ns (i : nat) :
  (i < length ns)%nat -> nth i (vals h ns) 0 = pay h (nth i ns NULL).
Proof.
  intros Hi. unfold vals. rewrite (nth_indep _ 0 (pay h NULL)).
  - apply map_nth.
  - rewrite length_map. exact Hi.
Qed.

Lemma pay_lookup h p nd : h !! p = Some nd -> pay h p = payload nd.
Proof. intros H. unfold pay. rewrite H. reflexivity. Qed.

Lemma rep_lookup h l ns ps p :
  rep h l ns ps -> p ∈ ns ++ ps -> is_Some (h !! p).
Proof.
  intros R Hp. apply elem_of_app in Hp as [Hp|Hp].
  - destruct (dlseg_dom _ _ _ _ _ (rep_chain _ _ _ _ R) Hp) as [nd E]. eauto.
  - destruct (slseg_dom _ _ _ (rep_pool _ _ _ _ R) Hp) as [nd E]. eauto.
Qed.

Lemma list_inv_go m lh l ns ps idx :
  lh <> NULL -> rep (nodes m) l ns ps -> 0 <= idx < Z.of_nat (length ns) ->
  list_inv (set_lists (<[lh := go_list l ns idx]> (lists m)) m) lh ns ps.
Proof.
  intros Hlh R Hidx. split; [exact Hlh|]. eexists.
  split; [simpl; apply lookup_insert_eq|]. simpl. apply rep_go_list; assumption.
Qed.

Lemma clist_get_run m lh l ns ps idx :
  lh <> NULL -> lists m !! lh = Some l -> rep (nodes m) l ns ps ->
  0 <= idx < Z.of_nat (length ns) ->
  clist_get lh idx m
  = Ok (payload_ptr (nth (Z.to_nat idx) ns NULL))
       (set_lists (<[lh := go_list l ns idx]> (lists m)) m).
Proof.
  intros Hlh Hl R Hidx. unfold clist_get.
  erewrite bind_ok by (eapply clist_go_ok; eassumption). cbv beta.
  destruct (rep_nth _ _ _ _ (Z.to_nat idx) R) as [Hnz _]; [lia|].
  destruct (Z.eqb_spec (nth (Z.to_nat idx) ns NULL) NULL); [contradiction|].
  reflexivity.
Qed.

(** Overwriting a payload keeps every link. *)
Lemma set_payload_links h v p q :
  exists o, set_payload v p h !! q = o /\
            next <$> o = next <$> (h !! q) /\ prev <$> o = prev <$> (h !! q).
Proof.
  eexists. split; [reflexivity|]. unfold set_payload.
  destruct (decide (p = q)) as [->|N].
  - rewrite lookup_alter_eq. destruct (h !! q); split; reflexivity.
  - rewrite lookup_alter_ne by exact N. split; reflexivity.
Qed.

Lemma dlseg_set_payload h v p ns : forall pv nx,
  dlseg h pv ns nx -> dlseg (set_payload v p h) pv ns nx.
Proof.
  induction ns as [|q ns IH]; intros pv nx; simpl; [auto|].
  intros [(nd & E & Hn & Hp) D]. split; [|apply IH, D].
  destruct (set_payload_links h v p q) as (o & Eo & E1 & E2).
  rewrite E in E1, E2. destruct o as [nd'|]; [|discriminate].
  exists nd'. simpl in E1, E2. split; [exact Eo|]. split; congruence.
Qed.

Lemma slseg_set_payload h v p ps :
  slseg h ps -> slseg (set_payload v p h) ps.
Proof.
  induction ps as [|q ps IH]; simpl; [auto|].
  intros [(nd & E & Hn) D]. split; [|apply IH, D].
  destruct (set_payload_links h v p q) as (o & Eo & E1 & _).
  rewrite E in E1. destruct o as [nd'|]; [|discriminate].
  exists nd'. simpl in E1. split; [exact Eo|]. congruence.
Qed.

Lemma rep_set_payload h l ns ps v p :
  rep h l ns ps -> rep (set_payload v p h) l ns ps.
Proof.
  intros [H1 H2 H3 H4 H5 H6 H7 H8 H9 H10]. constructor; try assumption.
  - apply dlseg_set_payload, H6.
  - apply slseg_set_payload, H7.
Qed.

Lemma pay_set_payload_eq h v p :
  is_Some (h !! p) -> pay (set_payload v p h) p = v.
Proof.
  intros [nd E]. unfold pay, set_payload. rewrite lookup_alter_eq, E.
  reflexivity.
Qed.

Lemma pay_set_payload_ne h v p q :
  q <> p -> pay (set_payload v p h) q = pay h q.
Proof.
  intros N. unfold pay, set_payload. rewrite lookup_alter_ne by congruence.
  reflexivity.
Qed.

Lemma vals_set_payload h v p ns : forall (i : nat),
  NoDup ns -> ns !! i = Some p -> is_Some (h !! p) ->
  vals (set_payload v p h) ns = <[i := v]> (vals h ns).
Proof.
  induction ns as [|q ns IH]; intros i ND Hi Hp; [discriminate|].
  apply NoDup_cons in ND as [Hq ND]. destruct i as [|j]; simpl in *.
  - injection Hi as ->. f_equal; [apply pay_set_payload_eq, Hp|].
    apply vals_ext. intros r Hr. apply pay_set_payload_ne.
    intros ->. contradiction.
  - f_equal; [|apply IH; assumption].
    apply pay_set_payload_ne. intros ->.
    apply Hq. eapply list_elem_of_lookup_2. exact Hi.
Qed.

Lemma clist_set_run m lh l ns ps idx v :
  lh <> NULL -> lists m !! lh = Some l -> rep (nodes m) l ns ps ->
  0 <= idx < Z.of_nat (length ns) ->
  clist_set lh idx (Some v) m
  = Ok tt (set_nodes (set_payload v (nth (Z.to_nat idx) ns NULL) (nodes m))
             (set_lists (<[lh := go_list l ns idx]> (lists m)) m)).
Proof.
  intros Hlh Hl R Hidx. unfold clist_set.
  erewrite bind_ok by (eapply clist_go_ok; eassumption). cbv beta.
  destruct (rep_nth _ _ _ _ (Z.to_nat idx) R) as [Hnz Hin]; [lia|].
  destruct (Z.eqb_spec (nth (Z.to_nat idx) ns NULL) NULL); [contradiction|].
  cbn [negb]. erewrite bind_rd by (simpl; apply lookup_insert_eq).
  unfold memcpy_payload.
  rewrite upd_alter; [reflexivity|]. simpl.
  eapply rep_lookup; [exact R|]. apply elem_of_app. left. exact Hin.
Qed.

Lemma clist_set_out m lh l idx v :
  lh <> NULL -> lists m !! lh = Some l -> size l <= idx ->
  clist_set lh idx v m = Ok tt m.
Proof.
  intros Hlh Hl Hidx. destruct v as [v|]; [|reflexivity]. unfold clist_set.
  erewrite bind_ok by (eapply clist_go_out; eassumption). reflexivity.
Qed.

(** * Construction *)

Lemma own_bit dyn :
  dyn = CLIST_PAYLOAD_IGNORE \/ dyn = CLIST_PAYLOAD_FREE -> Z.land dyn 1 = dyn.
Proof. intros [->| ->]; reflexivity. Qed.

Lemma rep_fresh_list h old ts dyn : rep h (fresh_list old ts dyn) [] [].
Proof.
  constructor; try reflexivity; simpl; auto.
  - constructor.
  - unfold cache_valid, fresh_list; simpl.
    rewrite <- Z.land_assoc. change (Z.land 1 2) with 0. rewrite Z.land_0_r.
    discriminate.
Qed.

Lemma cache_valid_fresh_list old ts dyn :
  cache_valid (fresh_list old ts dyn) = false.
Proof.
  unfold cache_valid, fresh_list; simpl.
  rewrite <- Z.land_assoc. change (Z.land 1 2) with 0. rewrite Z.land_0_r.
  reflexivity.
Qed.

Lemma well_formed_own ts dyn :
  ~ malformed ts dyn ->
  dyn = CLIST_PAYLOAD_IGNORE \/ dyn = CLIST_PAYLOAD_FREE.
Proof.
  unfold malformed, CLIST_PAYLOAD_IGNORE, CLIST_PAYLOAD_FREE, sizeof_ptr. lia.
Qed.

(** * Steps of a list *)

Lemma lstep_inv lh m ns ps m' ns' ps' :
  lh <> NULL -> lstep lh m ns ps m' ns' ps' -> list_inv m' lh ns' ps'.
Proof.
  intros Hlh [_ _ _ (l & l' & Hl & Hl' & R & _) _ _]. split; [exact Hlh|].
  exists l'. split; [rewrite Hl'; apply lookup_insert_eq | exact R].
Qed.

Lemma lstep_list lh m ns ps m' ns' ps' l :
  lstep lh m ns ps m' ns' ps' -> lists m !! lh = Some l ->
  exists l', lists m' !! lh = Some l' /\ lists m' = <[lh := l']> (lists m) /\
             rep (nodes m') l' ns' ps' /\ config l' = config l.
Proof.
  intros [_ _ _ (l0 & l' & Hl & Hl' & R & C) _ _] E.
  rewrite E in Hl. injection Hl as <-. exists l'.
  split; [rewrite Hl'; apply lookup_insert_eq|]. auto.
Qed.

Lemma lstep_trans lh m ns ps m1 ns1 ps1 m2 ns2 ps2 :
  lstep lh m ns ps m1 ns1 ps1 -> lstep lh m1 ns1 ps1 m2 ns2 ps2 ->
  lstep lh m ns ps m2 ns2 ps2.
Proof.
  intros S1 S2.
  destruct S1 as [W1 B1 L1 (l & l1 & Hl & Hl1 & R1 & C1) F1 N1].
  destruct S2 as [W2 B2 L2 (l1' & l2 & Hl1' & Hl2 & R2 & C2) F2 N2].
  assert (l1' = l1) as ->.
  { rewrite Hl1, lookup_insert_eq in Hl1'. congruence. }
  constructor.
  - exact W2.
  - lia.
  - congruence.
  - exists l, l2. split; [exact Hl|]. split; [|split; [exact R2|congruence]].
    rewrite Hl2, Hl1. apply insert_insert_eq.
  - intros q Hq Hb. rewrite F2.
    + apply F1; assumption.
    + intros Hq1. destruct (N1 q Hq1) as [?|?]; [contradiction|lia].
    + lia.
  - intros q Hq. destruct (N2 q Hq) as [Hq1|?]; [|right; lia].
    destruct (N1 q Hq1) as [?|?]; [left; assumption|right; lia].
Qed.

(** A write to the list object alone, after a step. *)
Lemma lstep_wr lh m ns ps m1 ns1 ps1 l1 l2 :
  lstep lh m ns ps m1 ns1 ps1 -> lists m1 !! lh = Some l1 ->
  rep (nodes m1) l2 ns1 ps1 -> config l2 = config l1 ->
  lstep lh m ns ps (set_lists (<[lh := l2]> (lists m1)) m1) ns1 ps1.
Proof.
  intros [W1 B1 L1 (l & l1' & Hl & Hl1 & R1 & C1) F1 N1] E R2 C2.
  assert (l1' = l1) as ->.
  { rewrite Hl1, lookup_insert_eq in E. congruence. }
  constructor; simpl; try assumption.
  - destruct W1 as [? ? ?]. constructor; simpl; assumption.
  - exists l, l2. split; [exact Hl|]. split; [|split; [exact R2|congruence]].
    rewrite Hl1. apply insert_insert_eq.
Qed.

(** Forgetting the cache keeps the representation. *)
Lemma rep_uncache h l ns ps :
  rep h l ns ps -> rep h (with_flags (Z.land (flags l) 1) l) ns ps.
Proof.
  intros [H1 H2 H3 H4 H5 H6 H7 H8 H9 H10]. constructor; try assumption.
  intros Hv. rewrite cache_valid_cleared in Hv. discriminate.
Qed.

Lemma config_uncache l :
  config (with_flags (Z.land (flags l) 1) l) = config l.
Proof.
  unfold config; simpl. rewrite <- Z.land_assoc. reflexivity.
Qed.

(** * Insertion, from the pool or from the allocator *)

Lemma clist_insert_ok m lh l ns ps idx v :
  mem_wf m -> lh <> NULL -> lists m !! lh = Some l ->
  rep (nodes m) l ns ps -> 0 <= idx <= Z.of_nat (length ns) ->
  (ps = [] -> brk m + Z.max 1 (wrap (sizeof_node + type_size l)) <= lim m) ->
  exists m',
    clist_insert lh idx v m = Ok EXIT_SUCCESS m' /\
    lstep lh m ns ps m' (insert_at (Z.to_nat idx) (hd (brk m) ps) ns) (tl ps) /\
    vals (nodes m') (insert_at (Z.to_nat idx) (hd (brk m) ps) ns)
    = insert_at (Z.to_nat idx)
        (match v with
         | Some x => x
         | None => match ps with
                   | [] => payload (raw_node m (brk m))
                   | p :: _ => pay (nodes m) p
                   end
         end)
        (vals (nodes m) ns) /\
    trace m'
    = trace m ++ match ps with
                 | [] => [EvMalloc (wrap (sizeof_node + type_size l)) (brk m)]
                 | _ :: _ => []
                 end /\
    brk m'
    = brk m + match ps with
              | [] => Z.max 1 (wrap (sizeof_node + type_size l))
              | _ :: _ => 0
              end.
Proof.
  intros W Hlh Hl R Hidx Hroom. destruct ps as [|p ps].
  - destruct (clist_insert_malloc m lh l ns idx v W Hlh Hl R Hidx (Hroom eq_refl))
      as (m' & E & S & V & T & B).
    exists m'. simpl. auto.
  - destruct (clist_insert_pool m lh l ns p ps idx v W Hlh Hl R Hidx)
      as (m' & E & S & V & T & B).
    exists m'. simpl. rewrite app_nil_r, Z.add_0_r. auto.
Qed.

Lemma insert_at_end {A} (x : A) (l : list A) :
  insert_at (length l) x l = l ++ [x].
Proof.
  unfold insert_at. rewrite take_ge, drop_ge by lia. reflexivity.
Qed.

Lemma clist_push_back_eq m lh l ns ps v :
  lh <> NULL -> lists m !! lh = Some l -> rep (nodes m) l ns ps ->
  clist_push_back lh v m = clist_insert lh (Z.of_nat (length ns)) v m.
Proof.
  intros Hlh Hl R. unfold clist_push_back.
  destruct (Z.eqb_spec lh NULL); [contradiction|]. cbn [negb].
  erewrite bind_rd by exact Hl. rewrite (rep_size _ _ _ _ R). reflexivity.
Qed.

(** * Removal at the ends and of everything *)

Lemma clist_pop_back_eq m lh l ns ps :
  lh <> NULL -> lists m !! lh = Some l -> rep (nodes m) l ns ps -> ns <> [] ->
  clist_pop_back lh m = clist_erase lh (Z.of_nat (length ns) - 1) 1 m.
Proof.
  intros Hlh Hl R Hne. unfold clist_pop_back.
  destruct (Z.eqb_spec lh NULL); [contradiction|]. cbn [negb].
  erewrite bind_rd by exact Hl. rewrite (rep_size _ _ _ _ R).
  pose proof (rep_length_bound _ _ _ _ R).
  destruct ns; [contradiction|]. simpl length in *.
  rewrite wrap_small by lia. reflexivity.
Qed.

Lemma clist_clear_eq m lh l ns ps :
  lh <> NULL -> lists m !! lh = Some l -> rep (nodes m) l ns ps ->
  clist_clear lh m = clist_erase lh 0 (Z.of_nat (length ns)) m.
Proof.
  intros Hlh Hl R. unfold clist_clear.
  destruct (Z.eqb_spec lh NULL); [contradiction|]. cbn [negb].
  erewrite bind_rd by exact Hl. rewrite (rep_size _ _ _ _ R). reflexivity.
Qed.

Lemma erase_at_all {A} (l : list A) : erase_at 0 (length l) l = [].
Proof. unfold erase_at. simpl. apply drop_all. Qed.

Lemma run_at_all {A} (l : list A) : run_at 0 (length l) l = l.
Proof. unfold run_at. simpl. apply take_ge. lia. Qed.

Lemma erase_at_tail {A} (i : nat) (l : list A) :
  erase_at i (length l - i) l = take i l.
Proof.
  unfold erase_at. rewrite drop_ge by lia. apply app_nil_r.
Qed.

Lemma run_at_tail {A} (i : nat) (l : list A) :
  run_at i (length l - i) l = drop i l.
Proof. unfold run_at. apply take_ge. rewrite length_drop. lia. Qed.

(** [clist_clear] of a non-empty list. *)
Lemma clist_clear_spec m lh l ns ps :
  mem_wf m -> lh <> NULL -> lists m !! lh = Some l ->
  rep (nodes m) l ns ps -> ns <> [] ->
  exists m',
    clist_clear lh m = Ok tt m' /\
    lstep lh m ns ps m' [] (rev ns ++ ps) /\
    (forall q, pay (nodes m') q = pay (nodes m) q) /\
    trace m' = trace m ++ frees (nodes m) (flags l) ns /\
    brk m' = brk m.
Proof.
  intros W Hlh Hl R Hne.
  rewrite (clist_clear_eq m lh l ns ps Hlh Hl R).
  destruct (clist_erase_spec m lh l ns ps 0 (Z.of_nat (length ns)) W Hlh Hl R)
    as (m' & E & S & P & T & B); [lia| |lia|].
  { destruct ns; [contradiction|simpl; lia]. }
  rewrite Nat2Z.id in S, T. change (Z.to_nat 0) with 0%nat in S, T.
  rewrite erase_at_all, run_at_all in S. rewrite run_at_all in T.
  exists m'. auto.
Qed.

(** [clist_clear] of an empty list. *)
Lemma clist_clear_empty m lh l ps :
  lh <> NULL -> lists m !! lh = Some l -> rep (nodes m) l [] ps ->
  clist_clear lh m = Ok tt m.
Proof.
  intros Hlh Hl R. rewrite (clist_clear_eq m lh l [] ps Hlh Hl R).
  apply (clist_erase_noop m lh l); [assumption|assumption|]. left. simpl. lia.
Qed.

(** * Resizing *)

Lemma clist_resize_same m lh l :
  lh <> NULL -> lists m !! lh = Some l ->
  forall elem, clist_resize lh (size l) elem m = Ok EXIT_SUCCESS m.
Proof.
  intros Hlh Hl elem. unfold clist_resize.
  destruct (Z.eqb_spec lh NULL); [contradiction|]. cbn [negb].
  erewrite bind_rd by exact Hl. rewrite Z.eqb_refl. reflexivity.
Qed.

Lemma clist_resize_shrink m lh l ns ps new_size elem :
  mem_wf m -> lh <> NULL -> lists m !! lh = Some l ->
  rep (nodes m) l ns ps -> 0 <= new_size < Z.of_nat (length ns) ->
  exists m',
    clist_resize lh new_size elem m = Ok EXIT_SUCCESS m' /\
    lstep lh m ns ps m' (take (Z.to_nat new_size) ns)
      (rev (drop (Z.to_nat new_size) ns) ++ ps) /\
    (forall q, pay (nodes m') q = pay (nodes m) q) /\
    trace m' = trace m ++ frees (nodes m) (flags l)
                            (drop (Z.to_nat new_size) ns) /\
    brk m' = brk m.
Proof.
  intros W Hlh Hl R Hn.
  pose proof (rep_length_bound _ _ _ _ R) as Hb.
  unfold clist_resize.
  destruct (Z.eqb_spec lh NULL); [contradiction|]. cbn [negb].
  erewrite bind_rd by exact Hl. rewrite (rep_size _ _ _ _ R).
  destruct (Z.eqb_spec new_size (Z.of_nat (length ns))); [lia|]. cbn [negb].
  destruct (Z.ltb_spec new_size (Z.of_nat (length ns))); [|lia].
  rewrite wrap_small by lia.
  destruct (clist_erase_spec m lh l ns ps new_size
              (Z.of_nat (length ns) - new_size) W Hlh Hl R)
    as (m1 & E & S & P & T & B); [lia|lia|lia|].
  replace (Z.to_nat (Z.of_nat (length ns) - new_size))
    with (length ns - Z.to_nat new_size)%nat in S, T by lia.
  rewrite erase_at_tail, run_at_tail in S. rewrite run_at_tail in T.
  destruct (lstep_list _ _ _ _ _ _ _ l S Hl) as (l1 & Hl1 & _ & R1 & C1).
  erewrite bind_ok by exact E. cbv beta.
  erewrite bind_rd by exact Hl1.
  destruct (new_size <=? ruly l1).
  - rewrite !bind_assoc. erewrite bind_rd by exact Hl1.
    erewrite bind_wr by exact Hl1. rewrite ?bind_ret.
    eexists. split; [reflexivity|]. simpl.
    split; [|auto].
    eapply lstep_wr; [exact S | exact Hl1 | apply rep_uncache, R1
                     | apply config_uncache].
  - rewrite ?bind_ret. exists m1. auto.
Qed.

(** * Growing *)

Lemma drop_S_tl {A} (k : nat) (l : list A) : drop (S k) l = drop k (tl l).
Proof. destruct l; [destruct k|]; reflexivity. Qed.

Lemma vals_length h ns : length (vals h ns) = length ns.
Proof. unfold vals. apply length_map. Qed.

Lemma vals_app h a b : vals h (a ++ b) = vals h a ++ vals h b.
Proof. unfold vals. apply map_app. Qed.

Lemma node_block_pos l : 1 <= node_block l.
Proof. unfold node_block. lia. Qed.

Lemma node_block_config l l' : config l' = config l -> node_block l' = node_block l.
Proof. unfold config, node_block, node_bytes. intros H. congruence. Qed.

Lemma mallocs_config l l' b k :
  config l' = config l -> mallocs l' b k = mallocs l b k.
Proof.
  intros H. unfold mallocs, node_bytes. rewrite (node_block_config l l' H).
  unfold config in H. replace (type_size l') with (type_size l) by congruence.
  reflexivity.
Qed.

Lemma mallocs_S l b k :
  mallocs l b (S k)
  = EvMalloc (node_bytes l) b :: mallocs l (b + node_block l) k.
Proof.
  unfold mallocs. simpl seq. rewrite <- seq_shift. simpl map. rewrite map_map.
  f_equal.
  - f_equal. lia.
  - apply map_ext. intros j. f_equal. lia.
Qed.

Lemma resize_loop_run lh v : forall (k : nat) m l ns ps,
  mem_wf m -> lh <> NULL -> lists m !! lh = Some l -> rep (nodes m) l ns ps ->
  ((length ps < k)%nat ->
   brk m + Z.of_nat (k - length ps) * node_block l <= lim m) ->
  exists m' new,
    resize_loop k lh v EXIT_SUCCESS m = Ok EXIT_SUCCESS m' /\
    length new = k /\
    lstep lh m ns ps m' (ns ++ new) (drop k ps) /\
    (forall x, v = Some x ->
               vals (nodes m') (ns ++ new) = vals (nodes m) ns ++ repeat x k) /\
    brk m' = brk m + Z.of_nat (k - length ps) * node_block l /\
    trace m' = trace m ++ mallocs l (brk m) (k - length ps) /\
    ((k <= length ps)%nat -> new = take k ps).
Proof.
  induction k as [|k IH]; intros m l ns ps W Hlh Hl R Hroom.
  - exists m, []. simpl. rewrite !app_nil_r, drop_0.
    split; [reflexivity|]. split; [reflexivity|]. split.
    + constructor; try assumption; try lia; try reflexivity.
      * exists l, l. split; [exact Hl|]. split; [|auto].
        symmetry. apply insert_id, Hl.
      * auto.
    + split; [intros; reflexivity|]. split; [lia|]. split; reflexivity.
  - pose proof (node_block_pos l) as HB.
    destruct (clist_insert_ok m lh l ns ps (Z.of_nat (length ns)) v W Hlh Hl R)
      as (m1 & E & S & V & T & Bk); [lia| |].
    { intros ->. simpl in Hroom. fold (node_bytes l). fold (node_block l). nia. }
    fold (node_bytes l) in T, Bk. fold (node_block l) in Bk.
    rewrite Nat2Z.id in S, V. rewrite insert_at_end in S, V.
    destruct (lstep_list _ _ _ _ _ _ _ l S Hl) as (l1 & Hl1 & _ & R1 & C1).
    destruct (IH m1 l1 (ns ++ [hd (brk m) ps]) (tl ps) (ls_wf _ _ _ _ _ _ _ S)
                Hlh Hl1 R1) as (m2 & new & E2 & Hlen & S2 & V2 & B2 & T2 & N2).
    { rewrite (node_block_config l l1 C1), (ls_lim _ _ _ _ _ _ _ S), Bk.
      destruct ps as [|p ps]; simpl in *; intros;
        [|rewrite Z.add_0_r; apply Hroom; lia].
      specialize (Hroom ltac:(lia)). nia. }
    exists m2, (hd (brk m) ps :: new).
    split.
    { simpl. erewrite bind_rd by exact Hl. rewrite (rep_size _ _ _ _ R).
      erewrite bind_ok by exact E. exact E2. }
    split; [simpl; lia|].
    rewrite <- app_assoc in S2, V2. simpl in S2, V2.
    split; [rewrite drop_S_tl; eapply lstep_trans; eassumption|].
    split.
    { intros x ->. rewrite (V2 x eq_refl), V. unfold insert_at.
      rewrite take_ge, drop_ge by (rewrite vals_length; lia).
      rewrite <- app_assoc. reflexivity. }
    rewrite (node_block_config l l1 C1) in B2.
    rewrite (mallocs_config l l1 _ _ C1) in T2.
    rewrite B2, T2, Bk, T.
    destruct ps as [|p ps].
    + simpl length. rewrite !Nat.sub_0_r, mallocs_S, <- app_assoc.
      split; [lia|]. split; [reflexivity|]. intros Hk. lia.
    + simpl. rewrite app_nil_r, Z.add_0_r. split; [reflexivity|].
      split; [reflexivity|]. intros Hk. f_equal. apply N2. simpl. lia.
Qed.

Lemma clist_resize_grow m lh l ns ps new_size v :
  mem_wf m -> lh <> NULL -> lists m !! lh = Some l -> rep (nodes m) l ns ps ->
  Z.of_nat (length ns) < new_size < SIZE_MOD ->
  ((length ps < Z.to_nat (new_size - Z.of_nat (length ns)))%nat ->
   brk m + Z.of_nat (Z.to_nat (new_size - Z.of_nat (length ns)) - length ps)
           * node_block l <= lim m) ->
  exists m' new,
    clist_resize lh new_size v m = Ok EXIT_SUCCESS m' /\
    Z.of_nat (length (ns ++ new)) = new_size /\
    lstep lh m ns ps m' (ns ++ new)
      (drop (Z.to_nat (new_size - Z.of_nat (length ns))) ps) /\
    (forall x, v = Some x ->
       vals (nodes m') (ns ++ new)
       = vals (nodes m) ns
         ++ repeat x (Z.to_nat (new_size - Z.of_nat (length ns)))) /\
    brk m' = brk m
             + Z.of_nat (Z.to_nat (new_size - Z.of_nat (length ns)) - length ps)
               * node_block l /\
    trace m'
    = trace m ++ mallocs l (brk m)
                   (Z.to_nat (new_size - Z.of_nat (length ns)) - length ps) /\
    ((Z.to_nat (new_size - Z.of_nat (length ns)) <= length ps)%nat ->
     new = take (Z.to_nat (new_size - Z.of_nat (length ns))) ps).
Proof.
  intros W Hlh Hl R Hn Hroom.
  destruct (resize_loop_run lh v (Z.to_nat (new_size - Z.of_nat (length ns)))
              m l ns ps W Hlh Hl R Hroom)
    as (m' & new & E & Hlen & S & V & B & T & N).
  exists m', new. split.
  { unfold clist_resize.
    destruct (Z.eqb_spec lh NULL); [contradiction|]. cbn [negb].
    erewrite bind_rd by exact Hl. rewrite (rep_size _ _ _ _ R).
    destruct (Z.eqb_spec new_size (Z.of_nat (length ns))); [lia|]. cbn [negb].
    destruct (Z.ltb_spec new_size (Z.of_nat (length ns))); [lia|].
    rewrite wrap_small by lia. exact E. }
  split; [rewrite length_app; lia|]. auto.
Qed.

(** With an empty pool and no room for a node, growing fails at once and
    changes nothing but the record of the failed allocation. *)
Lemma clist_resize_nomem m lh l ns new_size v :
  lh <> NULL -> lists m !! lh = Some l -> rep (nodes m) l ns [] ->
  Z.of_nat (length ns) < new_size < SIZE_MOD ->
  lim m < brk m + node_block l ->
  clist_resize lh new_size v m
  = Ok EXIT_FAILURE (log (EvMalloc (node_bytes l) NULL) m).
Proof.
  intros Hlh Hl R Hn Hroom. unfold clist_resize.
  destruct (Z.eqb_spec lh NULL); [contradiction|]. cbn [negb].
  erewrite bind_rd by exact Hl. rewrite (rep_size _ _ _ _ R).
  destruct (Z.eqb_spec new_size (Z.of_nat (length ns))); [lia|]. cbn [negb].
  destruct (Z.ltb_spec new_size (Z.of_nat (length ns))); [lia|].
  rewrite wrap_small by lia.
  destruct (Z.to_nat (new_size - Z.of_nat (length ns))) as [|k] eqn:K; [lia|].
  simpl. erewrite bind_rd by exact Hl. rewrite (rep_size _ _ _ _ R).
  erewrite bind_ok.
  2:{ apply (clist_insert_nomem m lh l ns); try assumption. lia. }
  destruct k; reflexivity.
Qed.



(** * Releasing the pool *)

Lemma release_lookup ps : forall h q,
  release ps h !! q = if decide (q ∈ ps) then None else h !! q.
Proof.
  induction ps as [|p ps IH]; intros h q; simpl.
  - destruct (decide (q ∈ [])) as [Hq|_]; [inversion Hq|reflexivity].
  - rewrite IH. destruct (decide (q ∈ ps)) as [Hq|Hq].
    + rewrite decide_True by (right; exact Hq). reflexivity.
    + destruct (decide (q = p)) as [->|N].
      * rewrite decide_True by left. apply lookup_delete_eq.
      * rewrite decide_False.
        -- apply lookup_delete_ne. congruence.
        -- intros Hin. apply elem_of_cons in Hin as [?|?]; contradiction.
Qed.

Lemma shrink_loop_run ps : forall m (fuel : nat),
  slseg (nodes m) ps -> NoDup ps -> NULL ∉ ps -> (length ps <= fuel)%nat ->
  shrink_loop fuel (hd NULL ps) m
  = Ok tt (mk_mem (release ps (nodes m)) (lists m) (brk m) (lim m)
             (trace m ++ map EvFree ps) (raw_node m) (raw_list m)).
Proof.
  induction ps as [|p ps IH]; intros m fuel Hs ND Hn Hf.
  - destruct m. destruct fuel; simpl; rewrite app_nil_r; reflexivity.
  - destruct fuel as [|k]; [simpl in Hf; lia|].
    apply NoDup_cons in ND as [Hp ND]. destruct Hs as [(nd & E & Hnx) Hs].
    assert (p <> NULL) by (intros ->; apply Hn; left).
    simpl. destruct (Z.eqb_spec p NULL); [contradiction|]. cbn [negb].
    erewrite bind_load by exact E.
    unfold bind at 1, free_node. rewrite E. rewrite Hnx.
    rewrite IH.
    + simpl. rewrite <- app_assoc. reflexivity.
    + simpl. eapply slseg_ext; [|exact Hs]. intros q Hq.
      apply lookup_delete_ne. intros ->. contradiction.
    + exact ND.
    + intros Hin. apply Hn. right. exact Hin.
    + simpl in Hf. lia.
Qed.

Lemma length_le_size (h : gmap Z clist_node_t) (ps : list Z) :
  NoDup ps -> (forall p, p ∈ ps -> is_Some (h !! p)) ->
  (length ps <= base.size h)%nat.
Proof.
  intros ND Hdom.
  rewrite <- (size_list_to_set (C := gset Z) ps ND), <- (size_dom h).
  apply subseteq_size. intros p Hp. apply elem_of_list_to_set in Hp.
  apply elem_of_dom, Hdom, Hp.
Qed.

(** The list object once the pool is gone. *)
Lemma rep_no_pool h l ns ps :
  rep h l ns ps ->
  rep (release ps h) (with_zskb 0 (with_pkb NULL l)) ns [].
Proof.
  intros [H1 H2 H3 H4 H5 H6 H7 H8 H9 H10].
  apply NoDup_app in H8 as (ND1 & Hd & ND2).
  apply Forall_app in H9 as [F1 F2].
  constructor; simpl; try assumption; try reflexivity.
  - eapply dlseg_ext; [|exact H6]. intros p Hp. rewrite release_lookup.
    rewrite decide_False; [reflexivity|]. intros Hq. exact (Hd p Hp Hq).
  - rewrite app_nil_r. exact ND1.
  - rewrite app_nil_r. exact F1.
Qed.

Lemma clist_shrink_to_fit_spec m lh l ns ps :
  mem_wf m -> lh <> NULL -> lists m !! lh = Some l -> rep (nodes m) l ns ps ->
  exists m',
    clist_shrink_to_fit lh m = Ok tt m' /\
    lstep lh m ns ps m' ns [] /\
    nodes m' = release ps (nodes m) /\
    trace m' = trace m ++ map EvFree ps /\
    brk m' = brk m.
Proof.
  intros W Hlh Hl R. unfold clist_shrink_to_fit.
  destruct (Z.eqb_spec lh NULL); [contradiction|]. cbn [negb].
  erewrite bind_rd by exact Hl. rewrite (rep_pkb _ _ _ _ R).
  assert (ND : NoDup ps).
  { pose proof (rep_nodup _ _ _ _ R) as ND. apply NoDup_app in ND. tauto. }
  assert (Hnull : NULL ∉ ps).
  { intros Hin. eapply (rep_nonnull _ _ _ _ NULL R); [|reflexivity].
    apply elem_of_app. right. exact Hin. }
  assert (Hdom : forall p, p ∈ ps -> is_Some (nodes m !! p)).
  { intros p Hp. eapply rep_lookup; [exact R|]. apply elem_of_app. auto. }
  unfold bind at 1.
  rewrite (shrink_loop_run ps m (base.size (nodes m)) (rep_pool _ _ _ _ R) ND
             Hnull (length_le_size _ _ ND Hdom)).
  erewrite bind_wr by (simpl; exact Hl). simpl.
  erewrite wr_ok by (simpl; apply lookup_insert_eq). simpl.
  rewrite insert_insert_eq.
  eexists. split; [reflexivity|]. simpl. split; [|auto].
  constructor; simpl.
  - apply (mem_wf_same_dom m); simpl; [exact W|lia|reflexivity|].
    intros q. rewrite release_lookup. destruct (decide (q ∈ ps)); [|auto].
    intros [? ?]; discriminate.
  - lia.
  - reflexivity.
  - exists l, (with_zskb 0 (with_pkb NULL l)). split; [exact Hl|].
    split; [reflexivity|]. split; [apply rep_no_pool, R|reflexivity].
  - intros q Hq _. rewrite release_lookup. rewrite decide_False; [reflexivity|].
    intros Hin. apply Hq, elem_of_app. auto.
  - intros q Hq. left. rewrite app_nil_r in Hq. apply elem_of_app. auto.
Qed.

(** * Destruction *)

Lemma lstep_frame_all lh m ns ps m' ns' ps' :
  mem_wf m -> lstep lh m ns ps m' ns' ps' -> brk m' = brk m ->
  forall q, q ∉ ns ++ ps -> nodes m' !! q = nodes m !! q.
Proof.
  intros W S B q Hq. destruct (Z.lt_ge_cases q (brk m)) as [Hlt|Hge].
  - apply (ls_frame _ _ _ _ _ _ _ S); assumption.
  - destruct (nodes m' !! q) as [nd|] eqn:E1.
    { apply (wf_nodes _ (ls_wf _ _ _ _ _ _ _ S)) in E1. lia. }
    destruct (nodes m !! q) as [nd|] eqn:E2; [|reflexivity].
    apply (wf_nodes _ W) in E2. lia.
Qed.

Lemma frees_nil h fl : frees h fl [] = [].
Proof. unfold frees. destruct (negb _); reflexivity. Qed.

Lemma clist_destroy_spec m lh l ns ps :
  mem_wf m -> lh <> NULL -> lists m !! lh = Some l -> rep (nodes m) l ns ps ->
  exists m',
    clist_destroy lh m = Ok tt m' /\
    lstep lh m ns ps m' [] [] /\
    (forall q, nodes m' !! q
               = if decide (q ∈ ns ++ ps) then None else nodes m !! q) /\
    trace m' = trace m ++ frees (nodes m) (flags l) ns
                       ++ map EvFree (rev ns ++ ps) /\
    brk m' = brk m.
Proof.
  intros W Hlh Hl R. unfold clist_destroy.
  assert (Hin : forall q, q ∈ rev ns ++ ps <-> q ∈ ns ++ ps).
  { intros q. rewrite !elem_of_app, elem_of_rev. tauto. }
  destruct ns as [|n ns].
  - erewrite bind_ok by (eapply clist_clear_empty; eassumption).
    destruct (clist_shrink_to_fit_spec m lh l [] ps W Hlh Hl R)
      as (m' & E & S & N & T & B).
    exists m'. rewrite frees_nil. simpl. split; [exact E|]. split; [exact S|].
    split; [|auto]. intros q. rewrite N. apply release_lookup.
  - destruct (clist_clear_spec m lh l (n :: ns) ps W Hlh Hl R)
      as (m1 & E1 & S1 & P1 & T1 & B1); [discriminate|].
    destruct (lstep_list _ _ _ _ _ _ _ l S1 Hl) as (l1 & Hl1 & _ & R1 & C1).
    destruct (clist_shrink_to_fit_spec m1 lh l1 [] (rev (n :: ns) ++ ps)
                (ls_wf _ _ _ _ _ _ _ S1) Hlh Hl1 R1)
      as (m2 & E2 & S2 & N2 & T2 & B2).
    exists m2. erewrite bind_ok by exact E1. split; [exact E2|].
    split; [eapply lstep_trans; eassumption|].
    split; [|split; [rewrite T2, T1, <- app_assoc; reflexivity|congruence]].
    intros q. rewrite N2, release_lookup.
    destruct (decide (q ∈ rev (n :: ns) ++ ps)) as [Hq|Hq].
    + rewrite decide_True by (apply Hin, Hq). reflexivity.
    + rewrite decide_False by (intros Hq'; apply Hq, Hin, Hq').
      apply (lstep_frame_all _ _ _ _ _ _ _ W S1 B1).
      intros Hq'. apply Hq, Hin, Hq'.
Qed.

(** * Deleting the list object *)


(** * Visiting every element *)

Lemma foreach_nodes_dom f r : forall h q,
  is_Some (foreach_nodes f r h !! q) <-> is_Some (h !! q).
Proof.
  induction r as [|p r IH]; intros h q; simpl; [tauto|].
  rewrite IH. unfold set_payload. apply lookup_alter_is_Some.
Qed.

Lemma foreach_nodes_frame f r : forall h q,
  q ∉ r -> foreach_nodes f r h !! q = h !! q.
Proof.
  induction r as [|p r IH]; intros h q Hq; simpl; [reflexivity|].
  rewrite IH by (intros ?; apply Hq; right; assumption).
  unfold set_payload. apply lookup_alter_ne. intros ->. apply Hq. left.
Qed.

Lemma rep_foreach_nodes f r : forall h l ns ps,
  rep h l ns ps -> rep (foreach_nodes f r h) l ns ps.
Proof.
  induction r as [|p r IH]; intros h l ns ps R; simpl; [exact R|].
  apply IH, rep_set_payload, R.
Qed.

Lemma pay_foreach_nodes f r : forall h q,
  NoDup r -> (forall p, p ∈ r -> is_Some (h !! p)) ->
  pay (foreach_nodes f r h) q
  = if decide (q ∈ r) then f (pay h q) else pay h q.
Proof.
  induction r as [|p r IH]; intros h q ND Hdom; simpl.
  - destruct (decide (q ∈ [])) as [Hq|_]; [inversion Hq|reflexivity].
  - apply NoDup_cons in ND as [Hp ND].
    assert (Hp' : is_Some (h !! p)) by (apply Hdom; left).
    rewrite IH; [|exact ND|].
    2:{ intros x Hx. unfold set_payload. apply lookup_alter_is_Some, Hdom.
        right. exact Hx. }
    destruct (decide (q = p)) as [->|N].
    + rewrite decide_False by exact Hp. rewrite decide_True by left.
      apply pay_set_payload_eq, Hp'.
    + rewrite pay_set_payload_ne by exact N.
      destruct (decide (q ∈ r)) as [Hq|Hq].
      * rewrite decide_True by (right; exact Hq). reflexivity.
      * rewrite decide_False; [reflexivity|].
        intros Hin. apply elem_of_cons in Hin as [?|?]; contradiction.
Qed.

Lemma vals_foreach_nodes f h ns :
  NoDup ns -> (forall p, p ∈ ns -> is_Some (h !! p)) ->
  vals (foreach_nodes f ns h) ns = map f (vals h ns).
Proof.
  intros ND Hdom. unfold vals. rewrite map_map. apply map_ext_in.
  intros p Hp. apply list_elem_of_In in Hp.
  rewrite pay_foreach_nodes by assumption.
  rewrite decide_True by exact Hp. reflexivity.
Qed.

Lemma foreach_loop_run f ns : forall m pv (fuel : nat),
  dlseg (nodes m) pv ns NULL -> NoDup ns -> NULL ∉ ns ->
  (length ns <= fuel)%nat ->
  foreach_loop fuel f (hd NULL ns) m
  = Ok tt (mk_mem (foreach_nodes f ns (nodes m)) (lists m) (brk m) (lim m)
             (trace m ++ map (fun p => EvCall (payload_ptr p)) ns)
             (raw_node m) (raw_list m)).
Proof.
  induction ns as [|p ns IH]; intros m pv fuel Hd ND Hn Hf.
  - destruct m. destruct fuel; simpl; rewrite app_nil_r; reflexivity.
  - destruct fuel as [|k]; [simpl in Hf; lia|].
    apply NoDup_cons in ND as [Hp ND].
    destruct Hd as [(nd & E & Hnx & Hpv) Hd].
    assert (p <> NULL) by (intros ->; apply Hn; left).
    simpl. destruct (Z.eqb_spec p NULL); [contradiction|]. cbn [negb].
    erewrite bind_load by exact E.
    unfold bind at 1, emit.
    erewrite bind_upd by (simpl; exact E). rewrite Hnx.
    rewrite (IH _ p).
    + simpl. rewrite <- app_assoc.
      rewrite (insert_is_alter _ _ _ _ E), (pay_lookup _ _ _ E). reflexivity.
    + simpl. rewrite (insert_is_alter _ _ _ _ E).
      apply (dlseg_set_payload (nodes m) (f (payload nd)) p), Hd.
    + exact ND.
    + intros Hin. apply Hn. right. exact Hin.
    + simpl in Hf. lia.
Qed.

Lemma clist_foreach_spec m lh l ns ps f :
  mem_wf m -> lh <> NULL -> lists m !! lh = Some l -> rep (nodes m) l ns ps ->
  exists m',
    clist_foreach lh (Some f) m = Ok tt m' /\
    lstep lh m ns ps m' ns ps /\
    nodes m' = foreach_nodes f ns (nodes m) /\
    trace m' = trace m ++ map (fun p => EvCall (payload_ptr p)) ns /\
    brk m' = brk m.
Proof.
  intros W Hlh Hl R. unfold clist_foreach.
  destruct (Z.eqb_spec lh NULL); [contradiction|]. cbn [negb].
  erewrite bind_rd by exact Hl. rewrite (rep_head _ _ _ _ R).
  assert (ND : NoDup ns).
  { pose proof (rep_nodup _ _ _ _ R) as ND. apply NoDup_app in ND. tauto. }
  assert (Hnull : NULL ∉ ns).
  { intros Hin. eapply (rep_nonnull _ _ _ _ NULL R); [|reflexivity].
    apply elem_of_app. left. exact Hin. }
  assert (Hdom : forall p, p ∈ ns -> is_Some (nodes m !! p)).
  { intros p Hp. eapply rep_lookup; [exact R|]. apply elem_of_app. auto. }
  rewrite (foreach_loop_run f ns m NULL (S (base.size (nodes m)))
             (rep_chain _ _ _ _ R) ND Hnull).
  2:{ pose proof (length_le_size _ _ ND Hdom). lia. }
  eexists. split; [reflexivity|]. simpl. split; [|auto].
  constructor; simpl.
  - apply (mem_wf_same_dom m); simpl; [exact W|lia|reflexivity|].
    intros q. apply foreach_nodes_dom.
  - lia.
  - reflexivity.
  - exists l, l. split; [exact Hl|]. split; [symmetry; apply insert_id, Hl|].
    split; [apply rep_foreach_nodes, R|reflexivity].
  - intros q Hq _. apply foreach_nodes_frame. intros Hin. apply Hq.
    apply elem_of_app. auto.
  - auto.
Qed.

(** * Filtering *)

(** A step that touches the list object and the trace only. *)
Lemma lstep_self lh m l l' ns ps m2 :
  mem_wf m -> lists m !! lh = Some l -> rep (nodes m) l' ns ps ->
  config l' = config l ->
  nodes m2 = nodes m -> lists m2 = <[lh := l']> (lists m) ->
  brk m2 = brk m -> lim m2 = lim m ->
  lstep lh m ns ps m2 ns ps.
Proof.
  intros [W1 W2 W3] Hl R C Hn Hls Hb Hlim. constructor.
  - constructor; rewrite ?Hn, ?Hb, ?Hlim; assumption.
  - lia.
  - exact Hlim.
  - exists l, l'. rewrite Hn. auto.
  - intros q _ _. rewrite Hn. reflexivity.
  - auto.
Qed.

Lemma keeps_ext f h h' :
  (forall q, pay h' q = pay h q) -> forall p, keeps f h' p = keeps f h p.
Proof. intros H p. unfold keeps. rewrite H. reflexivity. Qed.

Lemma filter_events_ext f h h' fl fl' :
  (forall q, pay h' q = pay h q) -> Z.land fl' 1 = Z.land fl 1 ->
  forall p, filter_events f h' fl' p = filter_events f h fl p.
Proof.
  intros H Hf p. unfold filter_events.
  rewrite (keeps_ext f h h' H), (frees_own h' fl fl' [p] Hf), (frees_ext h h' fl [p] H).
  reflexivity.
Qed.

Lemma filter_events_eq f h fl p :
  filter_events f h fl p
  = EvCall (payload_ptr p) :: (if keeps f h p then [] else frees h fl [p]).
Proof. reflexivity. Qed.

Lemma flat_map_snoc_rev {A B} (g : A -> list B) (a : list A) (x : A) :
  flat_map g (rev (a ++ [x])) = g x ++ flat_map g (rev a).
Proof. rewrite rev_app_distr. reflexivity. Qed.

Lemma filter_loop_S k lh f i idx d :
  filter_loop (S k) lh f i idx d
  = bind (clist_go lh idx) (fun p =>
    bind (load_node p) (fun nd =>
    bind (emit (EvCall (payload_ptr p))) (fun _ =>
    if f (payload nd) =? 0 then
      bind (clist_erase lh idx 1) (fun _ =>
      filter_loop k lh f (wrap (i + 1)) (wrap (idx - 1)) i)
    else filter_loop k lh f (wrap (i + 1)) (wrap (idx - 1)) d))).
Proof. reflexivity. Qed.

Lemma snoc_length {A} (l : list A) (k : nat) :
  length l = S k -> exists l' x, l = l' ++ [x] /\ length l' = k.
Proof.
  intros H. destruct (exists_last (l := l)) as (l' & x & ->).
  { intros ->. discriminate. }
  exists l', x. split; [reflexivity|]. rewrite length_app in H. simpl in H. lia.
Qed.

Lemma nth_middle' {A} (a b : list A) (x d : A) :
  nth (length a) (a ++ x :: b) d = x.
Proof. induction a; simpl; auto. Qed.

Lemma erase_at_middle {A} (a b : list A) (x : A) :
  erase_at (length a) 1 (a ++ x :: b) = a ++ b.
Proof.
  unfold erase_at. rewrite take_app_length.
  replace (length a + 1)%nat with (length (a ++ [x])).
  - rewrite (cons_middle x a b), app_assoc. rewrite drop_app_length. reflexivity.
  - rewrite length_app. reflexivity.
Qed.

Lemma run_at_middle {A} (a b : list A) (x : A) :
  run_at (length a) 1 (a ++ x :: b) = [x].
Proof. unfold run_at. rewrite drop_app_length. reflexivity. Qed.

Lemma mem_wf_log e m : mem_wf m -> mem_wf (log e m).
Proof. intros [? ? ?]. constructor; assumption. Qed.

Lemma mem_wf_set_lists s m : mem_wf m -> mem_wf (set_lists s m).
Proof. intros [? ? ?]. constructor; assumption. Qed.

Lemma filter_loop_run lh f : forall (n : nat) m l front kept ps i del_idx,
  mem_wf m -> lh <> NULL -> lists m !! lh = Some l ->
  rep (nodes m) l (front ++ kept) ps -> length front = n ->
  exists m' d,
    filter_loop n lh f i (wrap (Z.of_nat n - 1)) del_idx m = Ok d m' /\
    lstep lh m (front ++ kept) ps m'
      (List.filter (keeps f (nodes m)) front ++ kept)
      (List.filter (fun p => negb (keeps f (nodes m) p)) front ++ ps) /\
    (forall q, pay (nodes m') q = pay (nodes m) q) /\
    trace m'
    = trace m ++ flat_map (filter_events f (nodes m) (flags l)) (rev front) /\
    brk m' = brk m.
Proof.
  induction n as [|k IH]; intros m l front kept ps i del_idx W Hlh Hl R Hlen.
  - destruct front; [|discriminate]. exists m, del_idx. simpl.
    rewrite app_nil_r. split; [reflexivity|]. split; [|auto].
    eapply lstep_self; try eassumption; try reflexivity.
    symmetry. apply insert_id, Hl.
  - destruct (snoc_length front k Hlen) as (front' & p & -> & Hk).
    pose proof (rep_length_bound _ _ _ _ R) as Hb.
    rewrite !length_app in Hb. simpl in Hb.
    replace (wrap (Z.of_nat (S k) - 1)) with (Z.of_nat k)
      by (rewrite wrap_small; lia).
    rewrite filter_loop_S.
    assert (Hidx : 0 <= Z.of_nat k < Z.of_nat (length ((front' ++ [p]) ++ kept))).
    { rewrite !length_app. simpl. lia. }
    set (chain := front' ++ p :: kept) in *.
    assert (Hchain : (front' ++ [p]) ++ kept = chain).
    { unfold chain. rewrite <- app_assoc. reflexivity. }
    rewrite Hchain in R, Hidx |- *.
    assert (Hnth : nth (Z.to_nat (Z.of_nat k)) chain NULL = p).
    { rewrite Nat2Z.id, <- Hk. apply nth_middle'. }
    erewrite bind_ok by (eapply clist_go_ok; eassumption). cbv beta.
    rewrite Hnth.
    set (l1 := go_list l chain (Z.of_nat k)).
    assert (R1 : rep (nodes m) l1 chain ps) by (apply rep_go_list; assumption).
    assert (C1 : config l1 = config l).
    { unfold config, l1. rewrite type_size_go_list, own_go_list. reflexivity. }
    assert (Hp : p ∈ chain).
    { unfold chain. apply elem_of_app. right. left. }
    destruct (rep_lookup _ _ _ _ p R) as [nd End].
    { apply elem_of_app. left. exact Hp. }
    erewrite bind_load by (simpl; exact End).
    unfold bind at 1, emit.
    rewrite <- (pay_lookup _ _ _ End).
    set (m2 := log (EvCall (payload_ptr p))
                 (set_lists (<[lh := l1]> (lists m)) m)).
    assert (W2 : mem_wf m2) by (apply mem_wf_log, mem_wf_set_lists, W).
    assert (Hl2 : lists m2 !! lh = Some l1) by (simpl; apply lookup_insert_eq).
    assert (S2 : lstep lh m chain ps m2 chain ps).
    { eapply (lstep_self lh m l l1); try eassumption; reflexivity. }
    rewrite flat_map_snoc_rev, filter_events_eq.
    rewrite !List.filter_app. simpl List.filter.
    assert (Hkp : keeps f (nodes m) p = negb (f (pay (nodes m) p) =? 0))
      by reflexivity.
    destruct (Z.eqb_spec (f (pay (nodes m) p)) 0) as [Hz|Hz];
      rewrite Hkp; cbn [negb].
    + destruct (clist_erase_spec m2 lh l1 chain ps (Z.of_nat k) 1 W2 Hlh Hl2 R1)
        as (m3 & E3 & S3 & P3 & T3 & B3); [lia|lia|lia|].
      rewrite Nat2Z.id in S3, T3. change (Z.to_nat 1) with 1%nat in S3, T3.
      unfold chain in S3 at 2 3, T3. rewrite <- Hk in S3, T3.
      rewrite erase_at_middle, run_at_middle in S3.
      rewrite run_at_middle in T3. simpl rev in S3. simpl app in S3.
      destruct (lstep_list _ _ _ _ _ _ _ l1 S3 Hl2) as (l3 & Hl3 & _ & R3 & C3).
      destruct (IH m3 l3 front' kept (p :: ps) (wrap (i + 1)) i
                  (ls_wf _ _ _ _ _ _ _ S3) Hlh Hl3 R3 Hk)
        as (m' & d & E & S & P & T & B).
      exists m', d. erewrite bind_ok by exact E3.
      split; [exact E|].
      assert (Hpay : forall q, pay (nodes m3) q = pay (nodes m) q)
        by (intros q; rewrite P3; reflexivity).
      rewrite (List.filter_ext _ _ (keeps_ext f (nodes m) (nodes m3) Hpay)) in S.
      rewrite (List.filter_ext (fun p0 => negb (keeps f (nodes m3) p0))
                 (fun p0 => negb (keeps f (nodes m) p0))) in S
        by (intros a; rewrite (keeps_ext f (nodes m) (nodes m3) Hpay); reflexivity).
      split.
      { rewrite app_nil_r, <- app_assoc. simpl app.
        eapply lstep_trans; [exact S2|]. eapply lstep_trans; [exact S3|exact S]. }
      split; [intros q; rewrite P, Hpay; reflexivity|].
      split; [|rewrite B, B3; reflexivity].
      rewrite T, T3. simpl trace.
      assert (Hown1 : Z.land (flags l1) 1 = Z.land (flags l) 1)
        by (unfold l1; apply own_go_list).
      assert (Hown3 : Z.land (flags l3) 1 = Z.land (flags l) 1)
        by (unfold config in C3, C1; congruence).
      rewrite (flat_map_ext _ _ (filter_events_ext f (nodes m) (nodes m3)
                                   (flags l) (flags l3) Hpay Hown3)).
      change (nodes m2) with (nodes m).
      rewrite (frees_own (nodes m) (flags l) (flags l1) [p] Hown1).
      rewrite <- !app_assoc. reflexivity.
    + rewrite <- Hchain in R1.
      rewrite <- app_assoc in R1. simpl app in R1.
      destruct (IH m2 l1 front' (p :: kept) ps (wrap (i + 1)) del_idx
                  W2 Hlh Hl2 R1 Hk)
        as (m' & d & E & S & P & T & B).
      exists m', d. split; [exact E|].
      change (nodes m2) with (nodes m) in S, P, T.
      split.
      { rewrite <- app_assoc. simpl app.
        rewrite app_nil_r. eapply lstep_trans; [exact S2|exact S]. }
      split; [exact P|]. split; [|exact B].
      rewrite T. simpl trace.
      assert (Hown1 : Z.land (flags l1) 1 = Z.land (flags l) 1)
        by (unfold l1; apply own_go_list).
      rewrite (flat_map_ext _ _ (filter_events_ext f (nodes m) (nodes m)
                                   (flags l) (flags l1) (fun q => eq_refl) Hown1)).
      rewrite <- !app_assoc. reflexivity.
Qed.

Lemma vals_filter f h ns :
  vals h (List.filter (keeps f h) ns)
  = List.filter (fun v => negb (f v =? 0)) (vals h ns).
Proof.
  induction ns as [|p ns IH]; [reflexivity|]. simpl.
  unfold keeps at 1. destruct (negb (f (pay h p) =? 0)); simpl; congruence.
Qed.

Lemma clist_filter_spec m lh l ns ps f :
  mem_wf m -> lh <> NULL -> lists m !! lh = Some l -> rep (nodes m) l ns ps ->
  exists m',
    clist_filter lh (Some f) m = Ok tt m' /\
    lstep lh m ns ps m'
      (List.filter (keeps f (nodes m)) ns)
      (List.filter (fun p => negb (keeps f (nodes m) p)) ns ++ ps) /\
    (forall q, pay (nodes m') q = pay (nodes m) q) /\
    trace m'
    = trace m ++ flat_map (filter_events f (nodes m) (flags l)) (rev ns) /\
    brk m' = brk m.
Proof.
  intros W Hlh Hl R. unfold clist_filter.
  destruct (Z.eqb_spec lh NULL); [contradiction|]. cbn [negb].
  erewrite bind_rd by exact Hl. rewrite (rep_size _ _ _ _ R), Nat2Z.id.
  rewrite <- (app_nil_r ns) in R.
  destruct (filter_loop_run lh f (length ns) m l ns [] ps 0
              (Z.of_nat (length ns)) W Hlh Hl R eq_refl)
    as (m1 & d & E & S & P & T & B).
  rewrite !app_nil_r in S.
  erewrite bind_ok by exact E. cbv beta.
  destruct (lstep_list _ _ _ _ _ _ _ l S Hl) as (l1 & Hl1 & _ & R1 & C1).
  erewrite bind_rd by exact Hl1.
  destruct (d <=? ruly l1).
  - erewrite bind_rd by exact Hl1. erewrite wr_ok by exact Hl1.
    eexists. split; [reflexivity|]. simpl. split; [|auto].
    eapply lstep_wr; [exact S | exact Hl1 | apply rep_uncache, R1
                     | apply config_uncache].
  - exists m1. auto.
Qed.

(** * Splicing *)

(** ** Statements with two forms *)

Lemma bind_wr_or_upd {B} (b : bool) lh f p g (k : unit -> M B) m l :
  lists m !! lh = Some l ->
  (b = true -> nodes m !! p = None) ->
  (b = false -> is_Some (nodes m !! p)) ->
  bind (if b then wr lh f else upd_node p g) k m
  = k tt (mk_mem (alter g p (nodes m)) (<[lh := if b then f l else l]> (lists m))
            (brk m) (lim m) (trace m) (raw_node m) (raw_list m)).
Proof.
  intros Hl H1 H2. destruct b.
  - erewrite bind_wr by exact Hl. rewrite alter_absent by auto. reflexivity.
  - erewrite bind_upd_alter by auto. unfold set_nodes.
    rewrite (insert_id _ _ _ Hl). destruct m; reflexivity.
Qed.

Lemma bind_upd_or_wr {B} (b : bool) lh f p g (k : unit -> M B) m l :
  lists m !! lh = Some l ->
  (b = true -> nodes m !! p = None) ->
  (b = false -> is_Some (nodes m !! p)) ->
  bind (if negb b then upd_node p g else wr lh f) k m
  = k tt (mk_mem (alter g p (nodes m)) (<[lh := if b then f l else l]> (lists m))
            (brk m) (lim m) (trace m) (raw_node m) (raw_list m)).
Proof.
  intros Hl H1 H2. rewrite <- (bind_wr_or_upd b lh f p g k m l Hl H1 H2).
  destruct b; reflexivity.
Qed.

Lemma maybe_uncache (b : bool) lh m l :
  lists m !! lh = Some l ->
  (if b then bind (rd lh flags) (fun fl => wr lh (with_flags (Z.land fl 1)))
   else ret tt) m
  = Ok tt (set_lists
             (<[lh := if b then with_flags (Z.land (flags l) 1) l else l]>
                (lists m)) m).
Proof.
  intros Hl. destruct b.
  - erewrite bind_rd by exact Hl. apply wr_ok, Hl.
  - rewrite set_lists_id by exact Hl. reflexivity.
Qed.

Lemma bind_null_or_go {B} (b : bool) lh idx (k : ptr -> M B) m l ns ps pv l' :
  lh <> NULL -> lists m !! lh = Some l -> rep (nodes m) l ns ps ->
  (b = true -> pv = NULL /\ l' = l) ->
  (b = false -> 0 <= idx < Z.of_nat (length ns) /\
                pv = nth (Z.to_nat idx) ns NULL /\ l' = go_list l ns idx) ->
  bind (if b then ret NULL else clist_go lh idx) k m
  = k pv (set_lists (<[lh := l']> (lists m)) m).
Proof.
  intros Hlh Hl R H1 H2. destruct b.
  - destruct (H1 eq_refl) as [-> ->]. rewrite bind_ret.
    rewrite set_lists_id by exact Hl. reflexivity.
  - destruct (H2 eq_refl) as (Hi & -> & ->).
    erewrite bind_ok by (eapply clist_go_ok; eassumption). reflexivity.
Qed.

Lemma bind_go_or_null {B} (b : bool) lh idx (k : ptr -> M B) m l ns ps nx l' :
  lh <> NULL -> lists m !! lh = Some l -> rep (nodes m) l ns ps ->
  (b = false -> nx = NULL /\ l' = l) ->
  (b = true -> 0 <= idx < Z.of_nat (length ns) /\
               nx = nth (Z.to_nat idx) ns NULL /\ l' = go_list l ns idx) ->
  bind (if b then clist_go lh idx else ret NULL) k m
  = k nx (set_lists (<[lh := l']> (lists m)) m).
Proof.
  intros Hlh Hl R H1 H2.
  rewrite <- (bind_null_or_go (negb b) lh idx k m l ns ps nx l' Hlh Hl R).
  - destruct b; reflexivity.
  - destruct b; [discriminate|]. intros _. auto.
  - destruct b; [|discriminate]. intros _. auto.
Qed.

(** ** Cutting a chain in three *)

Lemma cut_first {A} (i c : nat) (l : list A) (d : A) :
  (0 < c)%nat -> (i + c <= length l)%nat ->
  hd d (take c (drop i l)) = nth i l d.
Proof.
  intros Hc Hl. destruct c as [|c']; [lia|]. rewrite <- hd_drop.
  destruct (drop i l); reflexivity.
Qed.

Lemma cut_last {A} (i c : nat) (l : list A) (d : A) :
  (0 < c)%nat -> (i + c <= length l)%nat ->
  List.last (take c (drop i l)) d = nth (i + c - 1) l d.
Proof.
  intros Hc Hl. rewrite last_take by (rewrite length_drop; lia).
  destruct c as [|c']; [lia|].
  replace (i + S c' - 1)%nat with (i + c')%nat by lia.
  apply lookup_nth. rewrite lookup_drop. apply nth_lookup_Some. lia.
Qed.

Lemma lookup_null_alter (h : gmap Z clist_node_t) f k q :
  h !! q = None -> alter f k h !! q = None.
Proof. intros H. apply lookup_alter_None. exact H. Qed.

(** ** What [clist_splice] computes *)

Lemma clist_splice_run m src dst ls ld ns ps nd pd idx count pos :
  mem_wf m -> src <> NULL -> dst <> NULL -> src <> dst ->
  lists m !! src = Some ls -> lists m !! dst = Some ld ->
  rep (nodes m) ls ns ps -> rep (nodes m) ld nd pd ->
  (forall q, q ∈ ns -> q ∉ nd ++ pd) ->
  type_size ls = type_size ld -> Z.land (flags ls) 1 = Z.land (flags ld) 1 ->
  0 <= idx -> 0 < count -> idx + count <= Z.of_nat (length ns) ->
  0 <= pos <= Z.of_nat (length nd) ->
  Z.of_nat (length nd) + count < SIZE_MOD ->
  exists m',
    clist_splice src idx count dst pos m = Ok tt m' /\
    nodes m'
    = link_run (nth (Z.to_nat idx) ns NULL)
        (nth (Z.to_nat (idx + count - 1)) ns NULL)
        (List.last (take (Z.to_nat pos) nd) NULL)
        (hd NULL (drop (Z.to_nat pos) nd))
        (unlink_run (List.last (take (Z.to_nat idx) ns) NULL)
           (hd NULL (drop (Z.to_nat (idx + count)) ns)) (nodes m)) /\
    lists m'
    = <[dst := splice_dst_list ld nd pos count (nth (Z.to_nat idx) ns NULL)
                 (nth (Z.to_nat (idx + count - 1)) ns NULL)]>
        (<[src := splice_src_list ls ns idx count]> (lists m)) /\
    brk m' = brk m /\ lim m' = lim m /\
    raw_node m' = raw_node m /\ raw_list m' = raw_list m /\
    trace m' = trace m.
Proof.
  intros W Hs Hd Hsd Hls Hld Rs Rd Hdis Hts Hown Hidx Hcount Hlen Hpos Hsum.
  pose proof (null_absent m W) as Hnull.
  pose proof (rep_size _ _ _ _ Rs) as Hszs.
  pose proof (rep_size _ _ _ _ Rd) as Hszd.
  pose proof (rep_length_bound _ _ _ _ Rs) as Hbs.
  pose proof (rep_length_bound _ _ _ _ Rd) as Hbd.
  (* the nodes at the ends of the run and around it *)
  set (first := nth (Z.to_nat idx) ns NULL).
  set (last := nth (Z.to_nat (idx + count - 1)) ns NULL).
  set (pv0 := List.last (take (Z.to_nat idx) ns) NULL).
  set (nx0 := hd NULL (drop (Z.to_nat (idx + count)) ns)).
  set (pv1 := List.last (take (Z.to_nat pos) nd) NULL).
  set (nx1 := hd NULL (drop (Z.to_nat pos) nd)).
  destruct (dlseg_lookup _ _ _ _ (Z.to_nat idx) first (rep_chain _ _ _ _ Rs))
    as (fn & Hfn & _ & Hfp).
  { apply nth_lookup_Some. lia. }
  destruct (dlseg_lookup _ _ _ _ (Z.to_nat (idx + count - 1)) last
              (rep_chain _ _ _ _ Rs)) as (ln & Hln & Hlx & _).
  { apply nth_lookup_Some. lia. }
  assert (Epv : prev fn = pv0).
  { rewrite Hfp. unfold pv0. rewrite last_take by lia. reflexivity. }
  assert (Enx : next ln = nx0).
  { rewrite Hlx. unfold nx0. rewrite hd_drop. f_equal. lia. }
  assert (Hpv0 : (idx =? 0) = true -> nodes m !! pv0 = None).
  { intros E. apply Z.eqb_eq in E. unfold pv0. rewrite E. exact Hnull. }
  assert (Hpv0' : (idx =? 0) = false -> is_Some (nodes m !! pv0)).
  { intros E. apply Z.eqb_neq in E. unfold pv0. rewrite last_take by lia.
    destruct (Z.to_nat idx) as [|j] eqn:Ej; [lia|].
    destruct (rep_nth _ _ _ _ j Rs) as [_ Hin]; [lia|].
    eapply rep_lookup; [exact Rs|]. apply elem_of_app. auto. }
  assert (Hnx0 : (nx0 =? NULL) = true -> nodes m !! nx0 = None).
  { intros E. apply Z.eqb_eq in E. rewrite E. exact Hnull. }
  assert (Hnx0' : (nx0 =? NULL) = false -> is_Some (nodes m !! nx0)).
  { intros E. apply Z.eqb_neq in E. unfold nx0 in *. rewrite hd_drop in *.
    destruct (le_lt_dec (length ns) (Z.to_nat (idx + count))) as [Hge|Hlt].
    - rewrite nth_overflow in E by exact Hge. contradiction.
    - destruct (rep_nth _ _ _ _ (Z.to_nat (idx + count)) Rs) as [_ Hin];
        [exact Hlt|].
      eapply rep_lookup; [exact Rs|]. apply elem_of_app. auto. }
  assert (Hpv1 : (pv1 =? NULL) = true -> nodes m !! pv1 = None).
  { intros E. apply Z.eqb_eq in E. rewrite E. exact Hnull. }
  assert (Hpv1' : (pv1 =? NULL) = false -> is_Some (nodes m !! pv1)).
  { intros E. apply Z.eqb_neq in E. unfold pv1 in *.
    rewrite last_take in * by lia.
    destruct (Z.to_nat pos) as [|j] eqn:Ej; [contradiction|].
    destruct (rep_nth _ _ _ _ j Rd) as [_ Hin]; [lia|].
    eapply rep_lookup; [exact Rd|]. apply elem_of_app. auto. }
  assert (Hnx1 : (nx1 =? NULL) = true -> nodes m !! nx1 = None).
  { intros E. apply Z.eqb_eq in E. rewrite E. exact Hnull. }
  assert (Hnx1' : (nx1 =? NULL) = false -> is_Some (nodes m !! nx1)).
  { intros E. apply Z.eqb_neq in E. unfold nx1 in *. rewrite hd_drop in *.
    destruct (le_lt_dec (length nd) (Z.to_nat pos)) as [Hge|Hlt].
    - rewrite nth_overflow in E by exact Hge. contradiction.
    - destruct (rep_nth _ _ _ _ (Z.to_nat pos) Rd) as [_ Hin]; [exact Hlt|].
      eapply rep_lookup; [exact Rd|]. apply elem_of_app. auto. }
  (* the object of each list, step by step *)
  set (ls1 := go_list ls ns idx).
  set (ls2 := go_list ls1 ns (idx + count - 1)).
  set (ls3 := if idx =? 0 then with_head nx0 ls2 else ls2).
  set (ls4 := if nx0 =? NULL then with_tail pv0 ls3 else ls3).
  set (ls5 := with_size (Z.of_nat (length ns) - count) ls4).
  set (ls6 := if idx <=? ruly ls5
              then with_flags (Z.land (flags ls5) 1) ls5 else ls5).
  set (ld1 := if pos =? 0 then ld else go_list ld nd (pos - 1)).
  set (ld2 := if pos <? Z.of_nat (length nd) then go_list ld1 nd pos else ld1).
  set (ld3 := if pv1 =? NULL then with_head first ld2 else ld2).
  set (ld4 := if nx1 =? NULL then with_tail last ld3 else ld3).
  set (ld5 := with_size (Z.of_nat (length nd) + count) ld4).
  set (ld6 := if pos <=? ruly ld5
              then with_flags (Z.land (flags ld5) 1) ld5 else ld5).
  assert (Hsz4 : size ls4 = Z.of_nat (length ns)).
  { unfold ls4, ls3, ls2, ls1. destruct (nx0 =? NULL), (idx =? 0); simpl;
      autorewrite with golist; exact Hszs. }
  assert (Hsz1 : size ld1 = Z.of_nat (length nd)).
  { unfold ld1. destruct (pos =? 0); autorewrite with golist; exact Hszd. }
  assert (Hsz4d : size ld4 = Z.of_nat (length nd)).
  { unfold ld4, ld3, ld2. destruct (nx1 =? NULL), (pv1 =? NULL),
      (pos <? Z.of_nat (length nd)); simpl; autorewrite with golist;
      exact Hsz1. }
  assert (Rd' : rep (unlink_run pv0 nx0 (nodes m)) ld nd pd).
  { eapply rep_ext; [|exact Rd]. intros q Hq. unfold unlink_run.
    assert (Hq0 : q <> NULL) by (apply (rep_nonnull _ _ _ _ _ Rd), Hq).
    assert (Hqs : q ∉ ns) by (intros Hin; exact (Hdis q Hin Hq)).
    rewrite !lookup_alter_ne; [reflexivity| |].
    - intros E. destruct (idx =? 0) eqn:E0.
      + apply Z.eqb_eq in E0. unfold pv0 in E. rewrite E0 in E. simpl in E.
        congruence.
      + apply Hqs. rewrite <- E. unfold pv0.
        apply Z.eqb_neq in E0. rewrite last_take by lia.
        destruct (Z.to_nat idx) as [|j] eqn:Ej; [lia|].
        apply (rep_nth _ _ _ _ j Rs). lia.
    - intros E. unfold nx0 in E. rewrite hd_drop in E.
      destruct (le_lt_dec (length ns) (Z.to_nat (idx + count))) as [Hge|Hlt].
      + rewrite nth_overflow in E by exact Hge. congruence.
      + apply Hqs. rewrite <- E.
        apply (rep_nth _ _ _ _ (Z.to_nat (idx + count)) Rs). exact Hlt. }
  assert (Hgo1t : (pos =? 0) = true -> pv1 = NULL /\ ld1 = ld).
  { intros E. unfold pv1, ld1. rewrite E. apply Z.eqb_eq in E. rewrite E.
    split; reflexivity. }
  assert (Hgo1f : (pos =? 0) = false ->
            0 <= wrap (pos - 1) < Z.of_nat (length nd) /\
            pv1 = nth (Z.to_nat (wrap (pos - 1))) nd NULL /\
            ld1 = go_list ld nd (wrap (pos - 1))).
  { intros E. unfold pv1, ld1. rewrite E. apply Z.eqb_neq in E.
    rewrite wrap_small by lia. split; [lia|]. split; [|reflexivity].
    rewrite last_take by lia.
    destruct (Z.to_nat pos) as [|j] eqn:Ej; [lia|]. f_equal. lia. }
  assert (Rd1 : rep (unlink_run pv0 nx0 (nodes m)) ld1 nd pd).
  { unfold ld1. destruct (Z.eqb_spec pos 0); [exact Rd'|].
    apply rep_go_list; [exact Rd'|lia]. }
  assert (Hgo2f : (pos <? Z.of_nat (length nd)) = false ->
            nx1 = NULL /\ ld2 = ld1).
  { intros E. unfold nx1, ld2. rewrite E. apply Z.ltb_ge in E.
    split; [|reflexivity]. rewrite hd_drop. apply nth_overflow. lia. }
  assert (Hgo2t : (pos <? Z.of_nat (length nd)) = true ->
            0 <= pos < Z.of_nat (length nd) /\
            nx1 = nth (Z.to_nat pos) nd NULL /\ ld2 = go_list ld1 nd pos).
  { intros E. unfold nx1, ld2. rewrite E. apply Z.ltb_lt in E.
    split; [lia|]. split; [apply hd_drop|reflexivity]. }
  exists (mk_mem
            (link_run first last pv1 nx1 (unlink_run pv0 nx0 (nodes m)))
            (<[dst := ld6]> (<[src := ls6]> (lists m)))
            (brk m) (lim m) (trace m) (raw_node m) (raw_list m)).
  split; [|simpl; repeat split; reflexivity].
  unfold clist_splice.
  destruct (Z.eqb_spec src NULL); [contradiction|].
  destruct (Z.eqb_spec dst NULL); [contradiction|].
  destruct (Z.eqb_spec src dst); [contradiction|]. cbn [negb andb].
  erewrite bind_rd by exact Hls. rewrite Hszs.
  rewrite (wrap_small (idx + count)) by lia.
  destruct (Z.leb_spec (idx + count) (Z.of_nat (length ns))); [|lia].
  erewrite bind_rd by exact Hld. rewrite Hszd.
  destruct (Z.leb_spec pos (Z.of_nat (length nd))); [|lia].
  erewrite bind_rd by exact Hls. erewrite bind_rd by exact Hld.
  destruct (Z.eqb_spec (type_size ls) (type_size ld)); [|contradiction].
  erewrite bind_rd by exact Hls. erewrite bind_rd by exact Hld.
  destruct (Z.eqb_spec (Z.land (flags ls) 1) (Z.land (flags ld) 1));
    [|contradiction].
  destruct (Z.ltb_spec 0 count); [|lia]. cbn [andb].
  rewrite (wrap_small (idx + count - 1)) by lia.
  (* the source *)
  erewrite bind_ok by (apply (clist_go_ok m src ls ns ps); auto; lia).
  fold first ls1.
  erewrite bind_load by (simpl; exact Hfn).
  erewrite bind_ok.
  2:{ apply (clist_go_ok _ src ls1 ns ps); simpl;
        [exact Hs | apply lookup_insert_eq
        | apply rep_go_list; [exact Rs | lia] | lia]. }
  fold last ls2. unfold set_lists at 1 2. simpl.
  rewrite insert_insert_eq.
  erewrite bind_load by (simpl; exact Hln).
  rewrite Epv, Enx.
  erewrite (bind_wr_or_upd (idx =? 0) src) by
    (simpl; first [apply lookup_insert_eq | assumption]).
  simpl. rewrite insert_insert_eq. fold ls3.
  erewrite (bind_wr_or_upd (nx0 =? NULL) src) by
    (simpl; rewrite ?lookup_alter_is_Some;
     first [apply lookup_insert_eq
           | intros E; apply lookup_null_alter; auto
           | auto]).
  simpl. rewrite insert_insert_eq. fold ls4.
  fold (unlink_run pv0 nx0 (nodes m)).
  erewrite bind_rd by (simpl; apply lookup_insert_eq). rewrite Hsz4.
  rewrite (wrap_small (Z.of_nat (length ns) - count)) by lia.
  erewrite bind_wr by (simpl; apply lookup_insert_eq).
  unfold set_lists at 1. simpl. rewrite insert_insert_eq. fold ls5.
  erewrite bind_rd by (simpl; apply lookup_insert_eq).
  erewrite bind_ok by (apply maybe_uncache; simpl; apply lookup_insert_eq).
  unfold set_lists at 1. simpl. rewrite insert_insert_eq. fold ls6.
  (* the destination *)
  erewrite (bind_null_or_go (pos =? 0) dst (wrap (pos - 1)) _ _ ld nd pd pv1 ld1);
    [ | exact Hd | simpl; rewrite lookup_insert_ne by congruence; exact Hld
      | exact Rd' | exact Hgo1t | exact Hgo1f ].
  unfold set_lists at 1. simpl.
  erewrite bind_rd by (simpl; apply lookup_insert_eq). rewrite Hsz1.
  erewrite (bind_go_or_null (pos <? Z.of_nat (length nd)) dst pos _ _ ld1 nd pd
              nx1 ld2);
    [ | exact Hd | simpl; apply lookup_insert_eq
      | exact Rd1 | exact Hgo2f | exact Hgo2t ].
  unfold set_lists at 1. simpl. rewrite insert_insert_eq.
  erewrite bind_upd_alter by (simpl; unfold unlink_run;
                              rewrite ?lookup_alter_is_Some; eauto).
  erewrite bind_upd_alter by (simpl; unfold unlink_run;
                              rewrite ?lookup_alter_is_Some; eauto).
  unfold set_nodes at 1 2. simpl.
  erewrite (bind_upd_or_wr (pv1 =? NULL) dst) by
    (simpl; unfold unlink_run; rewrite ?lookup_alter_is_Some;
     first [apply lookup_insert_eq
           | intros E; repeat apply lookup_null_alter; auto
           | auto]).
  simpl. rewrite insert_insert_eq. fold ld3.
  erewrite (bind_upd_or_wr (nx1 =? NULL) dst) by
    (simpl; unfold unlink_run; rewrite ?lookup_alter_is_Some;
     first [apply lookup_insert_eq
           | intros E; repeat apply lookup_null_alter; auto
           | auto]).
  simpl. rewrite insert_insert_eq. fold ld4.
  erewrite bind_rd by (simpl; apply lookup_insert_eq). rewrite Hsz4d.
  rewrite (wrap_small (Z.of_nat (length nd) + count)) by lia.
  erewrite bind_wr by (simpl; apply lookup_insert_eq).
  unfold set_lists at 1. simpl. rewrite insert_insert_eq. fold ld5.
  erewrite bind_rd by (simpl; apply lookup_insert_eq).
  erewrite maybe_uncache by (simpl; apply lookup_insert_eq).
  unfold set_lists. simpl. rewrite insert_insert_eq. reflexivity.
Qed.

(** ** The source keeps a well-formed list *)

Lemma erase_at_sublist {A} (i c : nat) (l : list A) :
  erase_at i c l `sublist_of` l.
Proof.
  unfold erase_at. rewrite <- (take_drop i l) at 3.
  apply sublist_app; [reflexivity|].
  rewrite <- drop_drop. apply sublist_drop.
Qed.

Lemma sublist_elem_of {A} (l1 l2 : list A) (x : A) :
  l1 `sublist_of` l2 -> x ∈ l1 -> x ∈ l2.
Proof. intros H Hx. eapply sublist_subseteq; eassumption. Qed.

Lemma splice_src_rep h ls ns ps idx count first last pv1 nx1 :
  rep h ls ns ps -> h !! NULL = None ->
  0 <= idx -> 0 < count -> idx + count <= Z.of_nat (length ns) ->
  first ∈ run_at (Z.to_nat idx) (Z.to_nat count) ns ->
  last ∈ run_at (Z.to_nat idx) (Z.to_nat count) ns ->
  pv1 ∉ ns ++ ps -> nx1 ∉ ns ++ ps ->
  rep (link_run first last pv1 nx1
         (unlink_run (List.last (take (Z.to_nat idx) ns) NULL)
            (hd NULL (drop (Z.to_nat (idx + count)) ns)) h))
      (splice_src_list ls ns idx count)
      (erase_at (Z.to_nat idx) (Z.to_nat count) ns) ps.
Proof.
  intros R Hnull Hidx Hcount Hlen Hfirst Hlast Hpv1 Hnx1.
  pose proof (rep_size _ _ _ _ R) as Hsz.
  pose proof (rep_chain _ _ _ _ R) as Hch.
  pose proof (rep_length_bound _ _ _ _ R) as Hb.
  pose proof (rep_nodup _ _ _ _ R) as ND.
  pose proof (rep_range _ _ _ _ R) as RG.
  assert (R2 : rep h (go_list (go_list ls ns idx) ns (idx + count - 1)) ns ps).
  { apply rep_go_list; [|lia]. apply rep_go_list; [exact R | lia]. }
  unfold splice_src_list, erase_at, run_at in *.
  replace (Z.to_nat (idx + count)) with (Z.to_nat idx + Z.to_nat count)%nat
    by lia.
  remember (Z.to_nat idx) as i eqn:Ei. remember (Z.to_nat count) as c eqn:Ec.
  pose proof (cut3 i c ns) as Hcut.
  assert (Hla : length (take i ns) = i) by (apply length_take_le; lia).
  assert (Hlb : length (drop (i + c) ns) = (length ns - (i + c))%nat)
    by apply length_drop.
  set (l2 := go_list (go_list ls ns idx) ns (idx + count - 1)) in *.
  remember (take i ns) as a eqn:Ea.
  remember (take c (drop i ns)) as r eqn:Er.
  remember (drop (i + c) ns) as b eqn:Eb.
  match goal with |- rep _ ?L _ _ => set (lE := L) end.
  assert (Hz : forall q, q ∈ ns ++ ps -> q <> NULL)
    by (intros q; apply (rep_nonnull _ _ _ _ _ R)).
  assert (NDa : NoDup (a ++ r ++ b)).
  { apply NoDup_app in ND as [ND _]. rewrite <- Hcut. exact ND. }
  pose proof NDa as NDa'.
  apply NoDup_app in NDa' as (_ & Dar & NDrb).
  apply NoDup_app in NDrb as (NDr & Drb & _).
  set (pv := List.last a NULL). set (nx := hd NULL b).
  assert (Hpv : pv = NULL \/ pv ∈ a).
  { unfold pv. destruct a as [|x a']; [left; reflexivity|]. right.
    apply last_elem. }
  assert (Hnx : nx = NULL \/ nx ∈ b).
  { unfold nx. destruct b as [|x b']; [left; reflexivity|]. right. left. }
  assert (Hina : forall q, q ∈ a -> q ∈ ns ++ ps).
  { intros q Hq. rewrite Hcut, !elem_of_app. auto. }
  assert (Hinr : forall q, q ∈ r -> q ∈ ns ++ ps).
  { intros q Hq. rewrite Hcut, !elem_of_app. auto. }
  assert (Hinb : forall q, q ∈ b -> q ∈ ns ++ ps).
  { intros q Hq. rewrite Hcut, !elem_of_app. auto. }
  assert (Hinp : forall q, q ∈ ps -> q ∈ ns ++ ps).
  { intros q Hq. rewrite !elem_of_app. auto. }
  assert (Dab : forall q, q ∈ a -> q ∉ b).
  { intros q Hq Hq'. apply (Dar q Hq). rewrite elem_of_app. auto. }
  assert (Dar' : forall q, q ∈ a -> q ∉ r).
  { intros q Hq Hq'. apply (Dar q Hq). rewrite elem_of_app. auto. }
  assert (Dp : forall q, q ∈ ns -> q ∉ ps).
  { apply NoDup_app in ND as (_ & D & _). exact D. }
  assert (Hpv_out : (pv ∉ r) /\ (pv ∉ b) /\ (pv ∉ ps)).
  { destruct Hpv as [E|Hin].
    - repeat split; intros Hq; rewrite E in Hq;
        [apply Hinr in Hq | apply Hinb in Hq | apply Hinp in Hq];
        exact (Hz _ Hq eq_refl).
    - split; [exact (Dar' _ Hin)|]. split; [exact (Dab _ Hin)|].
      apply Dp. rewrite Hcut, elem_of_app. auto. }
  assert (Hnx_out : (nx ∉ a) /\ (nx ∉ r) /\ (nx ∉ ps)).
  { destruct Hnx as [E|Hin].
    - repeat split; intros Hq; rewrite E in Hq;
        [apply Hina in Hq | apply Hinr in Hq | apply Hinp in Hq];
        exact (Hz _ Hq eq_refl).
    - split; [intros Hq; exact (Dab _ Hq Hin)|].
      split; [intros Hq; exact (Drb _ Hq Hin)|].
      apply Dp. rewrite Hcut, !elem_of_app. auto. }
  destruct Hpv_out as (Hpvr & Hpvb & Hpvp).
  destruct Hnx_out as (Hnxa & Hnxr & Hnxp).
  assert (Hdom : forall q, q ∈ ns -> is_Some (h !! q))
    by (intros q; apply (dlseg_dom _ _ _ _ _ Hch)).
  assert (Hout : forall q, q ∈ a ++ b ++ ps ->
            q <> first /\ q <> last /\ q <> pv1 /\ q <> nx1).
  { intros q Hq.
    assert (Hq' : q ∈ ns ++ ps).
    { rewrite !elem_of_app in Hq. destruct Hq as [?|[?|?]]; auto. }
    assert (Hqr : q ∉ r).
    { rewrite !elem_of_app in Hq. destruct Hq as [Hq|[Hq|Hq]].
      - exact (Dar' _ Hq).
      - intros Hr. exact (Drb _ Hr Hq).
      - intros Hr. apply (Dp q); [|exact Hq]. rewrite Hcut, !elem_of_app. auto. }
    repeat split; intros ->; contradiction. }
  assert (Hnxnull : nx = NULL -> b = []).
  { intros E. destruct b as [|x b']; [reflexivity|].
    exfalso. apply (Hz x); [apply Hinb; left|exact E]. }
  assert (Hfields :
    head lE = (if idx =? 0 then nx else head ls) /\
    tail lE = (if nx =? NULL then pv else tail ls) /\
    size lE = Z.of_nat (length ns) - count /\
    pkb lE = pkb ls /\ zskb lE = zskb ls).
  { unfold lE. fold pv nx.
    destruct (Z.eqb_spec idx 0); destruct (nx =? NULL); simpl;
      match goal with |- context [idx <=? ?x] => destruct (idx <=? x) end;
      simpl; unfold l2; autorewrite with golist; auto. }
  destruct Hfields as (F1 & F2 & F3 & F4 & F5).
  constructor.
  - rewrite F1, hd_app. destruct (Z.eqb_spec idx 0) as [E|E].
    + destruct a; [reflexivity | simpl in Hla; lia].
    + rewrite (rep_head _ _ _ _ R), Hcut, hd_app.
      destruct a; [simpl in Hla; lia | reflexivity].
  - rewrite F2, last_app. destruct (Z.eqb_spec nx NULL) as [E|E].
    + rewrite (Hnxnull E). reflexivity.
    + rewrite (rep_tail _ _ _ _ R), Hcut, !last_app.
      destruct b; [contradiction | rewrite !last_cons; reflexivity].
  - rewrite F3, length_app. lia.
  - rewrite F4. apply R.
  - rewrite F5. apply R.
  - (* the chain *)
    rewrite Hcut in Hch.
    apply (dlseg_unlink h _ a r b NDa Hch); unfold link_run, unlink_run;
      fold pv nx.
    + do 4 (apply relink_alter_other;
            [intros Hq; destruct (Hout _ (proj2 (elem_of_app _ _ _) (or_introl Hq)))
               as (? & ? & ? & ?); congruence|]).
      apply relink_alter_other; [exact Hnxa|].
      eapply relink_alter_next; [reflexivity|].
      apply relink_refl. intros p Hp. apply Hdom.
      rewrite Hcut, elem_of_app. auto.
    + do 4 (apply relink_alter_other;
            [intros Hq;
             destruct (Hout _ (proj2 (elem_of_app _ _ _)
                                 (or_intror (proj2 (elem_of_app _ _ _) (or_introl Hq)))))
               as (? & ? & ? & ?); congruence|]).
      eapply relink_alter_prev; [reflexivity|].
      apply relink_alter_other; [exact Hpvb|].
      apply relink_refl. intros p Hp. apply Hdom.
      rewrite Hcut, !elem_of_app. auto.
  - (* the pool *)
    apply (slseg_ext h); [|apply R].
    intros q Hq. unfold link_run, unlink_run.
    destruct (Hout q) as (H1 & H2 & H3 & H4).
    { rewrite !elem_of_app. auto. }
    rewrite !lookup_alter_ne; congruence.
  - eapply sublist_NoDup; [exact ND|].
    apply sublist_app; [|reflexivity].
    rewrite Ea, Eb. apply (erase_at_sublist i c ns).
  - apply Forall_forall. intros q Hq.
    apply (proj1 (Forall_forall _ _) RG). apply elem_of_app in Hq as [Hq|Hq].
    + apply elem_of_app in Hq as [Hq|Hq]; [apply Hina|apply Hinb]; exact Hq.
    + apply Hinp, Hq.
  - (* the cache *)
    assert (Hcache : forall l5,
      ruly l5 = ruly l2 -> rul l5 = rul l2 -> flags l5 = flags l2 ->
      let l6 := with_size (Z.of_nat (length ns) - count) l5 in
      let lF := if idx <=? ruly l6
                then with_flags (Z.land (flags l6) 1) l6 else l6 in
      cache_valid lF = true ->
      1 <= ruly lF /\ (a ++ b) !! Z.to_nat (ruly lF) = Some (rul lF)).
    { intros l5 G1 G2 G3. cbv zeta. simpl.
      rewrite G1; destruct (Z.leb_spec idx (ruly l2)) as [Hc|Hc].
      - intros V; rewrite cache_valid_cleared in V; discriminate.
      - unfold cache_valid; simpl; rewrite G1, G2, G3.
        intros V; destruct (rep_cache _ _ _ _ R2 V) as [V1 V2].
        split; [exact V1|].
        apply lookup_app_l_Some; rewrite Ea, lookup_take_lt by lia.
        exact V2. }
    unfold lE. fold pv nx.
    destruct (idx =? 0); destruct (nx =? NULL);
      apply Hcache; simpl; reflexivity.
Qed.

(** ** The destination gets a well-formed list *)

Lemma splice_dst_rep h ld nd pd pos count r pvr nxr pv0 nx0 :
  rep h ld nd pd -> h !! NULL = None ->
  0 <= pos <= Z.of_nat (length nd) -> Z.of_nat (length r) = count ->
  0 < count ->
  dlseg h pvr r nxr -> NoDup r -> Forall (fun p => 0 < p < SIZE_MOD) r ->
  (forall q, q ∈ r -> q ∉ nd ++ pd) ->
  (forall q, q ∈ r ++ nd ++ pd -> q <> pv0 /\ q <> nx0) ->
  rep (link_run (hd NULL r) (List.last r NULL)
         (List.last (take (Z.to_nat pos) nd) NULL)
         (hd NULL (drop (Z.to_nat pos) nd))
         (unlink_run pv0 nx0 h))
      (splice_dst_list ld nd pos count (hd NULL r) (List.last r NULL))
      (take (Z.to_nat pos) nd ++ r ++ drop (Z.to_nat pos) nd) pd.
Proof.
  intros R Hnull Hpos Hlen Hcount Hrun NDr RGr Hdis Hout.
  pose proof (rep_size _ _ _ _ R) as Hsz.
  pose proof (rep_chain _ _ _ _ R) as Hch.
  pose proof (rep_nodup _ _ _ _ R) as ND.
  pose proof (rep_range _ _ _ _ R) as RG.
  assert (R1 : rep h (if pos =? 0 then ld else go_list ld nd (pos - 1)) nd pd).
  { destruct (Z.eqb_spec pos 0); [exact R|]. apply rep_go_list; [exact R|lia]. }
  assert (R2 : rep h (if pos <? Z.of_nat (length nd)
                      then go_list (if pos =? 0 then ld
                                    else go_list ld nd (pos - 1)) nd pos
                      else (if pos =? 0 then ld else go_list ld nd (pos - 1)))
                 nd pd).
  { destruct (Z.ltb_spec pos (Z.of_nat (length nd))); [|exact R1].
    apply rep_go_list; [exact R1|lia]. }
  unfold splice_dst_list.
  remember (Z.to_nat pos) as i eqn:Ei.
  pose proof (take_drop i nd) as Hcut. symmetry in Hcut.
  assert (Hlc : length (take i nd) = i) by (apply length_take_le; lia).
  assert (Hld : length (drop i nd) = (length nd - i)%nat) by apply length_drop.
  set (l2 := if pos <? Z.of_nat (length nd)
             then go_list (if pos =? 0 then ld else go_list ld nd (pos - 1))
                    nd pos
             else (if pos =? 0 then ld else go_list ld nd (pos - 1))) in *.
  remember (take i nd) as c eqn:Ec.
  remember (drop i nd) as d eqn:Ed.
  match goal with |- rep _ ?L _ _ => set (lE := L) end.
  set (first := hd NULL r). set (last := List.last r NULL).
  set (pv := List.last c NULL). set (nx := hd NULL d).
  assert (Hrne : r <> []) by (intros ->; simpl in Hlen; lia).
  assert (Hz : forall q, q ∈ nd ++ pd -> q <> NULL)
    by (intros q; apply (rep_nonnull _ _ _ _ _ R)).
  assert (Hfirst : first ∈ r).
  { unfold first. destruct r; [contradiction|left]. }
  assert (Hlast : last ∈ r).
  { unfold last. destruct r; [contradiction|apply last_elem]. }
  assert (Hpv : pv = NULL /\ c = [] \/ pv ∈ c).
  { unfold pv. destruct c as [|x c']; [left; auto|]. right. apply last_elem. }
  assert (Hnx : nx = NULL /\ d = [] \/ nx ∈ d).
  { unfold nx. destruct d as [|x d']; [left; auto|]. right. left. }
  assert (Hinc : forall q, q ∈ c -> q ∈ nd ++ pd).
  { intros q Hq. rewrite Hcut, !elem_of_app. auto. }
  assert (Hind : forall q, q ∈ d -> q ∈ nd ++ pd).
  { intros q Hq. rewrite Hcut, !elem_of_app. auto. }
  assert (Hinp : forall q, q ∈ pd -> q ∈ nd ++ pd).
  { intros q Hq. rewrite !elem_of_app. auto. }
  assert (NDcd : NoDup (c ++ d)).
  { apply NoDup_app in ND as [ND _]. rewrite <- Hcut. exact ND. }
  pose proof NDcd as NDcd'. apply NoDup_app in NDcd' as (NDc & Dcd & NDd).
  assert (Dp : forall q, q ∈ nd -> q ∉ pd).
  { apply NoDup_app in ND as (_ & D & _). exact D. }
  assert (Hpvnull : pv = NULL -> c = []).
  { intros E. destruct Hpv as [[_ ?]|Hin]; [assumption|].
    exfalso. apply (Hz pv); [apply Hinc, Hin|exact E]. }
  assert (Hnxnull : nx = NULL -> d = []).
  { intros E. destruct Hnx as [[_ ?]|Hin]; [assumption|].
    exfalso. apply (Hz nx); [apply Hind, Hin|exact E]. }
  assert (Hr_out : forall q, q ∈ r -> q <> pv /\ q <> nx /\ q <> NULL).
  { intros q Hq. repeat split.
    - intros ->. destruct Hpv as [[E _]|Hin].
      + apply (proj1 (Forall_forall _ _) RGr) in Hq. rewrite E in Hq.
        unfold NULL in Hq. lia.
      + exact (Hdis _ Hq (Hinc _ Hin)).
    - intros ->. destruct Hnx as [[E _]|Hin].
      + apply (proj1 (Forall_forall _ _) RGr) in Hq. rewrite E in Hq.
        unfold NULL in Hq. lia.
      + exact (Hdis _ Hq (Hind _ Hin)).
    - intros ->. apply (proj1 (Forall_forall _ _) RGr) in Hq.
      unfold NULL in Hq. lia. }
  assert (Hc_out : forall q, q ∈ c ->
            q <> first /\ q <> last /\ q <> nx /\ q <> pv0 /\ q <> nx0).
  { intros q Hq.
    destruct (Hout q) as [? ?];
      [apply elem_of_app; right; apply Hinc, Hq|].
    repeat split; try assumption.
    - intros ->. exact (Hdis _ Hfirst (Hinc _ Hq)).
    - intros ->. exact (Hdis _ Hlast (Hinc _ Hq)).
    - intros ->. destruct Hnx as [[E _]|Hin].
      + apply (Hz nx); [apply Hinc, Hq|exact E].
      + exact (Dcd _ Hq Hin). }
  assert (Hd_out : forall q, q ∈ d ->
            q <> first /\ q <> last /\ q <> pv /\ q <> pv0 /\ q <> nx0).
  { intros q Hq.
    destruct (Hout q) as [? ?];
      [apply elem_of_app; right; apply Hind, Hq|].
    repeat split; try assumption.
    - intros ->. exact (Hdis _ Hfirst (Hind _ Hq)).
    - intros ->. exact (Hdis _ Hlast (Hind _ Hq)).
    - intros ->. destruct Hpv as [[E _]|Hin].
      + apply (Hz pv); [apply Hind, Hq|exact E].
      + exact (Dcd _ Hin Hq). }
  assert (Hp_out : forall q, q ∈ pd ->
            q <> first /\ q <> last /\ q <> pv /\ q <> nx /\
            q <> pv0 /\ q <> nx0).
  { intros q Hq.
    destruct (Hout q) as [? ?];
      [apply elem_of_app; right; apply Hinp, Hq|].
    repeat split; try assumption.
    - intros ->. exact (Hdis _ Hfirst (Hinp _ Hq)).
    - intros ->. exact (Hdis _ Hlast (Hinp _ Hq)).
    - intros ->. destruct Hpv as [[E _]|Hin].
      + apply (Hz pv); [apply Hinp, Hq|exact E].
      + apply (Dp pv); [rewrite Hcut, elem_of_app; auto|exact Hq].
    - intros ->. destruct Hnx as [[E _]|Hin].
      + apply (Hz nx); [apply Hinp, Hq|exact E].
      + apply (Dp nx); [rewrite Hcut, elem_of_app; auto|exact Hq]. }
  assert (Hdomr : forall q, q ∈ r -> is_Some (h !! q)).
  { intros q Hq. destruct (dlseg_dom _ _ _ _ _ Hrun Hq) as [x E]. eauto. }
  assert (Hdomn : forall q, q ∈ nd -> is_Some (h !! q)).
  { intros q Hq. destruct (dlseg_dom _ _ _ _ _ Hch Hq) as [x E]. eauto. }
  assert (Hfields :
    head lE = (if pv =? NULL then first else head ld) /\
    tail lE = (if nx =? NULL then last else tail ld) /\
    size lE = Z.of_nat (length nd) + count /\
    pkb lE = pkb ld /\ zskb lE = zskb ld).
  { unfold lE. fold pv nx l2.
    assert (G : head l2 = head ld /\ tail l2 = tail ld /\ pkb l2 = pkb ld /\
                zskb l2 = zskb ld).
    { unfold l2. destruct (pos <? Z.of_nat (length nd)), (pos =? 0);
        autorewrite with golist; auto. }
    destruct G as (G1 & G2 & G3 & G4).
    destruct (pv =? NULL); destruct (nx =? NULL); simpl;
      match goal with |- context [pos <=? ?x] => destruct (pos <=? x) end;
      simpl; auto. }
  destruct Hfields as (F1 & F2 & F3 & F4 & F5).
  constructor.
  - rewrite F1, hd_app. destruct (Z.eqb_spec pv NULL) as [E|E].
    + rewrite (Hpvnull E). simpl. rewrite hd_app. fold first.
      destruct r; [contradiction|reflexivity].
    + rewrite (rep_head _ _ _ _ R), Hcut, hd_app.
      destruct c; [contradiction|reflexivity].
  - rewrite F2, !last_app. destruct (Z.eqb_spec nx NULL) as [E|E].
    + rewrite (Hnxnull E). simpl. fold last.
      destruct r; [contradiction|]. unfold last. rewrite !last_cons.
      reflexivity.
    + rewrite (rep_tail _ _ _ _ R), Hcut, !last_app.
      destruct d; [contradiction | rewrite !last_cons; reflexivity].
  - rewrite F3, !length_app, Hcut, length_app. lia.
  - rewrite F4. apply R.
  - rewrite F5. apply R.
  - (* the chain *)
    rewrite Hcut in Hch.
    assert (NDall : NoDup (c ++ r ++ d)).
    { apply NoDup_app. split; [exact NDc|]. split.
      - intros q Hq Hq'. apply elem_of_app in Hq' as [Hq'|Hq'].
        + exact (Hdis _ Hq' (Hinc _ Hq)).
        + exact (Dcd _ Hq Hq').
      - apply NoDup_app. split; [exact NDr|]. split; [|exact NDd].
        intros q Hq Hq'. exact (Hdis _ Hq (Hind _ Hq')). }
    apply (dlseg_link h _ c r d pvr nxr NDall Hrne Hch Hrun);
      unfold link_run, unlink_run; fold pv nx first last.
    + apply relink_alter_other;
        [intros Hq; destruct (Hc_out _ Hq) as (?&?&?&?&?); congruence|].
      eapply relink_alter_next; [reflexivity|].
      do 4 (apply relink_alter_other;
            [intros Hq; destruct (Hc_out _ Hq) as (?&?&?&?&?); congruence|]).
      apply relink_refl. intros p Hp. apply Hdomn.
      rewrite Hcut, elem_of_app. auto.
    + apply relink_alter_other;
        [intros Hq; destruct (Hr_out _ Hq) as (?&?&?); congruence|].
      apply relink_alter_other;
        [intros Hq; destruct (Hr_out _ Hq) as (?&?&?); congruence|].
      eapply relink_alter_next; [reflexivity|].
      eapply relink_alter_prev; [reflexivity|].
      do 2 (apply relink_alter_other;
            [intros Hq;
             destruct (Hout _ (proj2 (elem_of_app _ _ _) (or_introl Hq)));
             congruence|]).
      apply relink_refl. exact Hdomr.
    + eapply relink_alter_prev; [reflexivity|].
      do 5 (apply relink_alter_other;
            [intros Hq; destruct (Hd_out _ Hq) as (?&?&?&?&?); congruence|]).
      apply relink_refl. intros p Hp. apply Hdomn.
      rewrite Hcut, elem_of_app. auto.
  - (* the pool *)
    apply (slseg_ext h); [|apply R].
    intros q Hq. unfold link_run, unlink_run. fold pv nx first last.
    destruct (Hp_out q Hq) as (H1 & H2 & H3 & H4 & H5 & H6).
    rewrite !lookup_alter_ne; congruence.
  - (* no node twice *)
    assert (P : (c ++ r ++ d) ++ pd ≡ₚ r ++ nd ++ pd).
    { rewrite Hcut, <- !app_assoc. apply Permutation_app_swap_app. }
    rewrite P. apply NoDup_app. split; [exact NDr|]. split; [exact Hdis|exact ND].
  - assert (P : (c ++ r ++ d) ++ pd ≡ₚ r ++ nd ++ pd).
    { rewrite Hcut, <- !app_assoc. apply Permutation_app_swap_app. }
    rewrite P. apply Forall_app. split; [exact RGr|exact RG].
  - (* the cache *)
    assert (Hcache : forall l5,
      ruly l5 = ruly l2 -> rul l5 = rul l2 -> flags l5 = flags l2 ->
      let l6 := with_size (Z.of_nat (length nd) + count) l5 in
      let lF := if pos <=? ruly l6
                then with_flags (Z.land (flags l6) 1) l6 else l6 in
      cache_valid lF = true ->
      1 <= ruly lF /\ (c ++ r ++ d) !! Z.to_nat (ruly lF) = Some (rul lF)).
    { intros l5 G1 G2 G3. cbv zeta. simpl.
      rewrite G1; destruct (Z.leb_spec pos (ruly l2)) as [Hc|Hc].
      - intros V; rewrite cache_valid_cleared in V; discriminate.
      - unfold cache_valid; simpl; rewrite G1, G2, G3.
        intros V; destruct (rep_cache _ _ _ _ R2 V) as [V1 V2].
        split; [exact V1|].
        apply lookup_app_l_Some; rewrite Ec, lookup_take_lt by lia.
        exact V2. }
    unfold lE. fold pv nx l2.
    destruct (pv =? NULL); destruct (nx =? NULL);
      apply Hcache; simpl; reflexivity.
Qed.

(** ** [clist_splice] moves a run from one list to another *)

Lemma run_at_cut {A} (i c : nat) (l : list A) :
  l = take i l ++ run_at i c l ++ drop (i + c) l.
Proof.
  unfold run_at. rewrite <- drop_drop, take_drop, take_drop. reflexivity.
Qed.

Lemma clist_splice_spec m src dst ls ld ns ps nd pd idx count pos :
  mem_wf m -> src <> NULL -> dst <> NULL -> src <> dst ->
  lists m !! src = Some ls -> lists m !! dst = Some ld ->
  rep (nodes m) ls ns ps -> rep (nodes m) ld nd pd ->
  (forall q, q ∈ ns ++ ps -> q ∉ nd ++ pd) ->
  config ls = config ld ->
  0 <= idx -> 0 < count -> idx + count <= Z.of_nat (length ns) ->
  0 <= pos <= Z.of_nat (length nd) ->
  exists m',
    clist_splice src idx count dst pos m = Ok tt m' /\
    mem_wf m' /\
    list_inv m' src (erase_at (Z.to_nat idx) (Z.to_nat count) ns) ps /\
    list_inv m' dst (take (Z.to_nat pos) nd
                     ++ run_at (Z.to_nat idx) (Z.to_nat count) ns
                     ++ drop (Z.to_nat pos) nd) pd /\
    (forall q, pay (nodes m') q = pay (nodes m) q) /\
    (forall q, q <> src -> q <> dst -> lists m' !! q = lists m !! q) /\
    brk m' = brk m /\ lim m' = lim m /\ trace m' = trace m.
Proof.
  intros W Hs Hd Hsd Ls Ld Rs Rd Hdis Hcfg Hi Hc Hic Hp.
  unfold config in Hcfg. injection Hcfg as Hts Hfl.
  pose proof (rep_nodup _ _ _ _ Rs) as NDs.
  pose proof (rep_nodup _ _ _ _ Rd) as NDd.
  pose proof (rep_range _ _ _ _ Rs) as RGs.
  pose proof (rep_range _ _ _ _ Rd) as RGd.
  assert (Hnull : nodes m !! NULL = None).
  { destruct (nodes m !! NULL) as [x|] eqn:E; [|reflexivity].
    apply (wf_nodes _ W) in E. unfold NULL in E. lia. }
  assert (Hdis1 : forall q, q ∈ ns -> q ∉ nd ++ pd).
  { intros q Hq. apply Hdis, elem_of_app. auto. }
  assert (Hbound : Z.of_nat (length nd) + count < SIZE_MOD).
  { pose proof (nodup_bounded_length (ns ++ nd) SIZE_MOD) as Hx.
    rewrite length_app, Nat2Z.inj_add in Hx.
    assert (Z.of_nat (length ns) + Z.of_nat (length nd) < SIZE_MOD); [|lia].
    apply Hx; [reflexivity| |].
    - apply NoDup_app in NDs as (NDs & _ & _).
      apply NoDup_app in NDd as (NDd & _ & _).
      apply NoDup_app. split; [exact NDs|]. split; [|exact NDd].
      intros q Hq Hq'. apply (Hdis1 q Hq), elem_of_app. auto.
    - apply Forall_app in RGs as [RGs _]. apply Forall_app in RGd as [RGd _].
      apply Forall_app. auto. }
  destruct (clist_splice_run m src dst ls ld ns ps nd pd idx count pos)
    as (m' & Hrun & Hn & Hl & Hb & Hlim & Hrn & Hrl & Ht); try assumption.
  set (i := Z.to_nat idx) in *. set (c := Z.to_nat count) in *.
  assert (Ei : Z.to_nat (idx + count) = (i + c)%nat) by (unfold i, c; lia).
  assert (Ej : Z.to_nat (idx + count - 1) = (i + c - 1)%nat)
    by (unfold i, c; lia).
  assert (Hcpos : (0 < c)%nat) by (unfold c; lia).
  assert (Hicn : (i + c <= length ns)%nat) by (unfold i, c; lia).
  rewrite Ej in Hn, Hl.
  pose proof (cut_first i c ns NULL Hcpos Hicn) as Hfirst.
  pose proof (cut_last i c ns NULL Hcpos Hicn) as Hlast.
  fold (run_at i c ns) in Hfirst, Hlast.
  pose proof (run_at_cut i c ns) as Hcut.
  assert (Hrne : run_at i c ns <> []).
  { intros E. apply (f_equal (@length _)) in E. unfold run_at in E.
    rewrite length_take, length_drop in E. simpl in E. lia. }
  assert (Hrin : forall q, q ∈ run_at i c ns -> q ∈ ns).
  { intros q Hq. rewrite Hcut, !elem_of_app. auto. }
  assert (Hfin : nth i ns NULL ∈ run_at i c ns).
  { rewrite <- Hfirst. destruct (run_at i c ns); [contradiction|left]. }
  assert (Hlin : nth (i + c - 1) ns NULL ∈ run_at i c ns).
  { rewrite <- Hlast. destruct (run_at i c ns); [contradiction|].
    apply last_elem. }
  assert (Hpv1 : List.last (take (Z.to_nat pos) nd) NULL = NULL \/
                 List.last (take (Z.to_nat pos) nd) NULL ∈ nd).
  { destruct (take (Z.to_nat pos) nd) as [|x t] eqn:E; [left; reflexivity|].
    right. rewrite <- (take_drop (Z.to_nat pos) nd), E, elem_of_app. left.
    apply last_elem. }
  assert (Hnx1 : hd NULL (drop (Z.to_nat pos) nd) = NULL \/
                 hd NULL (drop (Z.to_nat pos) nd) ∈ nd).
  { destruct (drop (Z.to_nat pos) nd) as [|x t] eqn:E; [left; reflexivity|].
    right. rewrite <- (take_drop (Z.to_nat pos) nd), E, elem_of_app. right.
    left. }
  assert (Hpv0 : List.last (take i ns) NULL = NULL \/
                 List.last (take i ns) NULL ∈ take i ns).
  { destruct (take i ns) as [|x t] eqn:E; [left; reflexivity|].
    right. apply last_elem. }
  assert (Hnx0 : hd NULL (drop (i + c) ns) = NULL \/
                 hd NULL (drop (i + c) ns) ∈ drop (i + c) ns).
  { destruct (drop (i + c) ns) as [|x t] eqn:E; [left; reflexivity|].
    right. left. }
  assert (Hout_s : forall x, x = NULL \/ x ∈ nd -> x ∉ ns ++ ps).
  { intros x [->|Hx] Hin.
    - exact (rep_nonnull _ _ _ _ _ Rs Hin eq_refl).
    - apply (Hdis x Hin), elem_of_app. auto. }
  assert (NDns : NoDup (take i ns ++ run_at i c ns ++ drop (i + c) ns)).
  { rewrite <- Hcut. apply NoDup_app in NDs as (NDs & _ & _). exact NDs. }
  exists m'. split; [exact Hrun|].
  split.
  { apply (mem_wf_same_dom m); [exact W|lia|exact Hlim|].
    intros q. rewrite Hn. unfold link_run, unlink_run.
    rewrite !lookup_alter_is_Some. auto. }
  split.
  { split; [exact Hs|]. eexists. split.
    - rewrite Hl, lookup_insert_ne, lookup_insert_eq by congruence.
      reflexivity.
    - rewrite Hn, Ei.
      pose proof (splice_src_rep (nodes m) ls ns ps idx count
                    (nth i ns NULL) (nth (i + c - 1) ns NULL)
                    (List.last (take (Z.to_nat pos) nd) NULL)
                    (hd NULL (drop (Z.to_nat pos) nd))) as X.
      fold i c in X. rewrite Ei in X. apply X; auto. }
  split.
  { split; [exact Hd|]. eexists. split.
    - rewrite Hl, lookup_insert_eq. reflexivity.
    - rewrite Hn, Ei, <- Hfirst, <- Hlast.
      apply (splice_dst_rep (nodes m) ld nd pd pos count (run_at i c ns)
               (List.last (take i ns) NULL) (hd NULL (drop (i + c) ns)));
        try assumption.
      + unfold run_at. rewrite length_take, length_drop. unfold i, c. lia.
      + pose proof (rep_chain _ _ _ _ Rs) as Hch. rewrite Hcut in Hch.
        apply dlseg_app in Hch as [_ Hch].
        apply dlseg_app in Hch as [Hch _]. exact Hch.
      + apply NoDup_app in NDns as (_ & _ & ND2).
        apply NoDup_app in ND2 as (ND2 & _ & _). exact ND2.
      + apply Forall_app in RGs as [RGs _]. rewrite Hcut in RGs.
        apply Forall_app in RGs as [_ RGs].
        apply Forall_app in RGs as [RGs _]. exact RGs.
      + intros q Hq. apply Hdis1, Hrin, Hq.
      + intros q Hq.
        apply NoDup_app in NDns as (_ & D1 & ND2).
        apply NoDup_app in ND2 as (_ & D2 & _).
        apply elem_of_app in Hq as [Hq|Hq].
        * split; intros E.
          -- destruct Hpv0 as [E0|Hin].
             ++ rewrite E0 in E.
                apply (rep_nonnull _ _ _ _ q Rs);
                  [apply elem_of_app; left; apply Hrin, Hq|exact E].
             ++ rewrite <- E in Hin. apply (D1 q Hin), elem_of_app. auto.
          -- destruct Hnx0 as [E0|Hin].
             ++ rewrite E0 in E.
                apply (rep_nonnull _ _ _ _ q Rs);
                  [apply elem_of_app; left; apply Hrin, Hq|exact E].
             ++ rewrite <- E in Hin. exact (D2 q Hq Hin).
        * split; intros E.
          -- destruct Hpv0 as [E0|Hin].
             ++ rewrite E0 in E.
                exact (rep_nonnull _ _ _ _ q Rd Hq E).
             ++ rewrite <- E in Hin.
                apply (Hdis1 q); [|exact Hq].
                rewrite Hcut, elem_of_app. auto.
          -- destruct Hnx0 as [E0|Hin].
             ++ rewrite E0 in E.
                exact (rep_nonnull _ _ _ _ q Rd Hq E).
             ++ rewrite <- E in Hin.
                apply (Hdis1 q); [|exact Hq].
                rewrite Hcut, !elem_of_app. auto. }
  split.
  { intros q. rewrite Hn. unfold link_run, unlink_run.
    rewrite ?pay_alter_next, ?pay_alter_prev.
    repeat first [rewrite pay_alter_next | rewrite pay_alter_prev].
    reflexivity. }
  split.
  { intros q Hq1 Hq2. rewrite Hl, !lookup_insert_ne by congruence.
    reflexivity. }
  auto.
Qed.

(** * NULL handles *)

(** C10: every public operation tolerates a NULL list handle: the
    queries answer 0 / 1 / NULL, the insertions answer EXIT_FAILURE, the
    mutators do nothing; memory is left as it was, whatever it holds, so
    the handle is never dereferenced. *)
Theorem null_handle_is_tolerated (m : mem) :
  clist_size NULL m = Ok 0 m /\
  clist_empty NULL m = Ok 1 m /\
  clist_head NULL m = Ok NULL m /\
  clist_tail NULL m = Ok NULL m /\
  (forall idx, clist_go NULL idx m = Ok NULL m) /\
  (forall idx, clist_get NULL idx m = Ok NULL m) /\
  (forall idx v, clist_insert NULL idx v m = Ok EXIT_FAILURE m) /\
  (forall v, clist_push_front NULL v m = Ok EXIT_FAILURE m) /\
  (forall v, clist_push_back NULL v m = Ok EXIT_FAILURE m) /\
  (forall idx count, clist_erase NULL idx count m = Ok tt m) /\
  clist_pop_front NULL m = Ok tt m /\
  clist_pop_back NULL m = Ok tt m /\
  (forall idx v, clist_set NULL idx v m = Ok tt m) /\
  (forall n v, clist_resize NULL n v m = Ok EXIT_FAILURE m) /\
  clist_clear NULL m = Ok tt m /\
  (forall idx count dest pos, clist_splice NULL idx count dest pos m = Ok tt m) /\
  (forall source idx count pos, clist_splice source idx count NULL pos m = Ok tt m) /\
  (forall f, clist_filter NULL f m = Ok tt m) /\
  (forall f, clist_foreach NULL f m = Ok tt m) /\
  clist_shrink_to_fit NULL m = Ok tt m /\
  clist_destroy NULL m = Ok tt m /\
  clist_delete (Some NULL) m = Ok (Some NULL) m /\
  clist_delete None m = Ok None m.
Proof.
  repeat split; try reflexivity.
  - intros idx [v|]; reflexivity.
  - intros source idx count pos. unfold clist_splice.
    destruct (negb (source =? NULL)); reflexivity.
  - intros [f|]; reflexivity.
  - intros [f|]; reflexivity.
Qed.

(** * Construction *)

(** C9: construction fails exactly when the configuration is malformed
    (element size zero, ownership mode neither of the two defined values,
    or free-on-remove with an element size other than a pointer's).
    [clist_init], given a list object, answers EXIT_FAILURE and leaves
    memory as it was; [clist_new], given room for the object, answers NULL
    and the block it took is released.  A well-formed configuration gives
    the empty list with that configuration. *)
Theorem construction_fails_iff_malformed m lh l ts dyn :
  lh <> NULL -> lists m !! lh = Some l -> 0 <= ts ->
  0 < brk m -> brk m + sizeof_clist <= lim m ->
  (malformed ts dyn <-> clist_init lh ts dyn m = Ok EXIT_FAILURE m) /\
  (~ malformed ts dyn <->
   clist_init lh ts dyn m
   = Ok EXIT_SUCCESS (set_lists (<[lh := fresh_list l ts dyn]> (lists m)) m)) /\
  (malformed ts dyn <->
   exists m', clist_new ts dyn m = Ok NULL m' /\
              lists m' = delete (brk m) (lists m) /\ nodes m' = nodes m) /\
  (~ malformed ts dyn <->
   exists m', clist_new ts dyn m = Ok (brk m) m' /\
              lists m' !! brk m
              = Some (fresh_list (raw_list m (brk m)) ts dyn)).
Proof.
  intros Hl Hm Hts Hb Hlim.
  assert (Hbn : brk m <> NULL) by (unfold NULL; lia).
  destruct (malformed_dec ts dyn) as [Hc|Hc].
  - pose proof (clist_init_malformed lh ts dyn m Hl Hts Hc) as Hi.
    destruct (clist_new_malformed m ts dyn Hts Hb Hlim Hc) as (m' & Hn & Hn').
    split; [|split; [|split]]; split; intros H; try tauto.
    + rewrite Hi in H. discriminate.
    + exists m'. tauto.
    + destruct H as (m'' & Hn'' & _). rewrite Hn in Hn''.
      injection Hn'' as E _. congruence.
  - pose proof (clist_init_ok lh ts dyn m l Hl Hts Hm Hc) as Hi.
    destruct (clist_new_ok m ts dyn Hts Hb Hlim Hc) as (m' & Hn & Hn').
    split; [|split; [|split]]; split; intros H; try tauto.
    + rewrite Hi in H. discriminate.
    + destruct H as (m'' & Hn'' & _). rewrite Hn in Hn''.
      injection Hn'' as E _. congruence.
    + exists m'. tauto.
Qed.

Lemma construction_fails_iff_malformed_witness :
  clist_init 100 4 CLIST_PAYLOAD_FREE mem0 = Ok EXIT_FAILURE mem0 /\
  clist_init 100 8 CLIST_PAYLOAD_FREE mem0
  = Ok EXIT_SUCCESS
       (set_lists (<[100 := fresh_list junk_list 8 CLIST_PAYLOAD_FREE]>
                     (lists mem0)) mem0).
Proof.
  assert (H1 : (100 : Z) <> NULL) by discriminate.
  assert (H2 : lists mem0 !! 100 = Some junk_list) by reflexivity.
  assert (H3 : 0 <= 4) by lia.
  assert (H3' : 0 <= 8) by lia.
  assert (H4 : 0 < brk mem0) by reflexivity.
  assert (H5 : brk mem0 + sizeof_clist <= lim mem0) by discriminate.
  split.
  - apply (construction_fails_iff_malformed mem0 100 junk_list 4
             CLIST_PAYLOAD_FREE H1 H2 H3 H4 H5).
    right; right. split; [reflexivity | discriminate].
  - apply (construction_fails_iff_malformed mem0 100 junk_list 8
             CLIST_PAYLOAD_FREE H1 H2 H3' H4 H5).
    unfold malformed, CLIST_PAYLOAD_FREE, CLIST_PAYLOAD_IGNORE, sizeof_ptr. lia.
Defined.

(** * Bounds *)

(** C2 (the code does not do this): [clist_pop_back] on an empty list is
    not a no-op.  It calls [clist_erase(list, size - 1, 1)] with
    [size - 1] wrapped to [SIZE_MAX]; [idx + count] wraps to 0, the guard
    [(idx + count) <= size] passes, [clist_go] answers NULL and
    [node->prev] dereferences it. *)
Theorem pop_back_on_empty_list_faults :
  list_inv mem_empty 100 [] [] /\
  clist_size 100 mem_empty = Ok 0 mem_empty /\
  clist_pop_back 100 mem_empty = Fault.
Proof.
  split; [| split].
  - split; [discriminate|]. eexists. split; [reflexivity|].
    constructor; simpl; try reflexivity; try constructor.
    all: vm_compute in H; discriminate.
  - reflexivity.
  - vm_compute. reflexivity.
Qed.

(** * The anchor *)

(** C5 as stated does not hold.  With the cache invalid, a list of 6 and
    index 3, the walk starts at the head (3 links) although the tail is 2
    links away; with the cache valid at index 2, a list of 7 and index 4,
    the tail ties the cache (2 links each) and the cache is used. *)
Lemma plan_not_fewest_nor_ends_first :
  shortcut 6 3 = false /\
  ~ plan_is_fewest (mk_list 1000 1100 0 0 4 6 0 0 0) 3 /\
  shortcut 7 4 = false /\
  ~ plan_prefers_ends (mk_list 1000 1120 1040 0 4 7 2 0 2) 4.
Proof.
  split; [reflexivity|]. split; [|split; [reflexivity|]].
  - intros H. specialize (H FromTail). vm_compute in H.
    apply H; [discriminate | reflexivity].
  - intros H. specialize (H FromTail). vm_compute in H.
    apply H; [discriminate | reflexivity | reflexivity].
Qed.

(** C5, amended: for an index no shortcut handles, the plan of
    [clist_go] starts from a candidate anchor, walks exactly the links
    between the anchor and the index, and in one direction only (forward
    from an anchor before the index, backward from one after it).  With
    the cache valid the number of links is the fewest any candidate
    allows; the head is preferred to the cache when they tie and the
    cache to the tail.  With the cache invalid the head is used up to
    index [size / 2] and the tail beyond, which is the fewest links
    unless the index is exactly half the size. *)
Theorem go_plan_spec (l : clist_t) (idx : Z) :
  size l < SIZE_MOD -> 2 <= idx < size l - 2 ->
  (cache_valid l = true -> 1 <= ruly l < size l) ->
  let a := fst (fst (go_plan l idx)) in
  let steps := snd (fst (go_plan l idx)) in
  let direction := snd (go_plan l idx) in
  candidate l a /\
  steps = distance l a idx /\
  (direction = 0 \/ direction = -1) /\
  idx = anchor_index l a + (if direction =? 0 then steps else - steps) /\
  (cache_valid l = true ->
   plan_is_fewest l idx /\
   (a = FromCache -> distance l FromCache idx < distance l FromHead idx) /\
   (a = FromTail -> distance l FromTail idx < distance l FromCache idx)) /\
  (cache_valid l = false ->
   (a = FromHead <-> idx <= size l / 2) /\
   (a = FromTail <-> size l / 2 < idx) /\
   (2 * idx <> size l -> plan_is_fewest l idx)).
Proof. exact (go_plan_props l idx). Qed.

Lemma go_plan_spec_witness :
  plan_is_fewest (mk_list 1000 1120 1040 0 4 7 2 0 2) 4.
Proof.
  assert (H1 : size (mk_list 1000 1120 1040 0 4 7 2 0 2) < SIZE_MOD)
    by reflexivity.
  assert (H2 : 2 <= 4 < size (mk_list 1000 1120 1040 0 4 7 2 0 2) - 2)
    by (simpl; lia).
  assert (H3 : cache_valid (mk_list 1000 1120 1040 0 4 7 2 0 2) = true ->
               1 <= ruly (mk_list 1000 1120 1040 0 4 7 2 0 2)
               < size (mk_list 1000 1120 1040 0 4 7 2 0 2))
    by (intros _; simpl; lia).
  exact (proj1 (proj1 (proj2 (proj2 (proj2 (proj2
    (go_plan_spec (mk_list 1000 1120 1040 0 4 7 2 0 2) 4 H1 H2 H3)))))
    eq_refl)).
Defined.

(** * The cache after a resolution *)

(** C4 as stated does not hold: in the list 0, 1, 2 with the cache
    invalid, resolving index 0 (and likewise the last index) answers the
    node and leaves memory as it was, so the cache does not hold the
    resolved pair. *)
Lemma shortcut_leaves_cache_unset :
  exists p q,
    clist_go 100 0 mem_three = Ok p mem_three /\ p <> NULL /\
    ~ cache_is mem_three 100 p 0 /\
    clist_go 100 2 mem_three = Ok q mem_three /\ q <> NULL /\
    ~ cache_is mem_three 100 q 2.
Proof.
  exists 1000, 1040.
  assert (Hl : lists mem_three !! 100
               = Some (mk_list 1000 1040 7 0 4 3 8 0 0))
    by (vm_compute; reflexivity).
  split; [vm_compute; reflexivity|].
  split; [unfold NULL; lia|].
  split.
  { intros (l & Hl' & Hv & _). rewrite Hl in Hl'. injection Hl' as <-.
    discriminate Hv. }
  split; [vm_compute; reflexivity|].
  split; [unfold NULL; lia|].
  intros (l & Hl' & Hv & _). rewrite Hl in Hl'. injection Hl' as <-.
  discriminate Hv.
Qed.

(** Checking a representation in a memory that is given in full. *)
Ltac rep_concrete :=
  split; [discriminate|]; eexists; split; [vm_compute; reflexivity|];
  constructor;
  [ reflexivity | reflexivity | reflexivity | reflexivity | reflexivity
  | simpl; repeat split; eexists; (split; [vm_compute; reflexivity|]);
    split; reflexivity
  | simpl; repeat split; eexists; (split; [vm_compute; reflexivity|]);
    reflexivity
  | apply (bool_decide_unpack _); vm_compute; exact I
  | repeat constructor; rewrite ?SIZE_MOD_val; lia
  | vm_compute; first [discriminate | intros _; split; [discriminate | reflexivity]] ].

(** C4, amended: a resolution of an index below the size answers the
    node at that index; when none of the four shortcuts (index 0, 1,
    size-1, size-2) applies it leaves the cache valid and holding the
    resolved (node, index) pair, and when a shortcut applies it leaves
    memory, hence the cache, exactly as it was. *)
Theorem go_caches_unless_shortcut m lh ns ps idx :
  list_inv m lh ns ps -> 0 <= idx < Z.of_nat (length ns) ->
  exists m',
    clist_go lh idx m = Ok (nth (Z.to_nat idx) ns NULL) m' /\
    nth (Z.to_nat idx) ns NULL <> NULL /\
    list_inv m' lh ns ps /\
    (shortcut (Z.of_nat (length ns)) idx = false ->
     cache_is m' lh (nth (Z.to_nat idx) ns NULL) idx) /\
    (shortcut (Z.of_nat (length ns)) idx = true -> m' = m).
Proof.
  intros (Hlh & l & Hl & R) Hidx.
  rewrite (clist_go_spec m lh l ns ps idx Hlh Hl R Hidx).
  rewrite (rep_size _ _ _ _ R).
  destruct (rep_nth _ _ _ _ (Z.to_nat idx) R) as [Hnz _]; [lia|].
  destruct (shortcut (Z.of_nat (length ns)) idx) eqn:S.
  - exists m. repeat split; auto; try discriminate.
    exists l. auto.
  - eexists. split; [reflexivity|]. split; [exact Hnz|]. split; [|split].
    + split; [exact Hlh|]. eexists. split; [simpl; apply lookup_insert_eq|].
      simpl. apply shortcut_false in S. apply rep_cache_to; [exact R | lia |].
      apply nth_lookup_Some. lia.
    + intros _. eexists. split; [simpl; apply lookup_insert_eq|].
      split; [apply cache_valid_cache_to|]. split; reflexivity.
    + discriminate.
Qed.

Lemma mem_ten_inv :
  list_inv mem_ten 100
    [1000; 1020; 1040; 1060; 1080; 1100; 1120; 1140; 1160; 1180] [].
Proof. rep_concrete. Qed.

Lemma go_caches_unless_shortcut_witness :
  exists m', clist_go 100 4 mem_ten = Ok 1080 m' /\ cache_is m' 100 1080 4.
Proof.
  destruct (go_caches_unless_shortcut mem_ten 100
              [1000; 1020; 1040; 1060; 1080; 1100; 1120; 1140; 1160; 1180] []
              4 mem_ten_inv ltac:(simpl; lia))
    as (m' & Hgo & _ & _ & Hc & _).
  exists m'. split; [exact Hgo|]. apply Hc. reflexivity.
Defined.

(** * The example memories are well formed *)

Lemma mem_wf_check m :
  0 < brk m -> lim m <= SIZE_MOD ->
  map_Forall (fun p _ => 0 < p < brk m) (nodes m) -> mem_wf m.
Proof.
  intros H1 H2 H3. constructor; [exact H1|exact H2|].
  intros p nd E. exact (H3 p nd E).
Qed.

Ltac wf_concrete :=
  apply mem_wf_check;
  [ vm_compute; reflexivity | vm_compute; discriminate
  | apply (bool_decide_unpack _); vm_compute; exact I ].

Lemma mem0_wf : mem_wf mem0.
Proof. wf_concrete. Qed.

Lemma mem_three_wf : mem_wf mem_three.
Proof. wf_concrete. Qed.

Lemma mem_ten_wf : mem_wf mem_ten.
Proof. wf_concrete. Qed.

Lemma mem_pool_wf : mem_wf mem_pool.
Proof. wf_concrete. Qed.


Lemma mem_ten_rep :
  rep (nodes mem_ten) (mk_list 1000 1180 7 0 4 10 8 0 0)
    [1000; 1020; 1040; 1060; 1080; 1100; 1120; 1140; 1160; 1180] [].
Proof.
  destruct mem_ten_inv as (_ & l & Hl & R). vm_compute in Hl.
  injection Hl as <-. exact R.
Qed.

Lemma mem_ten_dest : list_inv mem_ten 200 [] [].
Proof. rep_concrete. Qed.

Lemma mem_ten_dest_rep :
  rep (nodes mem_ten) (mk_list 0 0 7 0 4 0 7 0 0) [] [].
Proof.
  destruct mem_ten_dest as (_ & l & Hl & R). vm_compute in Hl.
  injection Hl as <-. exact R.
Qed.

Lemma mem_three_inv : list_inv mem_three 100 [1000; 1020; 1040] [].
Proof. rep_concrete. Qed.

Lemma mem_three_rep :
  rep (nodes mem_three) (mk_list 1000 1040 7 0 4 3 8 0 0) [1000; 1020; 1040] [].
Proof.
  destruct mem_three_inv as (_ & l & Hl & R). vm_compute in Hl.
  injection Hl as <-. exact R.
Qed.

Lemma mem_pool_inv :
  list_inv mem_pool 100 [1000; 1020; 1100; 1120; 1140; 1160; 1180]
    [1080; 1060; 1040].
Proof. rep_concrete. Qed.

Lemma mem_pool_rep :
  rep (nodes mem_pool) (mk_list 1000 1180 1100 1080 4 7 2 3 2)
    [1000; 1020; 1100; 1120; 1140; 1160; 1180] [1080; 1060; 1040].
Proof.
  destruct mem_pool_inv as (_ & l & Hl & R). vm_compute in Hl.
  injection Hl as <-. exact R.
Qed.

Lemma mem_full_inv : list_inv mem_full 100 [1000; 1020; 1040] [].
Proof. rep_concrete. Qed.

Lemma mem_full_rep :
  rep (nodes mem_full) (mk_list 1000 1040 7 0 4 3 8 0 0) [1000; 1020; 1040] [].
Proof.
  destruct mem_full_inv as (_ & l & Hl & R). vm_compute in Hl.
  injection Hl as <-. exact R.
Qed.

Lemma mem_moved_wf : mem_wf mem_moved.
Proof. wf_concrete. Qed.

Lemma mem_moved_inv :
  list_inv mem_moved 100 [1000; 1020; 1100; 1120; 1140; 1160; 1180] [].
Proof. rep_concrete. Qed.

Lemma mem_moved_rep :
  rep (nodes mem_moved) (mk_list 1000 1180 1080 0 4 7 4 0 0)
    [1000; 1020; 1100; 1120; 1140; 1160; 1180] [].
Proof.
  destruct mem_moved_inv as (_ & l & Hl & R). vm_compute in Hl.
  injection Hl as <-. exact R.
Qed.

Lemma mem_moved_dest : list_inv mem_moved 200 [1040; 1060; 1080] [].
Proof. rep_concrete. Qed.

Lemma mem_moved_dest_rep :
  rep (nodes mem_moved) (mk_list 1040 1080 7 0 4 3 7 0 0)
    [1040; 1060; 1080] [].
Proof.
  destruct mem_moved_dest as (_ & l & Hl & R). vm_compute in Hl.
  injection Hl as <-. exact R.
Qed.

Lemma handle_100 : (100 : Z) <> NULL.
Proof. discriminate. Qed.

(** * Observers *)

(** X1: on a well-formed list the four observers read the chain and
    leave memory as it is: [clist_size] answers the number of nodes,
    [clist_empty] answers 1 exactly for the empty chain, [clist_head] and
    [clist_tail] answer the first and the last node, which are not NULL
    when the list has an element. *)
Theorem observers_read_the_chain m lh ns ps :
  list_inv m lh ns ps ->
  clist_size lh m = Ok (Z.of_nat (length ns)) m /\
  clist_empty lh m = Ok (if decide (ns = []) then 1 else 0) m /\
  clist_head lh m = Ok (hd NULL ns) m /\
  clist_tail lh m = Ok (List.last ns NULL) m /\
  (ns <> [] -> hd NULL ns <> NULL /\ List.last ns NULL <> NULL).
Proof.
  intros (Hlh & l & Hl & R).
  unfold clist_size, clist_empty, clist_head, clist_tail.
  destruct (Z.eqb_spec lh NULL); [contradiction|]. cbn [negb].
  erewrite bind_rd by exact Hl. rewrite !(rd_ok _ _ _ _ Hl).
  rewrite (rep_size _ _ _ _ R), (rep_head _ _ _ _ R), (rep_tail _ _ _ _ R).
  split; [reflexivity|]. split; [|split; [reflexivity|split; [reflexivity|]]].
  - destruct ns; [reflexivity|].
    destruct (Z.ltb_spec 0 (Z.of_nat (length (z :: ns)))); [reflexivity|].
    simpl in *. lia.
  - intros Hne. destruct ns as [|p ns]; [contradiction|].
    split; apply (rep_nonnull _ _ _ _ _ R), elem_of_app; left.
    + left.
    + apply last_elem.
Qed.

Lemma observers_read_the_chain_witness :
  clist_size 100 mem_ten = Ok 10 mem_ten /\
  clist_empty 100 mem_ten = Ok 0 mem_ten /\
  clist_head 100 mem_ten = Ok 1000 mem_ten /\
  clist_tail 100 mem_ten = Ok 1180 mem_ten.
Proof.
  destruct (observers_read_the_chain mem_ten 100 _ _ mem_ten_inv)
    as (H1 & H2 & H3 & H4 & _).
  split; [exact H1|]. split; [exact H2|]. split; [exact H3|exact H4].
Defined.

(** * Element access *)

(** X2: for an index below the size, [clist_get] answers the address of
    the payload region of the node at that index, where the value at that
    index is stored; no node is written, nothing is allocated or freed,
    and the list stays well formed. *)
Theorem get_points_to_ith_element m lh ns ps idx :
  list_inv m lh ns ps -> 0 <= idx < Z.of_nat (length ns) ->
  exists m',
    clist_get lh idx m = Ok (payload_ptr (nth (Z.to_nat idx) ns NULL)) m' /\
    deref_payload m' (payload_ptr (nth (Z.to_nat idx) ns NULL))
    = Some (nth (Z.to_nat idx) (vals (nodes m) ns) 0) /\
    nodes m' = nodes m /\ trace m' = trace m /\ brk m' = brk m /\
    list_inv m' lh ns ps.
Proof.
  intros (Hlh & l & Hl & R) Hidx.
  rewrite (clist_get_run m lh l ns ps idx Hlh Hl R Hidx).
  eexists. split; [reflexivity|]. simpl.
  split; [|split; [reflexivity|split; [reflexivity|split; [reflexivity|]]]].
  - rewrite deref_payload_ptr. simpl.
    destruct (rep_nth _ _ _ _ (Z.to_nat idx) R) as [_ Hin]; [lia|].
    destruct (rep_lookup _ _ _ _ _ R (proj2 (elem_of_app _ _ _) (or_introl Hin)))
      as [nd E].
    rewrite E, nth_vals by lia. simpl. f_equal. symmetry.
    apply pay_lookup, E.
  - apply list_inv_go; assumption.
Qed.

Lemma get_points_to_ith_element_witness :
  exists m', clist_get 100 4 mem_ten = Ok (payload_ptr 1080) m' /\
             deref_payload m' (payload_ptr 1080) = Some 4.
Proof.
  destruct (get_points_to_ith_element mem_ten 100 _ _ 4 mem_ten_inv
              ltac:(simpl; lia)) as (m' & H1 & H2 & _).
  exists m'. split; [exact H1|exact H2].
Defined.

(** X3: an index at or past the size is harmless: [clist_go] and
    [clist_get] answer NULL and [clist_set] does nothing; memory is left
    as it was. *)
Theorem access_past_end_is_harmless m lh ns ps idx v :
  list_inv m lh ns ps -> Z.of_nat (length ns) <= idx ->
  clist_go lh idx m = Ok NULL m /\
  clist_get lh idx m = Ok NULL m /\
  clist_set lh idx v m = Ok tt m.
Proof.
  intros (Hlh & l & Hl & R) Hidx.
  assert (Hsz : size l <= idx) by (rewrite (rep_size _ _ _ _ R); exact Hidx).
  pose proof (clist_go_out m lh l idx Hlh Hl Hsz) as Hgo.
  split; [exact Hgo|]. split.
  - unfold clist_get. erewrite bind_ok by exact Hgo. reflexivity.
  - apply (clist_set_out m lh l); assumption.
Qed.

Lemma access_past_end_is_harmless_witness :
  clist_get 100 10 mem_ten = Ok NULL mem_ten /\
  clist_set 100 10 (Some 5) mem_ten = Ok tt mem_ten.
Proof.
  destruct (access_past_end_is_harmless mem_ten 100 _ _ 10 (Some 5) mem_ten_inv
              ltac:(simpl; lia)) as (_ & H2 & H3).
  split; [exact H2|exact H3].
Defined.

(** X4: for an index below the size, [clist_set] with an element writes
    it at that index and nowhere else: the values of the list are the old
    ones with that position replaced, every other node is untouched,
    nothing is allocated or freed and the list stays well formed; a
    following [clist_get] of the index points to the element written.
    With a NULL payload [clist_set] does nothing. *)
Theorem set_overwrites_ith_element m lh ns ps idx v :
  list_inv m lh ns ps -> 0 <= idx < Z.of_nat (length ns) ->
  clist_set lh idx None m = Ok tt m /\
  exists m',
    clist_set lh idx (Some v) m = Ok tt m' /\
    list_inv m' lh ns ps /\
    vals (nodes m') ns = <[Z.to_nat idx := v]> (vals (nodes m) ns) /\
    (forall q, q <> nth (Z.to_nat idx) ns NULL ->
               nodes m' !! q = nodes m !! q) /\
    trace m' = trace m /\ brk m' = brk m /\
    exists m'',
      clist_get lh idx m' = Ok (payload_ptr (nth (Z.to_nat idx) ns NULL)) m'' /\
      deref_payload m'' (payload_ptr (nth (Z.to_nat idx) ns NULL)) = Some v.
Proof.
  intros (Hlh & l & Hl & R) Hidx. split; [reflexivity|].
  rewrite (clist_set_run m lh l ns ps idx v Hlh Hl R Hidx).
  destruct (rep_nth _ _ _ _ (Z.to_nat idx) R) as [_ Hin]; [lia|].
  pose proof (rep_lookup _ _ _ _ _ R (proj2 (elem_of_app _ _ _) (or_introl Hin)))
    as Hdom.
  pose proof (rep_set_payload _ _ _ _ v (nth (Z.to_nat idx) ns NULL)
                (rep_go_list _ _ _ _ _ R Hidx)) as R'.
  eexists. split; [reflexivity|]. simpl.
  split; [|split; [|split; [|split; [reflexivity|split; [reflexivity|]]]]].
  - split; [exact Hlh|]. eexists. split; [apply lookup_insert_eq|]. exact R'.
  - apply vals_set_payload.
    + pose proof (rep_nodup _ _ _ _ R) as ND. apply NoDup_app in ND. tauto.
    + apply nth_lookup_Some. lia.
    + exact Hdom.
  - intros q Hq. unfold set_payload. apply lookup_alter_ne. congruence.
  - erewrite clist_get_run;
      [|exact Hlh|simpl; apply lookup_insert_eq|exact R'|exact Hidx].
    eexists. split; [reflexivity|]. rewrite deref_payload_ptr. simpl.
    unfold set_payload. rewrite lookup_alter_eq.
    destruct Hdom as [nd E]. rewrite E. reflexivity.
Qed.

Lemma set_overwrites_ith_element_witness :
  exists m', clist_set 100 1 (Some 42) mem_three = Ok tt m' /\
             vals (nodes m') [1000; 1020; 1040] = [0; 42; 2].
Proof.
  destruct (set_overwrites_ith_element mem_three 100 _ _ 1 42 mem_three_inv
              ltac:(simpl; lia)) as (_ & m' & H1 & _ & H2 & _).
  exists m'. split; [exact H1|exact H2].
Defined.



(** * Construction *)

(** X6: [clist_init] with a well-formed configuration makes the block a
    well-formed empty list (empty chain, empty pool, cache invalid) with
    that element size and ownership mode, whatever the block held; it
    touches no node, no other list object and not the allocator, so nodes
    of a list the block held before stay allocated. *)
Theorem init_gives_empty_list m lh old ts dyn :
  lh <> NULL -> lists m !! lh = Some old -> 0 <= ts -> ~ malformed ts dyn ->
  exists m',
    clist_init lh ts dyn m = Ok EXIT_SUCCESS m' /\
    list_inv m' lh [] [] /\
    (exists l, lists m' !! lh = Some l /\ config l = (ts, dyn) /\
               cache_valid l = false) /\
    (forall lh', lh' <> lh -> lists m' !! lh' = lists m !! lh') /\
    nodes m' = nodes m /\ trace m' = trace m /\ brk m' = brk m.
Proof.
  intros Hlh Hl Hts Hc.
  rewrite (clist_init_ok lh ts dyn m old Hlh Hts Hl Hc).
  eexists. split; [reflexivity|]. simpl.
  split; [|split; [|split; [|auto]]].
  - split; [exact Hlh|]. eexists. split; [apply lookup_insert_eq|].
    apply rep_fresh_list.
  - eexists. split; [apply lookup_insert_eq|].
    split; [|apply cache_valid_fresh_list].
    unfold config, fresh_list; simpl.
    rewrite <- Z.land_assoc. change (Z.land 1 1) with 1.
    rewrite (own_bit dyn (well_formed_own ts dyn Hc)). reflexivity.
  - intros lh' Hne. apply lookup_insert_ne. congruence.
Qed.

Lemma init_gives_empty_list_witness :
  exists m', clist_init 100 8 CLIST_PAYLOAD_FREE mem_three = Ok EXIT_SUCCESS m' /\
             list_inv m' 100 [] [] /\ nodes m' = nodes mem_three.
Proof.
  assert (H1 : lists mem_three !! 100 = Some (mk_list 1000 1040 7 0 4 3 8 0 0))
    by (vm_compute; reflexivity).
  assert (H2 : 0 <= 8) by lia.
  assert (H3 : ~ malformed 8 CLIST_PAYLOAD_FREE).
  { unfold malformed, CLIST_PAYLOAD_FREE, CLIST_PAYLOAD_IGNORE, sizeof_ptr. lia. }
  destruct (init_gives_empty_list mem_three 100 _ 8 CLIST_PAYLOAD_FREE
              handle_100 H1 H2 H3) as (m' & E & I & _ & _ & N & _).
  exists m'. split; [exact E|]. split; [exact I|exact N].
Defined.

(** X7: [clist_new] calls the allocator once, for the list object.  When
    the allocation fails it answers NULL.  When it succeeds and the
    configuration is well formed, it answers the new block, which is a
    well-formed empty list.  When it succeeds and the configuration is
    malformed, it frees the block again and answers NULL, so nothing
    leaks; in no case is a node or another list object touched. *)
Theorem new_allocates_the_object_once m ts dyn :
  0 <= ts -> 0 < brk m -> lists m !! brk m = None ->
  (lim m < brk m + sizeof_clist ->
   clist_new ts dyn m = Ok NULL (log (EvMalloc sizeof_clist NULL) m)) /\
  (brk m + sizeof_clist <= lim m -> ~ malformed ts dyn ->
   exists m',
     clist_new ts dyn m = Ok (brk m) m' /\ list_inv m' (brk m) [] [] /\
     (forall lh, lh <> brk m -> lists m' !! lh = lists m !! lh) /\
     nodes m' = nodes m /\
     trace m' = trace m ++ [EvMalloc sizeof_clist (brk m)]) /\
  (brk m + sizeof_clist <= lim m -> malformed ts dyn ->
   exists m',
     clist_new ts dyn m = Ok NULL m' /\ lists m' = lists m /\
     nodes m' = nodes m /\
     trace m' = trace m ++ [EvMalloc sizeof_clist (brk m); EvFree (brk m)]).
Proof.
  intros Hts Hb Hfresh.
  assert (Hbn : brk m <> NULL) by (unfold NULL; lia).
  split; [|split].
  - intros Hlim. unfold clist_new, malloc_list, malloc, bind.
    change (Z.max 1 sizeof_clist) with sizeof_clist.
    destruct (Z.leb_spec (brk m + sizeof_clist) (lim m)); [lia|]. reflexivity.
  - intros Hlim Hc. unfold clist_new.
    erewrite bind_ok by (apply malloc_list_ok; assumption). cbv beta.
    destruct (Z.eqb_spec (brk m) NULL); [contradiction|]. cbn [negb].
    erewrite bind_ok.
    2:{ apply clist_init_ok; [exact Hbn|exact Hts| |exact Hc].
        simpl. apply lookup_insert_eq. }
    simpl. eexists. split; [reflexivity|]. simpl.
    split; [|split; [|auto]].
    + split; [exact Hbn|]. eexists. split; [apply lookup_insert_eq|].
      apply rep_fresh_list.
    + intros lh Hne. rewrite insert_insert_eq. apply lookup_insert_ne.
      congruence.
  - intros Hlim Hc. unfold clist_new.
    erewrite bind_ok by (apply malloc_list_ok; assumption). cbv beta.
    destruct (Z.eqb_spec (brk m) NULL); [contradiction|]. cbn [negb].
    erewrite bind_ok by (apply clist_init_malformed; assumption).
    simpl. unfold bind, free_list. simpl. rewrite lookup_insert_eq.
    eexists. split; [reflexivity|]. simpl.
    split; [|split; [reflexivity|rewrite <- app_assoc; reflexivity]].
    rewrite delete_insert_eq. apply delete_id, Hfresh.
Qed.

Lemma new_allocates_the_object_once_witness :
  exists m',
    clist_new 4 CLIST_PAYLOAD_FREE mem_three = Ok NULL m' /\
    lists m' = lists mem_three /\
    trace m' = trace mem_three ++ [EvMalloc sizeof_clist 1060; EvFree 1060].
Proof.
  assert (H1 : 0 <= 4) by lia.
  assert (H2 : 0 < brk mem_three) by (vm_compute; reflexivity).
  assert (H3 : lists mem_three !! brk mem_three = None)
    by (vm_compute; reflexivity).
  assert (H4 : brk mem_three + sizeof_clist <= lim mem_three)
    by (vm_compute; discriminate).
  assert (H5 : malformed 4 CLIST_PAYLOAD_FREE).
  { right; right. split; [reflexivity|discriminate]. }
  destruct (proj2 (proj2 (new_allocates_the_object_once mem_three 4
                            CLIST_PAYLOAD_FREE H1 H2 H3)) H4 H5)
    as (m' & E & L & _ & T).
  exists m'. split; [exact E|]. split; [exact L|exact T].
Defined.

(** * Insertion *)

(** X8: with a node in the pool, [clist_insert] at any index up to the
    size succeeds without calling the allocator: it takes the top node
    of the pool, puts it in the chain at that index and stores the
    element in it (with a NULL payload the node keeps what it held).  The
    other elements keep their values and order, the rest of the pool is
    as before, nothing outside the list is written and the list stays
    well formed. *)
Theorem insert_takes_pool_node m lh ns p ps idx v :
  mem_wf m -> list_inv m lh ns (p :: ps) ->
  0 <= idx <= Z.of_nat (length ns) ->
  exists m',
    clist_insert lh idx v m = Ok EXIT_SUCCESS m' /\
    lstep lh m ns (p :: ps) m' (insert_at (Z.to_nat idx) p ns) ps /\
    list_inv m' lh (insert_at (Z.to_nat idx) p ns) ps /\
    vals (nodes m') (insert_at (Z.to_nat idx) p ns)
    = insert_at (Z.to_nat idx)
        (match v with Some x => x | None => pay (nodes m) p end)
        (vals (nodes m) ns) /\
    trace m' = trace m /\ brk m' = brk m.
Proof.
  intros W (Hlh & l & Hl & R) Hidx.
  destruct (clist_insert_pool m lh l ns p ps idx v W Hlh Hl R Hidx)
    as (m' & E & S & V & T & B).
  exists m'. split; [exact E|]. split; [exact S|].
  split; [exact (lstep_inv _ _ _ _ _ _ _ Hlh S)|]. auto.
Qed.

Lemma insert_takes_pool_node_witness :
  exists m',
    clist_insert 100 2 (Some 42) mem_pool = Ok EXIT_SUCCESS m' /\
    list_inv m' 100 [1000; 1020; 1080; 1100; 1120; 1140; 1160; 1180]
      [1060; 1040] /\
    trace m' = trace mem_pool.
Proof.
  destruct (insert_takes_pool_node mem_pool 100 _ _ _ 2 (Some 42) mem_pool_wf
              mem_pool_inv ltac:(simpl; lia)) as (m' & E & _ & I & _ & T & _).
  exists m'. split; [exact E|]. split; [exact I|exact T].
Defined.

(** X9: with an empty pool and room in the heap, [clist_insert] at any
    index up to the size calls the allocator exactly once, for a block of
    node header plus element size, puts the new node in the chain at that
    index and stores the element in it (with a NULL payload the node
    holds what the block held).  The other elements keep their values and
    order and the list stays well formed. *)
Theorem insert_allocates_one_node m lh l ns idx v :
  mem_wf m -> lh <> NULL -> lists m !! lh = Some l -> rep (nodes m) l ns [] ->
  0 <= idx <= Z.of_nat (length ns) -> brk m + node_block l <= lim m ->
  exists m',
    clist_insert lh idx v m = Ok EXIT_SUCCESS m' /\
    lstep lh m ns [] m' (insert_at (Z.to_nat idx) (brk m) ns) [] /\
    list_inv m' lh (insert_at (Z.to_nat idx) (brk m) ns) [] /\
    vals (nodes m') (insert_at (Z.to_nat idx) (brk m) ns)
    = insert_at (Z.to_nat idx)
        (match v with Some x => x | None => payload (raw_node m (brk m)) end)
        (vals (nodes m) ns) /\
    trace m' = trace m ++ [EvMalloc (node_bytes l) (brk m)] /\
    brk m' = brk m + node_block l.
Proof.
  intros W Hlh Hl R Hidx Hroom.
  destruct (clist_insert_malloc m lh l ns idx v W Hlh Hl R Hidx Hroom)
    as (m' & E & S & V & T & B).
  exists m'. split; [exact E|]. split; [exact S|].
  split; [exact (lstep_inv _ _ _ _ _ _ _ Hlh S)|]. auto.
Qed.

Lemma insert_allocates_one_node_witness :
  exists m',
    clist_insert 100 1 (Some 42) mem_three = Ok EXIT_SUCCESS m' /\
    list_inv m' 100 [1000; 1060; 1020; 1040] [] /\
    vals (nodes m') [1000; 1060; 1020; 1040] = [0; 42; 1; 2] /\
    trace m' = trace mem_three ++ [EvMalloc 20 1060].
Proof.
  assert (Hl : lists mem_three !! 100 = Some (mk_list 1000 1040 7 0 4 3 8 0 0))
    by (vm_compute; reflexivity).
  assert (Hroom : brk mem_three + node_block (mk_list 1000 1040 7 0 4 3 8 0 0)
                  <= lim mem_three) by (vm_compute; discriminate).
  destruct (insert_allocates_one_node mem_three 100 _ _ 1 (Some 42)
              mem_three_wf handle_100 Hl mem_three_rep ltac:(simpl; lia) Hroom)
    as (m' & E & _ & I & V & T & _).
  exists m'. split; [exact E|]. split; [exact I|]. split; [exact V|exact T].
Defined.

(** X10: the two ways [clist_insert] fails change nothing in the list.
    An index past the size answers EXIT_FAILURE with memory as it was,
    before the pool or the allocator is looked at.  With an empty pool
    and no room in the heap for a node, the one call of the allocator
    fails and [clist_insert] answers EXIT_FAILURE; apart from the record
    of that call memory is as it was. *)
Theorem failed_insert_changes_nothing m lh l ns ps idx v :
  lh <> NULL -> lists m !! lh = Some l -> rep (nodes m) l ns ps ->
  (Z.of_nat (length ns) < idx ->
   clist_insert lh idx v m = Ok EXIT_FAILURE m) /\
  (ps = [] -> 0 <= idx <= Z.of_nat (length ns) ->
   lim m < brk m + node_block l ->
   clist_insert lh idx v m
   = Ok EXIT_FAILURE (log (EvMalloc (node_bytes l) NULL) m)).
Proof.
  intros Hlh Hl R. split.
  - intros Hidx. apply (clist_insert_oob m lh l); [assumption|assumption|].
    rewrite (rep_size _ _ _ _ R). exact Hidx.
  - intros -> Hidx Hroom. apply (clist_insert_nomem m lh l ns); assumption.
Qed.

Lemma failed_insert_changes_nothing_witness :
  clist_insert 100 4 (Some 42) mem_full = Ok EXIT_FAILURE mem_full /\
  clist_insert 100 3 (Some 42) mem_full
  = Ok EXIT_FAILURE (log (EvMalloc 20 NULL) mem_full).
Proof.
  assert (Hl : lists mem_full !! 100 = Some (mk_list 1000 1040 7 0 4 3 8 0 0))
    by (vm_compute; reflexivity).
  destruct (failed_insert_changes_nothing mem_full 100 _ _ _ 4 (Some 42)
              handle_100 Hl mem_full_rep) as [H1 _].
  destruct (failed_insert_changes_nothing mem_full 100 _ _ _ 3 (Some 42)
              handle_100 Hl mem_full_rep) as [_ H2].
  split.
  - apply H1. simpl. lia.
  - apply H2; [reflexivity|simpl; lia|vm_compute; reflexivity].
Defined.

(** X11: [clist_push_front] and [clist_push_back] put the element before
    the first and after the last element.  The node comes from the pool
    when it has one and from the allocator otherwise; the other elements
    keep their values and order and the list stays well formed. *)
Theorem push_adds_at_the_ends m lh l ns ps v :
  mem_wf m -> lh <> NULL -> lists m !! lh = Some l -> rep (nodes m) l ns ps ->
  (ps = [] -> brk m + node_block l <= lim m) ->
  (exists m',
     clist_push_front lh (Some v) m = Ok EXIT_SUCCESS m' /\
     list_inv m' lh (hd (brk m) ps :: ns) (tl ps) /\
     vals (nodes m') (hd (brk m) ps :: ns) = v :: vals (nodes m) ns /\
     brk m' = brk m + match ps with [] => node_block l | _ :: _ => 0 end) /\
  (exists m',
     clist_push_back lh (Some v) m = Ok EXIT_SUCCESS m' /\
     list_inv m' lh (ns ++ [hd (brk m) ps]) (tl ps) /\
     vals (nodes m') (ns ++ [hd (brk m) ps]) = vals (nodes m) ns ++ [v] /\
     brk m' = brk m + match ps with [] => node_block l | _ :: _ => 0 end).
Proof.
  intros W Hlh Hl R Hroom. split.
  - destruct (clist_insert_ok m lh l ns ps 0 (Some v) W Hlh Hl R)
      as (m' & E & S & V & T & B); [lia|exact Hroom|].
    exists m'. split; [exact E|].
    split; [exact (lstep_inv _ _ _ _ _ _ _ Hlh S)|]. split; [exact V|exact B].
  - destruct (clist_insert_ok m lh l ns ps (Z.of_nat (length ns)) (Some v)
                W Hlh Hl R) as (m' & E & S & V & T & B); [lia|exact Hroom|].
    rewrite Nat2Z.id in S, V. rewrite insert_at_end in S, V.
    exists m'. rewrite (clist_push_back_eq m lh l ns ps _ Hlh Hl R).
    split; [exact E|]. split; [exact (lstep_inv _ _ _ _ _ _ _ Hlh S)|].
    split; [|exact B]. rewrite V. unfold insert_at.
    rewrite take_ge, drop_ge by (rewrite vals_length; lia). reflexivity.
Qed.

Lemma push_adds_at_the_ends_witness :
  (exists m', clist_push_front 100 (Some 42) mem_pool = Ok EXIT_SUCCESS m' /\
              vals (nodes m') [1080; 1000; 1020; 1100; 1120; 1140; 1160; 1180]
              = [42; 0; 1; 5; 6; 7; 8; 9]) /\
  (exists m', clist_push_back 100 (Some 42) mem_three = Ok EXIT_SUCCESS m' /\
              vals (nodes m') [1000; 1020; 1040; 1060] = [0; 1; 2; 42]).
Proof.
  assert (Hp : lists mem_pool !! 100 = Some (mk_list 1000 1180 1100 1080 4 7 2 3 2))
    by (vm_compute; reflexivity).
  assert (Ht : lists mem_three !! 100 = Some (mk_list 1000 1040 7 0 4 3 8 0 0))
    by (vm_compute; reflexivity).
  split.
  - destruct (push_adds_at_the_ends mem_pool 100 _ _ _ 42 mem_pool_wf handle_100
                Hp mem_pool_rep ltac:(intros H; discriminate H))
      as [(m' & E & _ & V & _) _].
    exists m'. split; [exact E|exact V].
  - destruct (push_adds_at_the_ends mem_three 100 _ _ _ 42 mem_three_wf
                handle_100 Ht mem_three_rep
                ltac:(intros _; vm_compute; discriminate))
      as [_ (m' & E & _ & V & _)].
    exists m'. split; [exact E|exact V].
Defined.

(** * Erasure *)

(** X12: [clist_erase] of a run that lies inside the list removes
    exactly that run: the elements before and after it keep their values
    and order, the removed nodes go onto the pool, the last one on top,
    no node is given back to the allocator, and the elements of the run
    are passed to [free], in list order, exactly when the list owns its
    elements.  The list stays well formed. *)
Theorem erase_removes_the_run m lh l ns ps idx count :
  mem_wf m -> lh <> NULL -> lists m !! lh = Some l -> rep (nodes m) l ns ps ->
  0 <= idx -> 0 < count -> idx + count <= Z.of_nat (length ns) ->
  exists m',
    clist_erase lh idx count m = Ok tt m' /\
    lstep lh m ns ps m' (erase_at (Z.to_nat idx) (Z.to_nat count) ns)
      (rev (run_at (Z.to_nat idx) (Z.to_nat count) ns) ++ ps) /\
    list_inv m' lh (erase_at (Z.to_nat idx) (Z.to_nat count) ns)
      (rev (run_at (Z.to_nat idx) (Z.to_nat count) ns) ++ ps) /\
    vals (nodes m') (erase_at (Z.to_nat idx) (Z.to_nat count) ns)
    = erase_at (Z.to_nat idx) (Z.to_nat count) (vals (nodes m) ns) /\
    (forall q, is_Some (nodes m' !! q) <-> is_Some (nodes m !! q)) /\
    trace m'
    = trace m
      ++ (if Z.land (flags l) 1 =? 0 then []
          else map EvFree
                 (run_at (Z.to_nat idx) (Z.to_nat count) (vals (nodes m) ns))) /\
    brk m' = brk m.
Proof.
  intros W Hlh Hl R Hidx Hc Hlen.
  destruct (clist_erase_run m lh l ns ps idx count W Hlh Hl R Hidx Hc Hlen)
    as (m0 & E0 & N0 & _).
  destruct (clist_erase_spec m lh l ns ps idx count W Hlh Hl R Hidx Hc Hlen)
    as (m' & E & S & P & T & B).
  assert (m0 = m') as -> by congruence.
  exists m'. split; [exact E|]. split; [exact S|].
  split; [exact (lstep_inv _ _ _ _ _ _ _ Hlh S)|].
  split; [apply vals_erase_at, P|]. split; [|split; [|exact B]].
  - intros q. rewrite N0. unfold unlink_run.
    rewrite !lookup_alter_is_Some. apply pool_push_dom.
  - rewrite T. f_equal. unfold frees, CLIST_PAYLOAD_FREE.
    destruct (Z.land (flags l) 1 =? 0); [reflexivity|]. cbn [negb].
    unfold run_at, vals. rewrite skipn_map, firstn_map, map_map.
    reflexivity.
Qed.

Lemma erase_removes_the_run_witness :
  exists m',
    clist_erase 100 2 3 mem_ten = Ok tt m' /\
    list_inv m' 100 [1000; 1020; 1100; 1120; 1140; 1160; 1180]
      [1080; 1060; 1040] /\
    vals (nodes m') [1000; 1020; 1100; 1120; 1140; 1160; 1180]
    = [0; 1; 5; 6; 7; 8; 9] /\
    trace m' = trace mem_ten.
Proof.
  assert (Hl : lists mem_ten !! 100 = Some (mk_list 1000 1180 7 0 4 10 8 0 0))
    by (vm_compute; reflexivity).
  destruct (erase_removes_the_run mem_ten 100 _ _ _ 2 3 mem_ten_wf handle_100
              Hl mem_ten_rep ltac:(lia) ltac:(lia) ltac:(simpl; lia))
    as (m' & E & _ & I & V & _ & T & _).
  exists m'. split; [exact E|]. split; [exact I|]. split; [exact V|].
  rewrite T. apply app_nil_r.
Defined.

(** X13: [clist_erase] does nothing when the count is zero or when the
    run would end past the last element (for an index and a count whose
    sum does not wrap around): memory is left as it was. *)
Theorem erase_outside_is_noop m lh ns ps idx count :
  list_inv m lh ns ps ->
  count = 0 \/
  (0 <= idx + count < SIZE_MOD /\ Z.of_nat (length ns) < idx + count) ->
  clist_erase lh idx count m = Ok tt m.
Proof.
  intros (Hlh & l & Hl & R) H. apply (clist_erase_noop m lh l); try assumption.
  destruct H as [->|[Hr Hlen]]; [left; lia|]. right.
  rewrite wrap_small by exact Hr. rewrite (rep_size _ _ _ _ R). exact Hlen.
Qed.

Lemma erase_outside_is_noop_witness :
  clist_erase 100 8 3 mem_ten = Ok tt mem_ten.
Proof.
  apply (erase_outside_is_noop mem_ten 100 _ _ 8 3 mem_ten_inv).
  right. rewrite SIZE_MOD_val. simpl. lia.
Defined.

(** X14: [clist_pop_front] on a list with an element removes the first
    one: the chain loses its first node, which goes on top of the pool,
    the other elements keep their values and order, and the element is
    passed to [free] exactly when the list owns its elements.  On an
    empty list it does nothing. *)
Theorem pop_front_removes_the_first m lh l ns ps :
  mem_wf m -> lh <> NULL -> lists m !! lh = Some l -> rep (nodes m) l ns ps ->
  (ns = [] -> clist_pop_front lh m = Ok tt m) /\
  (ns <> [] ->
   exists m',
     clist_pop_front lh m = Ok tt m' /\
     list_inv m' lh (drop 1 ns) (hd NULL ns :: ps) /\
     vals (nodes m') (drop 1 ns) = drop 1 (vals (nodes m) ns) /\
     trace m' = trace m ++ frees (nodes m) (flags l) [hd NULL ns] /\
     brk m' = brk m).
Proof.
  intros W Hlh Hl R. unfold clist_pop_front. split.
  - intros ->. apply (clist_erase_noop m lh l); try assumption. right.
    rewrite (rep_size _ _ _ _ R). simpl. rewrite wrap_small; [lia|].
    rewrite SIZE_MOD_val. lia.
  - intros Hne. destruct ns as [|n ns]; [contradiction|].
    destruct (clist_erase_spec m lh l (n :: ns) ps 0 1 W Hlh Hl R)
      as (m' & E & S & P & T & B); [lia|lia|simpl; lia|].
    exists m'. split; [exact E|].
    split; [exact (lstep_inv _ _ _ _ _ _ _ Hlh S)|].
    split; [|split; [exact T|exact B]].
    apply (vals_erase_at (nodes m) (nodes m') 0 1 (n :: ns) P).
Qed.

Lemma pop_front_removes_the_first_witness :
  exists m',
    clist_pop_front 100 mem_three = Ok tt m' /\
    list_inv m' 100 [1020; 1040] [1000] /\
    vals (nodes m') [1020; 1040] = [1; 2].
Proof.
  assert (Hl : lists mem_three !! 100 = Some (mk_list 1000 1040 7 0 4 3 8 0 0))
    by (vm_compute; reflexivity).
  destruct (pop_front_removes_the_first mem_three 100 _ _ _ mem_three_wf
              handle_100 Hl mem_three_rep) as [_ H].
  destruct (H ltac:(discriminate)) as (m' & E & I & V & _).
  exists m'. split; [exact E|]. split; [exact I|exact V].
Defined.

Lemma drop_last {A} (l : list A) (d : A) :
  l <> [] -> drop (length l - 1) l = [List.last l d].
Proof.
  intros Hne. destruct (exists_last Hne) as (l' & x & ->).
  rewrite length_app, last_last. simpl.
  replace (length l' + 1 - 1)%nat with (length l') by lia.
  apply drop_app_length.
Qed.

(** X15: [clist_pop_back] on a list with an element removes the last
    one: the chain loses its last node, which goes on top of the pool,
    the other elements keep their values and order, and the element is
    passed to [free] exactly when the list owns its elements. *)
Theorem pop_back_removes_the_last m lh l ns ps :
  mem_wf m -> lh <> NULL -> lists m !! lh = Some l -> rep (nodes m) l ns ps ->
  ns <> [] ->
  exists m',
    clist_pop_back lh m = Ok tt m' /\
    list_inv m' lh (take (length ns - 1) ns) (List.last ns NULL :: ps) /\
    vals (nodes m') (take (length ns - 1) ns)
    = take (length ns - 1) (vals (nodes m) ns) /\
    trace m' = trace m ++ frees (nodes m) (flags l) [List.last ns NULL] /\
    brk m' = brk m.
Proof.
  intros W Hlh Hl R Hne.
  rewrite (clist_pop_back_eq m lh l ns ps Hlh Hl R Hne).
  assert (Hlen : (0 < length ns)%nat) by (destruct ns; [contradiction|simpl; lia]).
  destruct (clist_erase_spec m lh l ns ps (Z.of_nat (length ns) - 1) 1
              W Hlh Hl R) as (m' & E & S & P & T & B); [lia|lia|lia|].
  replace (Z.to_nat (Z.of_nat (length ns) - 1)) with (length ns - 1)%nat
    in S, T by lia.
  replace (Z.to_nat 1) with (length ns - (length ns - 1))%nat in S, T by lia.
  rewrite erase_at_tail, run_at_tail in S. rewrite run_at_tail in T.
  rewrite (drop_last ns NULL Hne) in S, T. simpl rev in S. simpl app in S.
  exists m'. split; [exact E|].
  split; [exact (lstep_inv _ _ _ _ _ _ _ Hlh S)|].
  split; [|split; [exact T|exact B]].
  unfold vals. rewrite firstn_map. apply map_ext. exact P.
Qed.

Lemma pop_back_removes_the_last_witness :
  exists m',
    clist_pop_back 100 mem_three = Ok tt m' /\
    list_inv m' 100 [1000; 1020] [1040] /\
    vals (nodes m') [1000; 1020] = [0; 1].
Proof.
  assert (Hl : lists mem_three !! 100 = Some (mk_list 1000 1040 7 0 4 3 8 0 0))
    by (vm_compute; reflexivity).
  destruct (pop_back_removes_the_last mem_three 100 _ _ _ mem_three_wf
              handle_100 Hl mem_three_rep ltac:(discriminate))
    as (m' & E & I & V & _).
  exists m'. split; [exact E|]. split; [exact I|exact V].
Defined.

(** X16: [clist_clear] empties the chain into the pool: afterwards the
    list is empty and well formed, every node it had is in the pool (the
    former last element on top), none is given back to the allocator, and
    the elements are passed to [free], in list order, exactly when the
    list owns its elements.  On an empty list it does nothing. *)
Theorem clear_moves_the_chain_to_the_pool m lh l ns ps :
  mem_wf m -> lh <> NULL -> lists m !! lh = Some l -> rep (nodes m) l ns ps ->
  (ns = [] -> clist_clear lh m = Ok tt m) /\
  (ns <> [] ->
   exists m',
     clist_clear lh m = Ok tt m' /\
     list_inv m' lh [] (rev ns ++ ps) /\
     clist_size lh m' = Ok 0 m' /\
     (forall q, is_Some (nodes m' !! q) <-> is_Some (nodes m !! q)) /\
     trace m' = trace m ++ frees (nodes m) (flags l) ns /\
     brk m' = brk m).
Proof.
  intros W Hlh Hl R. split.
  - intros ->. apply (clist_clear_empty m lh l ps); assumption.
  - intros Hne.
    destruct (clist_clear_spec m lh l ns ps W Hlh Hl R Hne)
      as (m' & E & S & P & T & B).
    exists m'. split; [exact E|].
    pose proof (lstep_inv _ _ _ _ _ _ _ Hlh S) as I.
    split; [exact I|]. split; [|split; [|split; [exact T|exact B]]].
    + destruct I as (_ & l' & Hl' & R'). unfold clist_size.
      destruct (Z.eqb_spec lh NULL); [contradiction|]. cbn [negb].
      rewrite (rd_ok _ _ _ _ Hl'), (rep_size _ _ _ _ R'). reflexivity.
    + intros q.
      rewrite (clist_clear_eq m lh l ns ps Hlh Hl R) in E.
      destruct (clist_erase_run m lh l ns ps 0 (Z.of_nat (length ns))
                  W Hlh Hl R) as (m0 & E0 & N0 & _); [lia| |lia|].
      { destruct ns; [contradiction|simpl; lia]. }
      assert (m0 = m') as -> by congruence.
      rewrite N0. unfold unlink_run.
      rewrite !lookup_alter_is_Some. apply pool_push_dom.
Qed.

Lemma clear_moves_the_chain_to_the_pool_witness :
  exists m',
    clist_clear 100 mem_three = Ok tt m' /\
    list_inv m' 100 [] [1040; 1020; 1000] /\
    clist_size 100 m' = Ok 0 m'.
Proof.
  assert (Hl : lists mem_three !! 100 = Some (mk_list 1000 1040 7 0 4 3 8 0 0))
    by (vm_compute; reflexivity).
  destruct (clear_moves_the_chain_to_the_pool mem_three 100 _ _ _ mem_three_wf
              handle_100 Hl mem_three_rep) as [_ H].
  destruct (H ltac:(discriminate)) as (m' & E & I & Z0 & _).
  exists m'. split; [exact E|]. split; [exact I|exact Z0].
Defined.

(** * Resizing *)

Lemma pay_same_lookup h h' q : h' !! q = h !! q -> pay h' q = pay h q.
Proof. intros H. unfold pay. rewrite H. reflexivity. Qed.

(** X17: [clist_resize] to a smaller size keeps the first [new_size]
    elements, with their values and order, and moves the nodes of the
    others to the pool (the former last element on top); their elements
    are passed to [free], in list order, exactly when the list owns its
    elements.  The [elem] argument is not used and the allocator is not
    called. *)
Theorem resize_to_smaller_truncates m lh l ns ps new_size elem :
  mem_wf m -> lh <> NULL -> lists m !! lh = Some l -> rep (nodes m) l ns ps ->
  0 <= new_size < Z.of_nat (length ns) ->
  exists m',
    clist_resize lh new_size elem m = Ok EXIT_SUCCESS m' /\
    list_inv m' lh (take (Z.to_nat new_size) ns)
      (rev (drop (Z.to_nat new_size) ns) ++ ps) /\
    vals (nodes m') (take (Z.to_nat new_size) ns)
    = take (Z.to_nat new_size) (vals (nodes m) ns) /\
    trace m' = trace m ++ frees (nodes m) (flags l)
                            (drop (Z.to_nat new_size) ns) /\
    brk m' = brk m.
Proof.
  intros W Hlh Hl R Hn.
  destruct (clist_resize_shrink m lh l ns ps new_size elem W Hlh Hl R Hn)
    as (m' & E & S & P & T & B).
  exists m'. split; [exact E|].
  split; [exact (lstep_inv _ _ _ _ _ _ _ Hlh S)|].
  split; [|split; [exact T|exact B]].
  unfold vals. rewrite firstn_map. apply map_ext. exact P.
Qed.

Lemma resize_to_smaller_truncates_witness :
  exists m',
    clist_resize 100 4 None mem_ten = Ok EXIT_SUCCESS m' /\
    list_inv m' 100 [1000; 1020; 1040; 1060]
      [1180; 1160; 1140; 1120; 1100; 1080] /\
    vals (nodes m') [1000; 1020; 1040; 1060] = [0; 1; 2; 3].
Proof.
  assert (Hl : lists mem_ten !! 100 = Some (mk_list 1000 1180 7 0 4 10 8 0 0))
    by (vm_compute; reflexivity).
  destruct (resize_to_smaller_truncates mem_ten 100 _ _ _ 4 None mem_ten_wf
              handle_100 Hl mem_ten_rep ltac:(simpl; lia))
    as (m' & E & I & V & _).
  exists m'. split; [exact E|]. split; [exact I|exact V].
Defined.





(** * Giving memory back *)

(** X20: [clist_shrink_to_fit] gives every node of the pool back to the
    allocator, each exactly once and from the top down, and leaves the
    pool empty; the chain, its elements and every other node are
    untouched, and the list stays well formed. *)
Theorem shrink_to_fit_releases_the_pool m lh l ns ps :
  mem_wf m -> lh <> NULL -> lists m !! lh = Some l -> rep (nodes m) l ns ps ->
  exists m',
    clist_shrink_to_fit lh m = Ok tt m' /\
    list_inv m' lh ns [] /\
    (forall q, nodes m' !! q
               = if decide (q ∈ ps) then None else nodes m !! q) /\
    vals (nodes m') ns = vals (nodes m) ns /\
    trace m' = trace m ++ map EvFree ps /\
    brk m' = brk m.
Proof.
  intros W Hlh Hl R.
  destruct (clist_shrink_to_fit_spec m lh l ns ps W Hlh Hl R)
    as (m' & E & S & N & T & B).
  assert (Hq : forall q, nodes m' !! q
                         = if decide (q ∈ ps) then None else nodes m !! q).
  { intros q. rewrite N. apply release_lookup. }
  exists m'. split; [exact E|].
  split; [exact (lstep_inv _ _ _ _ _ _ _ Hlh S)|]. split; [exact Hq|].
  split; [|split; [exact T|exact B]].
  apply vals_ext. intros p Hp. apply pay_same_lookup. rewrite Hq.
  rewrite decide_False; [reflexivity|]. intros Hps.
  pose proof (rep_nodup _ _ _ _ R) as ND. apply NoDup_app in ND.
  destruct ND as (_ & Hd & _). exact (Hd p Hp Hps).
Qed.

Lemma shrink_to_fit_releases_the_pool_witness :
  exists m',
    clist_shrink_to_fit 100 mem_pool = Ok tt m' /\
    list_inv m' 100 [1000; 1020; 1100; 1120; 1140; 1160; 1180] [] /\
    trace m' = trace mem_pool ++ [EvFree 1080; EvFree 1060; EvFree 1040].
Proof.
  assert (Hl : lists mem_pool !! 100 = Some (mk_list 1000 1180 1100 1080 4 7 2 3 2))
    by (vm_compute; reflexivity).
  destruct (shrink_to_fit_releases_the_pool mem_pool 100 _ _ _ mem_pool_wf
              handle_100 Hl mem_pool_rep) as (m' & E & I & _ & _ & T & _).
  exists m'. split; [exact E|]. split; [exact I|exact T].
Defined.

(** X21: [clist_destroy] gives every node of the list back to the
    allocator, chain and pool, each exactly once, after passing the
    elements to [free] when the list owns them.  The list object is left
    as a well-formed empty list, and no node of another list is
    touched. *)
Theorem destroy_releases_every_node m lh l ns ps :
  mem_wf m -> lh <> NULL -> lists m !! lh = Some l -> rep (nodes m) l ns ps ->
  exists m',
    clist_destroy lh m = Ok tt m' /\
    list_inv m' lh [] [] /\
    (forall q, nodes m' !! q
               = if decide (q ∈ ns ++ ps) then None else nodes m !! q) /\
    trace m' = trace m ++ frees (nodes m) (flags l) ns
                       ++ map EvFree (rev ns ++ ps) /\
    rev ns ++ ps ≡ₚ ns ++ ps /\
    brk m' = brk m.
Proof.
  intros W Hlh Hl R.
  destruct (clist_destroy_spec m lh l ns ps W Hlh Hl R)
    as (m' & E & S & N & T & B).
  exists m'. split; [exact E|].
  split; [exact (lstep_inv _ _ _ _ _ _ _ Hlh S)|]. split; [exact N|].
  split; [exact T|]. split; [|exact B].
  apply Permutation_app_tail. symmetry. apply Permutation_rev.
Qed.

Lemma destroy_releases_every_node_witness :
  exists m',
    clist_destroy 100 mem_three = Ok tt m' /\
    list_inv m' 100 [] [] /\
    trace m' = trace mem_three ++ [EvFree 1040; EvFree 1020; EvFree 1000].
Proof.
  assert (Hl : lists mem_three !! 100 = Some (mk_list 1000 1040 7 0 4 3 8 0 0))
    by (vm_compute; reflexivity).
  destruct (destroy_releases_every_node mem_three 100 _ _ _ mem_three_wf
              handle_100 Hl mem_three_rep) as (m' & E & I & _ & T & _).
  exists m'. split; [exact E|]. split; [exact I|exact T].
Defined.



(** * Callbacks *)

(** X23: [clist_foreach] calls the callback once on every element, from
    the first to the last, each time with the address of the element;
    what the callback leaves in an element is what the list then holds
    there.  Links, pool and every node outside the chain are untouched,
    so the list stays well formed with the same nodes.  With a NULL
    callback nothing is done. *)
Theorem foreach_visits_head_to_tail m lh ns ps f :
  mem_wf m -> list_inv m lh ns ps ->
  clist_foreach lh None m = Ok tt m /\
  exists m',
    clist_foreach lh (Some f) m = Ok tt m' /\
    list_inv m' lh ns ps /\
    vals (nodes m') ns = map f (vals (nodes m) ns) /\
    (forall q, q ∉ ns -> nodes m' !! q = nodes m !! q) /\
    trace m' = trace m ++ map (fun p => EvCall (payload_ptr p)) ns /\
    brk m' = brk m.
Proof.
  intros W (Hlh & l & Hl & R). split; [reflexivity|].
  destruct (clist_foreach_spec m lh l ns ps f W Hlh Hl R)
    as (m' & E & S & N & T & B).
  exists m'. split; [exact E|].
  split; [exact (lstep_inv _ _ _ _ _ _ _ Hlh S)|].
  split; [|split; [|split; [exact T|exact B]]].
  - rewrite N. apply vals_foreach_nodes.
    + pose proof (rep_nodup _ _ _ _ R) as ND. apply NoDup_app in ND. tauto.
    + intros p Hp. eapply rep_lookup; [exact R|]. apply elem_of_app. auto.
  - intros q Hq. rewrite N. apply foreach_nodes_frame, Hq.
Qed.

Lemma foreach_visits_head_to_tail_witness :
  exists m',
    clist_foreach 100 (Some (fun x => x * 10)) mem_three = Ok tt m' /\
    vals (nodes m') [1000; 1020; 1040] = [0; 10; 20] /\
    trace m' = trace mem_three
               ++ [EvCall 1016; EvCall 1036; EvCall 1056].
Proof.
  destruct (foreach_visits_head_to_tail mem_three 100 _ _ (fun x => x * 10)
              mem_three_wf mem_three_inv) as (_ & m' & E & _ & V & _ & T & _).
  exists m'. split; [exact E|]. split; [exact V|exact T].
Defined.

(** X24: [clist_filter] calls the callback once on every element the
    list holds at the start, from the last to the first, and keeps
    exactly the elements for which it answers non-zero, with their
    values and in their order.  The nodes of the others go to the pool
    and their elements are passed to [free], right after the callback's
    answer, exactly when the list owns its elements.  The allocator is
    not called and the list stays well formed. *)
Theorem filter_keeps_accepted_elements m lh l ns ps f :
  mem_wf m -> lh <> NULL -> lists m !! lh = Some l -> rep (nodes m) l ns ps ->
  exists m',
    clist_filter lh (Some f) m = Ok tt m' /\
    list_inv m' lh (List.filter (keeps f (nodes m)) ns)
      (List.filter (fun p => negb (keeps f (nodes m) p)) ns ++ ps) /\
    vals (nodes m') (List.filter (keeps f (nodes m)) ns)
    = List.filter (fun x => negb (f x =? 0)) (vals (nodes m) ns) /\
    trace m'
    = trace m ++ flat_map (filter_events f (nodes m) (flags l)) (rev ns) /\
    brk m' = brk m.
Proof.
  intros W Hlh Hl R.
  destruct (clist_filter_spec m lh l ns ps f W Hlh Hl R)
    as (m' & E & S & P & T & B).
  exists m'. split; [exact E|].
  split; [exact (lstep_inv _ _ _ _ _ _ _ Hlh S)|].
  split; [|split; [exact T|exact B]].
  rewrite <- vals_filter. apply vals_ext. intros p _. apply P.
Qed.

Lemma filter_keeps_accepted_elements_witness :
  exists m',
    clist_filter 100 (Some (fun x => if Z.even x then 1 else 0)) mem_ten
    = Ok tt m' /\
    list_inv m' 100 [1000; 1040; 1080; 1120; 1160]
      [1020; 1060; 1100; 1140; 1180] /\
    vals (nodes m') [1000; 1040; 1080; 1120; 1160] = [0; 2; 4; 6; 8].
Proof.
  assert (Hl : lists mem_ten !! 100 = Some (mk_list 1000 1180 7 0 4 10 8 0 0))
    by (vm_compute; reflexivity).
  destruct (filter_keeps_accepted_elements mem_ten 100 _ _ _
              (fun x => if Z.even x then 1 else 0) mem_ten_wf handle_100 Hl
              mem_ten_rep) as (m' & E & I & V & _).
  exists m'. split; [exact E|]. split; [exact I|exact V].
Defined.

(** * Reuse of erased nodes *)

(** X25: the nodes a [clist_erase] removes are the ones the list grows
    with next.  After the erasure of a run, [clist_resize] back to the
    former size succeeds without a call of the allocator, whether or not
    the heap has room: it appends the erased nodes, the last erased
    first, each holding a copy of [elem], and the pool is again what it
    was before the erasure. *)
Theorem erased_nodes_are_reused m lh l ns ps idx count v :
  mem_wf m -> lh <> NULL -> lists m !! lh = Some l -> rep (nodes m) l ns ps ->
  0 <= idx -> 0 < count -> idx + count <= Z.of_nat (length ns) ->
  exists m1 m2,
    clist_erase lh idx count m = Ok tt m1 /\
    clist_resize lh (Z.of_nat (length ns)) (Some v) m1 = Ok EXIT_SUCCESS m2 /\
    list_inv m2 lh
      (erase_at (Z.to_nat idx) (Z.to_nat count) ns
       ++ rev (run_at (Z.to_nat idx) (Z.to_nat count) ns)) ps /\
    vals (nodes m2)
      (erase_at (Z.to_nat idx) (Z.to_nat count) ns
       ++ rev (run_at (Z.to_nat idx) (Z.to_nat count) ns))
    = erase_at (Z.to_nat idx) (Z.to_nat count) (vals (nodes m) ns)
      ++ repeat v (Z.to_nat count) /\
    trace m2 = trace m1 /\ brk m2 = brk m.
Proof.
  intros W Hlh Hl R Hidx Hc Hlen.
  pose proof (rep_length_bound _ _ _ _ R) as Hb.
  destruct (clist_erase_spec m lh l ns ps idx count W Hlh Hl R Hidx Hc Hlen)
    as (m1 & E1 & S1 & P1 & T1 & B1).
  destruct (lstep_list _ _ _ _ _ _ _ l S1 Hl) as (l1 & Hl1 & _ & R1 & C1).
  set (ns1 := erase_at (Z.to_nat idx) (Z.to_nat count) ns) in *.
  set (run := run_at (Z.to_nat idx) (Z.to_nat count) ns) in *.
  assert (Hrun : length run = Z.to_nat count).
  { unfold run, run_at. rewrite length_take, length_drop. lia. }
  assert (Hns1 : (length ns1 + Z.to_nat count = length ns)%nat).
  { unfold ns1, erase_at. rewrite length_app, length_take, length_drop. lia. }
  assert (Hk : Z.to_nat (Z.of_nat (length ns) - Z.of_nat (length ns1))
               = Z.to_nat count) by lia.
  destruct (clist_resize_grow m1 lh l1 ns1 (rev run ++ ps)
              (Z.of_nat (length ns)) (Some v) (ls_wf _ _ _ _ _ _ _ S1)
              Hlh Hl1 R1)
    as (m2 & new & E2 & _ & S2 & V2 & B2 & T2 & N2); [lia| |].
  { rewrite Hk, length_app, length_rev, Hrun. intros H. lia. }
  rewrite Hk in S2, V2, B2, T2, N2.
  assert (Hnew : new = rev run).
  { rewrite N2 by (rewrite length_app, length_rev, Hrun; lia).
    rewrite take_app_le by (rewrite length_rev; lia).
    apply take_ge. rewrite length_rev. lia. }
  subst new.
  replace (Z.to_nat count - length (rev run ++ ps))%nat with 0%nat in B2, T2
    by (rewrite length_app, length_rev, Hrun; lia).
  rewrite drop_app_le in S2 by (rewrite length_rev; lia).
  rewrite drop_ge in S2 by (rewrite length_rev; lia). simpl app in S2.
  exists m1, m2. split; [exact E1|]. split; [exact E2|].
  split; [exact (lstep_inv _ _ _ _ _ _ _ Hlh S2)|].
  split; [|split; [rewrite T2; apply app_nil_r|rewrite B2, B1; simpl; lia]].
  rewrite (V2 v eq_refl). f_equal. apply vals_erase_at, P1.
Qed.

Lemma erased_nodes_are_reused_witness :
  exists m1 m2,
    clist_erase 100 2 3 mem_ten = Ok tt m1 /\
    clist_resize 100 10 (Some 42) m1 = Ok EXIT_SUCCESS m2 /\
    vals (nodes m2)
      [1000; 1020; 1100; 1120; 1140; 1160; 1180; 1080; 1060; 1040]
    = [0; 1; 5; 6; 7; 8; 9; 42; 42; 42] /\
    trace m2 = trace m1.
Proof.
  assert (Hl : lists mem_ten !! 100 = Some (mk_list 1000 1180 7 0 4 10 8 0 0))
    by (vm_compute; reflexivity).
  destruct (erased_nodes_are_reused mem_ten 100 _ _ _ 2 3 42 mem_ten_wf
              handle_100 Hl mem_ten_rep ltac:(lia) ltac:(lia)
              ltac:(simpl; lia))
    as (m1 & m2 & E1 & E2 & _ & V & T & _).
  exists m1, m2. split; [exact E1|]. split; [exact E2|].
  split; [exact V|exact T].
Defined.

(** * A bounds check that wraps around *)

(** X26: the bounds check of [clist_erase] adds index and count in
    [size_t].  When the index is at or past the size and the sum wraps
    around to at most the size, the check passes, the index resolves to
    NULL and the first access through it is a fault: the call is not the
    no-op the check is there for. *)
Theorem erase_with_wrapped_sum_faults m lh ns ps idx count :
  mem_wf m -> list_inv m lh ns ps ->
  Z.of_nat (length ns) <= idx -> 0 < count ->
  wrap (idx + count) <= Z.of_nat (length ns) ->
  clist_erase lh idx count m = Fault.
Proof.
  intros W (Hlh & l & Hl & R) Hidx Hc Hw. unfold clist_erase.
  destruct (Z.eqb_spec lh NULL); [contradiction|]. cbn [negb].
  erewrite bind_rd by exact Hl. rewrite (rep_size _ _ _ _ R).
  destruct (Z.leb_spec (wrap (idx + count)) (Z.of_nat (length ns))); [|lia].
  destruct (Z.ltb_spec 0 count); [|lia]. cbn [andb].
  erewrite bind_ok.
  2:{ apply (clist_go_out m lh l); [assumption|assumption|].
      rewrite (rep_size _ _ _ _ R). exact Hidx. }
  unfold bind, load_node. rewrite (null_absent m W). reflexivity.
Qed.

Lemma erase_with_wrapped_sum_faults_witness :
  clist_erase 100 (SIZE_MOD - 1) 1 mem_three = Fault.
Proof.
  apply (erase_with_wrapped_sum_faults mem_three 100 _ _ (SIZE_MOD - 1) 1
           mem_three_wf mem_three_inv).
  - rewrite SIZE_MOD_val. simpl. lia.
  - lia.
  - vm_compute. discriminate.
Defined.

(** * Splicing that is refused *)

(** X27: [clist_splice] does nothing, and leaves memory as it was, when
    source and destination are the same list, when the run ends past the
    last element of the source, when the position is past the size of
    the destination, when the two lists differ in element size or in
    ownership mode, or when the count is zero. *)
Theorem splice_refused_is_noop m src dst ls ld idx count pos :
  src <> NULL -> dst <> NULL ->
  lists m !! src = Some ls -> lists m !! dst = Some ld ->
  src = dst \/ size ls < wrap (idx + count) \/ size ld < pos \/
  type_size ls <> type_size ld \/
  Z.land (flags ls) 1 <> Z.land (flags ld) 1 \/ count <= 0 ->
  clist_splice src idx count dst pos m = Ok tt m.
Proof.
  intros Hs Hd Hls Hld H. unfold clist_splice.
  destruct (Z.eqb_spec src NULL); [contradiction|].
  destruct (Z.eqb_spec dst NULL); [contradiction|].
  destruct (Z.eqb_spec src dst) as [E|E]; [reflexivity|]. cbn [negb andb].
  erewrite bind_rd by exact Hls.
  destruct (Z.leb_spec (wrap (idx + count)) (size ls)); [|reflexivity].
  erewrite bind_rd by exact Hld.
  destruct (Z.leb_spec pos (size ld)); [|reflexivity].
  erewrite bind_rd by exact Hls. erewrite bind_rd by exact Hld.
  destruct (Z.eqb_spec (type_size ls) (type_size ld)); [|reflexivity].
  erewrite bind_rd by exact Hls. erewrite bind_rd by exact Hld.
  destruct (Z.eqb_spec (Z.land (flags ls) 1) (Z.land (flags ld) 1));
    [|reflexivity].
  destruct (Z.ltb_spec 0 count); [|reflexivity].
  exfalso. destruct H as [?|[?|[?|[?|[?|?]]]]]; try contradiction; lia.
Qed.

Lemma splice_refused_is_noop_witness :
  clist_splice 100 8 3 200 0 mem_ten = Ok tt mem_ten /\
  clist_splice 100 0 2 200 1 mem_ten = Ok tt mem_ten.
Proof.
  assert (H1 : (200 : Z) <> NULL) by discriminate.
  assert (Hs : lists mem_ten !! 100 = Some (mk_list 1000 1180 7 0 4 10 8 0 0))
    by (vm_compute; reflexivity).
  assert (Hd : lists mem_ten !! 200 = Some (mk_list 0 0 7 0 4 0 7 0 0))
    by (vm_compute; reflexivity).
  split.
  - apply (splice_refused_is_noop mem_ten 100 200 _ _ 8 3 0 handle_100 H1 Hs Hd).
    right; left. vm_compute. reflexivity.
  - apply (splice_refused_is_noop mem_ten 100 200 _ _ 0 2 1 handle_100 H1 Hs Hd).
    right; right; left. simpl. lia.
Defined.

(** * Other lists *)




(** * Reading back what was inserted *)

Lemma clist_get_value m lh ns ps idx :
  list_inv m lh ns ps -> 0 <= idx < Z.of_nat (length ns) ->
  exists q m',
    clist_get lh idx m = Ok q m' /\
    deref_payload m' q = Some (nth (Z.to_nat idx) (vals (nodes m) ns) 0).
Proof.
  intros (Hlh & l & Hl & R) Hidx.
  rewrite (clist_get_run m lh l ns ps idx Hlh Hl R Hidx).
  eexists _, _. split; [reflexivity|].
  rewrite deref_payload_ptr. simpl.
  destruct (rep_nth _ _ _ _ (Z.to_nat idx) R) as [_ Hin]; [lia|].
  destruct (rep_lookup _ _ _ _ _ R (proj2 (elem_of_app _ _ _) (or_introl Hin)))
    as [nd E].
  rewrite E, nth_vals by lia. simpl. f_equal. symmetry. apply pay_lookup, E.
Qed.

Lemma insert_all_run lh : forall ops m l ns ps,
  mem_wf m -> lh <> NULL -> lists m !! lh = Some l -> rep (nodes m) l ns ps ->
  in_bounds ops (Z.of_nat (length ns)) ->
  ((length ps < length ops)%nat ->
   brk m + Z.of_nat (length ops - length ps) * node_block l <= lim m) ->
  exists m',
    insert_all lh ops m = Ok EXIT_SUCCESS m' /\
    contents m' lh (inserted ops (vals (nodes m) ns)).
Proof.
  induction ops as [|[i v] ops IH]; intros m l ns ps W Hlh Hl R Hb Hroom.
  - exists m. split; [reflexivity|]. exists ns, ps.
    split; [|reflexivity]. split; [exact Hlh|]. exists l. auto.
  - destruct Hb as [Hi Hb]. pose proof (node_block_pos l) as HB.
    destruct (clist_insert_ok m lh l ns ps i (Some v) W Hlh Hl R Hi)
      as (m1 & E & S & V & T & Bk).
    { intros ->. simpl in Hroom. fold (node_bytes l). fold (node_block l).
      specialize (Hroom ltac:(lia)). nia. }
    fold (node_bytes l) in Bk. fold (node_block l) in Bk.
    destruct (lstep_list _ _ _ _ _ _ _ l S Hl) as (l1 & Hl1 & _ & R1 & C1).
    destruct (IH m1 l1 _ (tl ps) (ls_wf _ _ _ _ _ _ _ S) Hlh Hl1 R1)
      as (m2 & E2 & C2).
    { rewrite insert_at_length, Nat2Z.inj_succ. exact Hb. }
    { rewrite (node_block_config l l1 C1), (ls_lim _ _ _ _ _ _ _ S), Bk.
      destruct ps as [|p ps]; simpl in *; intros.
      - specialize (Hroom ltac:(lia)). nia.
      - rewrite Z.add_0_r. apply Hroom. lia. }
    exists m2. split.
    + simpl. erewrite bind_ok by exact E. exact E2.
    + simpl. rewrite <- V. exact C2.
Qed.

(** X29: what a sequence of insertions puts into a list is what
    [clist_get] reads back.  From any well-formed list, a sequence of
    [clist_insert] calls whose indexes are each within the list at their
    turn, with room in the heap for the nodes the pool cannot give, all
    succeed; afterwards the list holds the values that the same
    insertions give on a plain sequence, and [clist_get] of every index
    below the size points to the value at that index. *)
Theorem inserted_values_are_read_back m lh l ns ps ops :
  mem_wf m -> lh <> NULL -> lists m !! lh = Some l -> rep (nodes m) l ns ps ->
  in_bounds ops (Z.of_nat (length ns)) ->
  ((length ps < length ops)%nat ->
   brk m + Z.of_nat (length ops - length ps) * node_block l <= lim m) ->
  exists m',
    insert_all lh ops m = Ok EXIT_SUCCESS m' /\
    contents m' lh (inserted ops (vals (nodes m) ns)) /\
    forall i,
      0 <= i < Z.of_nat (length (inserted ops (vals (nodes m) ns))) ->
      exists q m'',
        clist_get lh i m' = Ok q m'' /\
        deref_payload m'' q
        = Some (nth (Z.to_nat i) (inserted ops (vals (nodes m) ns)) 0).
Proof.
  intros W Hlh Hl R Hb Hroom.
  destruct (insert_all_run lh ops m l ns ps W Hlh Hl R Hb Hroom)
    as (m' & E & C).
  exists m'. split; [exact E|]. split; [exact C|].
  destruct C as (ns' & ps' & I & V). intros i Hi. rewrite <- V in Hi |- *.
  rewrite vals_length in Hi. apply (clist_get_value m' lh ns' ps'); assumption.
Qed.

Lemma inserted_values_are_read_back_witness :
  exists m',
    insert_all 100 [(0, 7); (4, 8); (2, 9)] mem_three = Ok EXIT_SUCCESS m' /\
    contents m' 100 [7; 0; 9; 1; 2; 8] /\
    exists q m'', clist_get 100 2 m' = Ok q m'' /\
                  deref_payload m'' q = Some 9.
Proof.
  assert (Hl : lists mem_three !! 100 = Some (mk_list 1000 1040 7 0 4 3 8 0 0))
    by (vm_compute; reflexivity).
  destruct (inserted_values_are_read_back mem_three 100 _ _ _
              [(0, 7); (4, 8); (2, 9)] mem_three_wf handle_100 Hl
              mem_three_rep ltac:(simpl; lia)
              ltac:(intros _; vm_compute; discriminate))
    as (m' & E & C & G).
  exists m'. split; [exact E|]. split; [exact C|].
  apply (G 2). simpl. lia.
Defined.

(** * Moving a run between two lists *)

(** X30.  [clist_splice(source, idx, count, dest, pos)] on two different
    well-formed lists of the same element size and ownership mode, which
    share no node, with [0 < count], [idx + count] within the source and
    [pos] within the destination: the call returns; the nodes at
    [idx .. idx + count - 1] of the source leave its chain and stand, in
    the same order, at [pos .. pos + count - 1] of the destination, both
    lists being well formed again with their pools as they were; the
    contents follow the nodes; nothing is allocated, freed or copied (the
    heap top and the record of allocator calls are unchanged). *)
Theorem splice_moves_the_run m src dst ls ld ns ps nd pd idx count pos :
  mem_wf m -> src <> NULL -> dst <> NULL -> src <> dst ->
  lists m !! src = Some ls -> lists m !! dst = Some ld ->
  rep (nodes m) ls ns ps -> rep (nodes m) ld nd pd ->
  (forall q, q ∈ ns ++ ps -> q ∉ nd ++ pd) ->
  config ls = config ld ->
  0 <= idx -> 0 < count -> idx + count <= Z.of_nat (length ns) ->
  0 <= pos <= Z.of_nat (length nd) ->
  exists m',
    clist_splice src idx count dst pos m = Ok tt m' /\
    list_inv m' src (erase_at (Z.to_nat idx) (Z.to_nat count) ns) ps /\
    list_inv m' dst (take (Z.to_nat pos) nd
                     ++ run_at (Z.to_nat idx) (Z.to_nat count) ns
                     ++ drop (Z.to_nat pos) nd) pd /\
    contents m' src
      (erase_at (Z.to_nat idx) (Z.to_nat count) (vals (nodes m) ns)) /\
    contents m' dst
      (take (Z.to_nat pos) (vals (nodes m) nd)
       ++ run_at (Z.to_nat idx) (Z.to_nat count) (vals (nodes m) ns)
       ++ drop (Z.to_nat pos) (vals (nodes m) nd)) /\
    brk m' = brk m /\ trace m' = trace m.
Proof.
  intros W Hs Hd Hsd Ls Ld Rs Rd Hdis Hcfg Hi Hc Hic Hp.
  destruct (clist_splice_spec m src dst ls ld ns ps nd pd idx count pos)
    as (m' & E & _ & Is & Id & Hpay & _ & Hb & _ & Ht); try assumption.
  assert (Hv : forall l, vals (nodes m') l = vals (nodes m) l).
  { intros l. unfold vals. apply map_ext. intros q. apply Hpay. }
  exists m'. split; [exact E|]. split; [exact Is|]. split; [exact Id|].
  split; [|split; [|split; [exact Hb|exact Ht]]].
  - eexists _, _. split; [exact Is|]. rewrite Hv.
    unfold erase_at, vals. rewrite map_app, firstn_map, skipn_map.
    reflexivity.
  - eexists _, _. split; [exact Id|]. rewrite Hv.
    unfold run_at, vals.
    rewrite !map_app, !skipn_map, !firstn_map. reflexivity.
Qed.

Lemma splice_moves_the_run_witness :
  exists m',
    clist_splice 100 1 2 200 1 mem_moved = Ok tt m' /\
    contents m' 100 [0; 6; 7; 8; 9] /\
    contents m' 200 [2; 1; 5; 3; 4] /\
    list_inv m' 200 [1040; 1020; 1100; 1060; 1080] [].
Proof.
  assert (Hs : lists mem_moved !! 100
               = Some (mk_list 1000 1180 1080 0 4 7 4 0 0))
    by (vm_compute; reflexivity).
  assert (Hd : lists mem_moved !! 200
               = Some (mk_list 1040 1080 7 0 4 3 7 0 0))
    by (vm_compute; reflexivity).
  assert (H200 : (200 : Z) <> NULL) by discriminate.
  assert (Hne : (100 : Z) <> 200) by discriminate.
  assert (Hdis : forall q : Z,
            q ∈ [1000; 1020; 1100; 1120; 1140; 1160; 1180] ++ [] ->
            q ∉ [1040; 1060; 1080] ++ []).
  { intros q Hq Hq'. simpl in Hq, Hq'.
    repeat (apply elem_of_cons in Hq' as [->|Hq']);
      [| | |inversion Hq'];
      repeat (apply elem_of_cons in Hq as [Hq|Hq]; [discriminate Hq|]);
      inversion Hq. }
  destruct (splice_moves_the_run mem_moved 100 200 _ _ _ _ _ _ 1 2 1
              mem_moved_wf handle_100 H200 Hne Hs Hd mem_moved_rep
              mem_moved_dest_rep Hdis eq_refl ltac:(lia) ltac:(lia)
              ltac:(simpl; lia) ltac:(simpl; lia))
    as (m' & E & _ & Id & Cs & Cd & _).
  exists m'. split; [exact E|]. split; [exact Cs|]. split; [exact Cd|].
  exact Id.
Defined.
